(** * CodeMapFree: the diagram state engine

    A shallow embedding of the webview script of the CodeMapFree extension
    (block store, arrow store, id allocation, z-order renumbering, the
    snapshot history and the arrow gestures) and of the id allocation of the
    [codemapfree.addToMap] command on the extension side, followed by the
    properties proved of them.

    Conventions of the model.
    - The block map [codeMap] is a JavaScript object used as a dictionary
      with string keys: a [gmap string CodeBlock].  Properties inherited from
      [Object.prototype] are not part of it.
    - The numbers of the script are doubles.  The numbers ids are computed
      with are modelled as such: [parseInt] and [+] round to the nearest
      double and [String] prints the shortest digits ([Ids]).  The two
      anchor functions are given on binary64 floats, with the rounding of
      every sum ([Binary64]).  Elsewhere a pixel quantity is a [Z] and the
      opacity a rational [Qc]: the controller stores and compares the
      offsets of a click, and the statements about pixels use the
      expressions of the script as they stand and no identity of exact
      arithmetic.
    - A function whose source can raise an exception returns [option]:
      [None] is the raised exception.  [None] is also the loop of the
      allocator that never ends, and the one result of [moveBlockToTop]
      that the model has no state for (see [remap_end]).
    - The document object model is represented by what the script reads
      from it: the inline box of every block element ([codeBlocks]), the
      measured box ([measure], from the style sheet of the page) and, for a
      click, the rectangle and scroll offsets of the content element.
      Drawing (the arrow layer, previews, cursors, style classes) assigns no
      variable of the model and is left out. *)

From Stdlib Require Import DecimalString DecimalN Qcanon.
From Stdlib Require Floats.
From stdpp Require Import sorting.
From stdpp Require Import numbers strings list gmap fin_maps.

Local Open Scope Z_scope.

(** ** Numbers and block identifiers *)

Module Ids.

(** [/^\d+$/.test(s)]: at least one character, all of them decimal digits. *)
Definition numericOnly (s : string) : bool :=
  match NilZero.uint_of_string s with
  | Some _ => true
  | None => false
  end.

(** The numbers the script computes ids with are doubles that are
    non-negative integers, or [Infinity].  Such a number is the natural
    number it is equal to; [Infinity] is [infinity], a value above every
    finite double.  [two53] is [2^53]: up to it every integer is a double,
    above it the doubles are the multiples of [2], then of [4], and so on. *)
Definition two53 : N := 9007199254740992%N.

Definition infinity : N := (2 ^ 1024)%N.

(** The double nearest to the natural number [n], ties to the even
    significand of 53 bits; from [2^1024 - 2^970] on the result is
    [Infinity]. *)
Definition roundD (n : N) : N :=
  if (n <? two53)%N then n
  else
    let e := (N.log2 n - 52)%N in
    let q := N.shiftr n e in
    let r := N.land n (N.ones e) in
    let half := (2 ^ (e - 1))%N in
    let q' := if (half <? r)%N || ((r =? half)%N && N.odd q)
              then (q + 1)%N else q in
    let v := N.shiftl q' e in
    if (infinity <=? v)%N then infinity else v.

(** [a + b] on two such numbers. *)
Definition addD (a b : N) : N := roundD (a + b).

(** [parseInt(s, 10)] on the strings that pass [numericOnly], the only ones
    the script hands to it: the double nearest to the integer the digits
    spell; [None] stands for [NaN]. *)
Definition parseInt (s : string) : option N :=
  roundD ∘ N.of_uint <$> NilZero.uint_of_string s.

(** The decimal digits of a natural number, no leading zero. *)
Definition decimal (n : N) : string :=
  NilZero.string_of_uint (N.to_uint n).

Definition ndigits (n : N) : nat := String.length (decimal n).

(** [String(v)] prints the decimal number with the fewest significant
    digits that the double [v] is the nearest double of, and of those the
    one nearest to [v].  With [k] significant digits the only candidates are
    the two multiples of [10^(d - k)] around [v], for [d] the number of
    digits of [v]. *)
Definition pick (v : N) (k : nat) : option N :=
  let p := (10 ^ N.of_nat (ndigits v - k))%N in
  let lo := (v / p * p)%N in
  let hi := (lo + p)%N in
  match bool_decide (roundD lo = v), bool_decide (roundD hi = v) with
  | true, true =>
      if (v - lo <? hi - v)%N then Some lo
      else if (hi - v <? v - lo)%N then Some hi
      else if N.even (lo / p) then Some lo else Some hi
  | true, false => Some lo
  | false, true => Some hi
  | false, false => None
  end.

Fixpoint shortest (fuel k : nat) (v : N) : N :=
  match fuel with
  | O => v
  | S fuel' =>
      match pick v k with
      | Some c => c
      | None => shortest fuel' (S k) v
      end
  end.

(** [c] without its trailing zeros. *)
Fixpoint significant (fuel : nat) (c : N) : N :=
  match fuel with
  | O => c
  | S fuel' =>
      if (c mod 10 =? 0)%N && negb (c =? 0)%N
      then significant fuel' (c / 10) else c
  end.

(** The exponent notation of [String], as in ["1.1805916207174113e+21"]. *)
Definition exponent (c : N) : string :=
  match decimal (significant (ndigits c) c) with
  | EmptyString => EmptyString
  | String d rest =>
      String d (match rest with
                | EmptyString => EmptyString
                | _ => "." +:+ rest
                end)
      +:+ "e+" +:+ decimal (N.of_nat (ndigits c - 1))
  end.

(** [String(n)] for such a number: up to [2^53] the decimal digits of [n];
    above, the shortest decimal number that reads back as [n], in digits
    below [10^21] and in exponent notation from there on; ["Infinity"]. *)
Definition StringN (n : N) : string :=
  if (n <=? two53)%N then decimal n
  else if (infinity <=? n)%N then "Infinity"
  else
    let c := shortest (ndigits n) 1 n in
    if (c <? 10 ^ 21)%N then decimal c else exponent c.

(** A numeric id is canonical when it is what [String] prints for its
    value: no leading zero, and digits that the rounding of [parseInt]
    gives back.  The ids the allocator hands out all are. *)
Definition canonical (s : string) : Prop :=
  ∀ n, parseInt s = Some n → StringN n = s.

(** The integer a purely numeric key spells, before any rounding. *)
Definition integer_value (s : string) : option N :=
  N.of_uint <$> NilZero.uint_of_string s.

End Ids.
Export Ids.

(** ** The persisted data *)

(** [interface CodeBlock]: [name] is optional (older files lack it). *)
Record CodeBlock := mkBlock {
  b_name : option string;
  b_path : string;
  b_start_line : Z;
  b_end_line : Z;
  b_x : Z;
  b_y : Z;
  b_w : Z;
  b_h : Z
}.

(** An arrow end: a block id and an offset from the content origin of that
    block. *)
Record Anchor := mkAnchor {
  block : string;
  a_x : Z;
  a_y : Z
}.

Record Arrow := mkArrow {
  a_from : Anchor;
  a_to : Anchor;
  a_color : option string;
  a_alpha : option Qc
}.

#[global] Instance CodeBlock_eq_dec : EqDecision CodeBlock.
Proof. solve_decision. Defined.
#[global] Instance Anchor_eq_dec : EqDecision Anchor.
Proof. solve_decision. Defined.
#[global] Instance Arrow_eq_dec : EqDecision Arrow.
Proof. solve_decision. Defined.

(** The document as it is saved and as a history snapshot holds it:
    [codeMapData] with its [arrows] member set from the [arrows] variable.
    The script reads [codeMapData.arrows] only when it starts; everywhere
    else it assigns the member from [arrows] before using the object
    ([snapshotState], [saveData]), so the live state keeps the arrows in
    the variable alone. *)
Record CodeMapData := mkData {
  page_name : string;
  codeMap : gmap string CodeBlock;
  d_arrows : list Arrow
}.

(** JavaScript truthiness of an optional string member: [undefined] and the
    empty string are falsy. *)
Definition truthy (o : option string) : bool :=
  match o with
  | Some s => negb (String.eqb s "")
  | None => false
  end.

(** [JSON.parse(JSON.stringify(obj))]: a copy that shares nothing with the
    original.  Values of the model are immutable, every copy is the value. *)
Definition deepClone {A} (obj : A) : A := obj.

(** ** Geometry read back from the page *)

Record Box := mkBox { left : Z; top : Z; width : Z; height : Z }.

Definition MIN_W : Z := 300.
Definition MIN_H : Z := 200.

(** What [getBoundingClientRect] reports, in canvas coordinates, for a block
    element whose inline style is [st]: the rule [.code-block] of the page
    gives it [min-width: 300px; min-height: 200px] under
    [box-sizing: border-box], the position is absolute. *)
Definition measure (st : Box) : Box :=
  {| left := left st; top := top st;
     width := Z.max (width st) 300; height := Z.max (height st) 200 |}.

Definition box_of (b : CodeBlock) : Box :=
  {| left := b_x b; top := b_y b; width := b_w b; height := b_h b |}.

Definition set_box (r : Box) (b : CodeBlock) : CodeBlock :=
  {| b_name := b_name b; b_path := b_path b;
     b_start_line := b_start_line b; b_end_line := b_end_line b;
     b_x := left r; b_y := top r; b_w := width r; b_h := height r |}.

(** The invariant of the data model on a block: [w >= MIN_W], [h >= MIN_H]. *)
Definition block_ok (b : CodeBlock) : Prop :=
  MIN_W ≤ b_w b ∧ MIN_H ≤ b_h b.

(** ** Id allocation *)

Module Alloc.

(** One round of the scan: titles that are not purely numeric are skipped
    (a renamed block keeps its id, the comment says such titles are "not
    counted"). *)
Definition scan (title : string) (blk : CodeBlock) (maxNum : N) : N :=
  if numericOnly title then
    match parseInt title with
    | Some n => if (maxNum <? n)%N then n else maxNum
    | None => maxNum
    end
  else maxNum.

Definition maxNumeric (m : gmap string CodeBlock) : N :=
  map_fold scan 0%N m.

(** [while (codeMap[name]) { next += 1; name = String(next); }] with at most
    [fuel] rounds; [None]: the fuel ran out.  With as many rounds as the map
    has keys that happens only when the loop of the script never ends:
    [next += 1] leaves a number where it is once the double after it is
    further than [1] away, from [2^53] on. *)
Fixpoint probe (fuel : nat) (m : gmap string CodeBlock) (next : N)
  : option string :=
  match m !! StringN next with
  | None => Some (StringN next)
  | Some _ =>
      match fuel with
      | O => None
      | S fuel' => probe fuel' m (addD next 1)
      end
  end.

(** [getNextNumericNameForPath(filePath)] of the webview (used by paste). The
    path is not consulted: "不再限制路径". *)
Definition getNextNumericNameForPath
    (m : gmap string CodeBlock) (filePath : string) : option string :=
  probe (size m) m (addD (maxNumeric m) 1).

(** The same computation written inline in the [codemapfree.addToMap]
    command on the loaded file. *)
Definition addToMap_blockName (data : CodeMapData) : option string :=
  probe (size (codeMap data)) (codeMap data) (addD (maxNumeric (codeMap data)) 1).

End Alloc.
Export Alloc.

(** ** The state of the webview script *)

Inductive Endpoint := EFrom | ETo.

#[global] Instance Endpoint_eq_dec : EqDecision Endpoint.
Proof. solve_decision. Defined.

(** The top-level variables of the script that the modelled functions read
    or write.  [st_page_name] and [st_codeMap] are the members of
    [codeMapData]; [codeBlocks] keeps, for every rendered block element, the
    box of its inline style; [saved] is the list of documents posted to the
    extension with the [save] command, oldest first. *)
Record State := mkState {
  st_page_name : string;
  st_codeMap : gmap string CodeBlock;
  arrows : list Arrow;
  codeBlocks : gmap string Box;
  history : list CodeMapData;
  historyIndex : Z;
  isApplyingHistory : bool;
  arrowMode : bool;
  arrowStart : option Anchor;
  currentArrowColor : string;
  currentArrowAlpha : Qc;
  selectedArrowIndex : Z;
  editingArrowEndpoint : option (Z * Endpoint);
  selectedBlockName : option string;
  saved : list CodeMapData
}.

Definition set_page_name (v : string) (s : State) : State :=
  mkState v (st_codeMap s) (arrows s) (codeBlocks s) (history s)
    (historyIndex s) (isApplyingHistory s) (arrowMode s) (arrowStart s)
    (currentArrowColor s) (currentArrowAlpha s) (selectedArrowIndex s)
    (editingArrowEndpoint s) (selectedBlockName s) (saved s).

Definition set_codeMap (v : gmap string CodeBlock) (s : State) : State :=
  mkState (st_page_name s) v (arrows s) (codeBlocks s) (history s)
    (historyIndex s) (isApplyingHistory s) (arrowMode s) (arrowStart s)
    (currentArrowColor s) (currentArrowAlpha s) (selectedArrowIndex s)
    (editingArrowEndpoint s) (selectedBlockName s) (saved s).

Definition set_arrows (v : list Arrow) (s : State) : State :=
  mkState (st_page_name s) (st_codeMap s) v (codeBlocks s) (history s)
    (historyIndex s) (isApplyingHistory s) (arrowMode s) (arrowStart s)
    (currentArrowColor s) (currentArrowAlpha s) (selectedArrowIndex s)
    (editingArrowEndpoint s) (selectedBlockName s) (saved s).

Definition set_codeBlocks (v : gmap string Box) (s : State) : State :=
  mkState (st_page_name s) (st_codeMap s) (arrows s) v (history s)
    (historyIndex s) (isApplyingHistory s) (arrowMode s) (arrowStart s)
    (currentArrowColor s) (currentArrowAlpha s) (selectedArrowIndex s)
    (editingArrowEndpoint s) (selectedBlockName s) (saved s).

Definition set_history (v : list CodeMapData) (s : State) : State :=
  mkState (st_page_name s) (st_codeMap s) (arrows s) (codeBlocks s) v
    (historyIndex s) (isApplyingHistory s) (arrowMode s) (arrowStart s)
    (currentArrowColor s) (currentArrowAlpha s) (selectedArrowIndex s)
    (editingArrowEndpoint s) (selectedBlockName s) (saved s).

Definition set_historyIndex (v : Z) (s : State) : State :=
  mkState (st_page_name s) (st_codeMap s) (arrows s) (codeBlocks s)
    (history s) v (isApplyingHistory s) (arrowMode s) (arrowStart s)
    (currentArrowColor s) (currentArrowAlpha s) (selectedArrowIndex s)
    (editingArrowEndpoint s) (selectedBlockName s) (saved s).

Definition set_isApplyingHistory (v : bool) (s : State) : State :=
  mkState (st_page_name s) (st_codeMap s) (arrows s) (codeBlocks s)
    (history s) (historyIndex s) v (arrowMode s) (arrowStart s)
    (currentArrowColor s) (currentArrowAlpha s) (selectedArrowIndex s)
    (editingArrowEndpoint s) (selectedBlockName s) (saved s).

Definition set_arrowMode (v : bool) (s : State) : State :=
  mkState (st_page_name s) (st_codeMap s) (arrows s) (codeBlocks s)
    (history s) (historyIndex s) (isApplyingHistory s) v (arrowStart s)
    (currentArrowColor s) (currentArrowAlpha s) (selectedArrowIndex s)
    (editingArrowEndpoint s) (selectedBlockName s) (saved s).

Definition set_arrowStart (v : option Anchor) (s : State) : State :=
  mkState (st_page_name s) (st_codeMap s) (arrows s) (codeBlocks s)
    (history s) (historyIndex s) (isApplyingHistory s) (arrowMode s) v
    (currentArrowColor s) (currentArrowAlpha s) (selectedArrowIndex s)
    (editingArrowEndpoint s) (selectedBlockName s) (saved s).

Definition set_currentArrowColor (v : string) (s : State) : State :=
  mkState (st_page_name s) (st_codeMap s) (arrows s) (codeBlocks s)
    (history s) (historyIndex s) (isApplyingHistory s) (arrowMode s)
    (arrowStart s) v (currentArrowAlpha s) (selectedArrowIndex s)
    (editingArrowEndpoint s) (selectedBlockName s) (saved s).

Definition set_currentArrowAlpha (v : Qc) (s : State) : State :=
  mkState (st_page_name s) (st_codeMap s) (arrows s) (codeBlocks s)
    (history s) (historyIndex s) (isApplyingHistory s) (arrowMode s)
    (arrowStart s) (currentArrowColor s) v (selectedArrowIndex s)
    (editingArrowEndpoint s) (selectedBlockName s) (saved s).

Definition set_selectedArrowIndex (v : Z) (s : State) : State :=
  mkState (st_page_name s) (st_codeMap s) (arrows s) (codeBlocks s)
    (history s) (historyIndex s) (isApplyingHistory s) (arrowMode s)
    (arrowStart s) (currentArrowColor s) (currentArrowAlpha s) v
    (editingArrowEndpoint s) (selectedBlockName s) (saved s).

Definition set_editingArrowEndpoint (v : option (Z * Endpoint)) (s : State)
  : State :=
  mkState (st_page_name s) (st_codeMap s) (arrows s) (codeBlocks s)
    (history s) (historyIndex s) (isApplyingHistory s) (arrowMode s)
    (arrowStart s) (currentArrowColor s) (currentArrowAlpha s)
    (selectedArrowIndex s) v (selectedBlockName s) (saved s).

Definition set_selectedBlockName (v : option string) (s : State) : State :=
  mkState (st_page_name s) (st_codeMap s) (arrows s) (codeBlocks s)
    (history s) (historyIndex s) (isApplyingHistory s) (arrowMode s)
    (arrowStart s) (currentArrowColor s) (currentArrowAlpha s)
    (selectedArrowIndex s) (editingArrowEndpoint s) v (saved s).

Definition set_saved (v : list CodeMapData) (s : State) : State :=
  mkState (st_page_name s) (st_codeMap s) (arrows s) (codeBlocks s)
    (history s) (historyIndex s) (isApplyingHistory s) (arrowMode s)
    (arrowStart s) (currentArrowColor s) (currentArrowAlpha s)
    (selectedArrowIndex s) (editingArrowEndpoint s) (selectedBlockName s) v.

(** ** Rendering and saving *)

(** The effect of the first loop of [loadCodeBlocks] on a block record.
    A record without a [name] member gets [{ name: id, ...blockData }]; when
    the member is there, the spread writes it back after the default, and the
    other branch only reorders the members: the record keeps its name. *)
Definition with_default_name (id : string) (b : CodeBlock) : CodeBlock :=
  match b_name b with
  | None =>
      {| b_name := Some id; b_path := b_path b;
         b_start_line := b_start_line b; b_end_line := b_end_line b;
         b_x := b_x b; b_y := b_y b; b_w := b_w b; b_h := b_h b |}
  | Some _ => b
  end.

Definition with_default_names (cm : gmap string CodeBlock)
  : gmap string CodeBlock :=
  map_imap (λ id b, Some (with_default_name id b)) cm.

(** [loadCodeBlocks()]: every block element is rebuilt from the block record
    ([createCodeBlock] styles it with the record's [x], [y], [w], [h]); a
    selected block that no longer exists is deselected.  The redraw of the
    arrows and of the canvas does not touch the variables of the model. *)
Definition loadCodeBlocks (s : State) : State :=
  let cm := with_default_names (st_codeMap s) in
  let s1 := set_codeBlocks (box_of <$> cm) (set_codeMap cm s) in
  match selectedBlockName s1 with
  | Some n =>
      if truthy (Some n) then
        if bool_decide (is_Some (codeBlocks s1 !! n)) then s1
        else set_selectedBlockName None s1
      else s1
  | None => s1
  end.

(** The loop of [saveData()] on one block element: the measured box is
    written into the record of the same id. *)
Definition read_back (views : gmap string Box) (id : string) (b : CodeBlock)
  : option CodeBlock :=
  match views !! id with
  | Some st => Some (set_box (measure st) b)
  | None => Some b
  end.

Definition snapshot_of (s : State) : CodeMapData :=
  {| page_name := st_page_name s; codeMap := st_codeMap s;
     d_arrows := arrows s |}.

Definition read_back_all (views : gmap string Box)
    (cm : gmap string CodeBlock) : gmap string CodeBlock :=
  map_imap (read_back views) cm.

(** [saveData()].  Writing [codeMapData.codeMap[name].x] for an element
    whose id has no record raises a [TypeError]. *)
Definition saveData (s : State) : option State :=
  if bool_decide (dom (codeBlocks s) ⊆ dom (st_codeMap s)) then
    let s1 := set_codeMap (read_back_all (codeBlocks s) (st_codeMap s)) s in
    Some (set_saved (saved s1 ++ [snapshot_of s1]) s1)
  else None.

(** ** The history engine *)

Module History.

Definition snapshotState (s : State) : CodeMapData :=
  {| page_name := st_page_name s;
     codeMap := deepClone (st_codeMap s);
     d_arrows := deepClone (arrows s) |}.

(** [l.slice(0, e)]: a negative end counts from the end of the array. *)
Definition slice0 {A} (e : Z) (l : list A) : list A :=
  if e <? 0 then take (Z.to_nat (Z.of_nat (length l) + e)) l
  else take (Z.to_nat e) l.

Definition recordSnapshot (s : State) : State :=
  let s1 :=
    if historyIndex s <? Z.of_nat (length (history s)) - 1
    then set_history (slice0 (historyIndex s + 1) (history s)) s
    else s in
  let s2 := set_history (history s1 ++ [snapshotState s1]) s1 in
  set_historyIndex (Z.of_nat (length (history s2)) - 1) s2.

Definition canUndo (s : State) : bool := 0 <? historyIndex s.

Definition canRedo (s : State) : bool :=
  (0 <=? historyIndex s) && (historyIndex s <? Z.of_nat (length (history s)) - 1).

Definition applySnapshot (state : CodeMapData) (s : State) : option State :=
  let s1 := set_isApplyingHistory true s in
  let s2 := set_codeMap (deepClone (codeMap state))
              (set_page_name (page_name state) s1) in
  let s3 := set_arrows (deepClone (d_arrows state)) s2 in
  s4 ← saveData (loadCodeBlocks s3);
  Some (set_isApplyingHistory false s4).

(** [history[i]]: [undefined] outside the array, and cloning [undefined]
    raises. *)
Definition history_at (s : State) (i : Z) : option CodeMapData :=
  if i <? 0 then None else history s !! Z.to_nat i.

Definition undo (s : State) : option State :=
  if canUndo s then
    let s1 := set_historyIndex (historyIndex s - 1) s in
    state ← history_at s1 (historyIndex s1);
    applySnapshot state s1
  else Some s.

Definition redo (s : State) : option State :=
  if canRedo s then
    let s1 := set_historyIndex (historyIndex s + 1) s in
    state ← history_at s1 (historyIndex s1);
    applySnapshot state s1
  else Some s.

Definition recordAndSave (s : State) : option State :=
  if isApplyingHistory s then saveData s
  else s1 ← saveData s; Some (recordSnapshot s1).

End History.
Export History.

(** ** The block store *)

Module Blocks.

(** [a.from.block !== blockName && a.to.block !== blockName] *)
Definition keeps (blockName : string) (a : Arrow) : bool :=
  negb (String.eqb (block (a_from a)) blockName)
  && negb (String.eqb (block (a_to a)) blockName).

Definition deleteBlock (blockName : string) (s : State) : option State :=
  match st_codeMap s !! blockName with
  | None => Some s
  | Some _ =>
      let s1 := set_codeMap (delete blockName (st_codeMap s)) s in
      let s2 := set_arrows (filter (λ a, keeps blockName a = true) (arrows s1)) s1 in
      recordAndSave (loadCodeBlocks s2)
  end.

(** [getNumericIds()]: the values of the purely numeric keys, ascending. *)
Definition numeric_value (id : string) : option N :=
  if numericOnly id then parseInt id else None.

Definition getNumericIds (cm : gmap string CodeBlock) : list N :=
  merge_sort N.le (omap numeric_value (map_to_list cm).*1).

(** Rewriting of the block id of one arrow end. *)
Definition set_block (id : string) (p : Anchor) : Anchor :=
  {| block := id; a_x := a_x p; a_y := a_y p |}.

Definition map_ends (f : Anchor → Anchor) (a : Arrow) : Arrow :=
  {| a_from := f (a_from a); a_to := f (a_to a);
     a_color := a_color a; a_alpha := a_alpha a |}.

(** [if (p.block === old) p.block = new] *)
Definition rename_end (old new : string) (p : Anchor) : Anchor :=
  if String.eqb (block p) old then set_block new p else p.

(** The names of the members of [Object.prototype].  [idMapping] is a plain
    object: for a name that is not one of its own keys, [idMapping[name]] is
    the member of [Object.prototype] of that name, if there is one: a
    function, or the prototype itself for [__proto__], and truthy. *)
Definition object_prototype : list string :=
  [ "constructor"; "__defineGetter__"; "__defineSetter__"; "hasOwnProperty";
    "__lookupGetter__"; "__lookupSetter__"; "isPrototypeOf";
    "propertyIsEnumerable"; "toString"; "valueOf"; "__proto__";
    "toLocaleString" ]%string.

(** [if (idMapping[p.block]) p.block = idMapping[p.block]].  When the lookup
    finds a member of [Object.prototype], the script stores that member as
    the block of the end.  It is not a string, the model has no anchor for
    it: the result is [None]. *)
Definition remap_end (idMapping : gmap string string) (p : Anchor)
  : option Anchor :=
  match idMapping !! block p with
  | Some new => Some (if truthy (Some new) then set_block new p else p)
  | None => if bool_decide (block p ∈ object_prototype) then None else Some p
  end.

Definition remap_arrow (idMapping : gmap string string) (a : Arrow)
  : option Arrow :=
  f ← remap_end idMapping (a_from a);
  t ← remap_end idMapping (a_to a);
  Some {| a_from := f; a_to := t; a_color := a_color a; a_alpha := a_alpha a |}.

(** One planned move of [moveBlockToTop]. *)
Record Move := mkMove { m_from : string; m_to : string; m_data : CodeBlock }.

(** The [largerIds.forEach((id, index) => ...)] loop that plans the moves of
    the larger ids; cloning a missing record raises. *)
Fixpoint plan_larger (cm : gmap string CodeBlock) (currentId : N)
    (index : N) (largerIds : list N) : option (list Move) :=
  match largerIds with
  | [] => Some []
  | id :: rest =>
      data ← cm !! StringN id;
      tl ← plan_larger cm currentId (index + 1)%N rest;
      Some (mkMove (StringN id) (StringN (addD currentId index)) (deepClone data) :: tl)
  end.

Definition apply_deletes (moves : list Move) (cm : gmap string CodeBlock)
  : gmap string CodeBlock :=
  foldl (λ m mv, delete (m_from mv) m) cm moves.

Definition apply_inserts (moves : list Move) (cm : gmap string CodeBlock)
  : gmap string CodeBlock :=
  foldl (λ m mv, <[m_to mv := m_data mv]> m) cm moves.

Definition id_mapping (moves : list Move) : gmap string string :=
  foldl (λ m mv, <[m_from mv := m_to mv]> m) ∅ moves.

(** The moves planned by [moveBlockToTop(blockId)], when it gets that far:
    [None] inside is a raised exception, [None] outside an early return. *)
Definition plan_top (cm : gmap string CodeBlock) (blockId : string)
  : option (option (list Move)) :=
  if numericOnly blockId then
    match parseInt blockId with
    | None => None
    | Some currentId =>
        let numericIds := getNumericIds cm in
        match list.last numericIds with
        | None =>
            (* [maxId] is [undefined]: the comparison is false, and the
               record of [blockId], a numeric id, is missing *)
            Some None
        | Some maxId =>
            if (maxId <=? currentId)%N then None
            else
              let largerIds := filter (λ id, (currentId < id)%N) numericIds in
              Some (data ← cm !! blockId;
                    tl ← plan_larger cm currentId 0 largerIds;
                    Some (mkMove blockId (StringN maxId) (deepClone data) :: tl))
        end
    end
  else None.

(** [moveBlockToTop(blockId)].  [None]: cloning a missing record raised,
    saving raised, or an arrow end was given a member of [Object.prototype]
    as its block ([remap_end]). *)
Definition moveBlockToTop (blockId : string) (s : State) : option State :=
  match plan_top (st_codeMap s) blockId with
  | None => Some s
  | Some plan =>
      moves ← plan;
      let idMapping := id_mapping moves in
      ars ← mapM (remap_arrow idMapping) (arrows s);
      let s1 := set_arrows ars s in
      let s2 := set_codeMap (apply_deletes moves (st_codeMap s1)) s1 in
      let s3 := set_codeMap (apply_inserts moves (st_codeMap s2)) s2 in
      recordAndSave (loadCodeBlocks s3)
  end.

(** Inside [moveBlockToBottom] a key can be bound to [undefined] for a
    while: the working map has optional values, and [loadCodeBlocks] raises
    on an entry that is still [undefined] when it runs. *)
Definition read (cm : gmap string (option CodeBlock)) (k : string)
  : option CodeBlock :=
  mjoin (cm !! k).

(** One round of [smallerIds.reverse().forEach(...)]. *)
Definition shift_up (acc : gmap string (option CodeBlock) * list Arrow) (id : N)
  : gmap string (option CodeBlock) * list Arrow :=
  let idStr := StringN id in
  let data := read acc.1 idStr in
  let newIdStr := StringN (addD id 1) in
  (delete idStr (<[newIdStr := data]> acc.1),
   map_ends (rename_end idStr newIdStr) <$> acc.2).

Definition defined_map (cm : gmap string (option CodeBlock))
  : option (gmap string CodeBlock) :=
  if bool_decide (map_Forall (λ _ v, is_Some v) cm)
  then Some (omap id cm) else None.

Definition moveBlockToBottom (blockId : string) (s : State) : option State :=
  if numericOnly blockId then
    match parseInt blockId with
    | None => Some s
    | Some currentId =>
        let numericIds := getNumericIds (st_codeMap s) in
        let cm0 : gmap string (option CodeBlock) := Some <$> st_codeMap s in
        match head numericIds with
        | None =>
            (* [minId] is [undefined]: the temporary id is ["NaN"], the new
               id ["undefined"], bound to the missing record of [blockId] *)
            None
        | Some minId =>
            if (currentId <=? minId)%N then Some s
            else
              let smallerIds := filter (λ id, (id < currentId)%N) numericIds in
              let tempId := StringN (addD minId 1000) in
              let blockData := read cm0 blockId in
              let cm1 := delete blockId (<[tempId := blockData]> cm0) in
              let ar1 := map_ends (rename_end blockId tempId) <$> arrows s in
              let '(cm2, ar2) := foldl shift_up (cm1, ar1) (reverse smallerIds) in
              let newMinId := StringN minId in
              let cm3 := delete tempId (<[newMinId := read cm2 tempId]> cm2) in
              let ar3 := map_ends (rename_end tempId newMinId) <$> ar2 in
              cm ← defined_map cm3;
              recordAndSave (loadCodeBlocks (set_codeMap cm (set_arrows ar3 s)))
        end
    end
  else Some s.

(** The canvas as a click sees it: its client rectangle and its scroll. *)
Record Canvas := mkCanvas {
  canvas_left : Z; canvas_top : Z;
  canvas_scrollLeft : Z; canvas_scrollTop : Z
}.

(** The clipboard payload of a copied block; [w] and [h] may be missing. *)
Record Payload := mkPayload {
  p_path : string; p_start_line : Z; p_end_line : Z;
  p_w : option Z; p_h : option Z
}.

(** [v || d] on an optional number: [undefined] and [0] are falsy. *)
Definition or_num (v : option Z) (d : Z) : Z :=
  match v with
  | Some n => if n =? 0 then d else n
  | None => d
  end.

Definition createPastedBlockAt (canvas : Canvas) (xClient yClient : Z)
    (payload : Payload) (s : State) : option State :=
  let x := xClient - canvas_left canvas + canvas_scrollLeft canvas in
  let y := yClient - canvas_top canvas + canvas_scrollTop canvas in
  name ← getNextNumericNameForPath (st_codeMap s) (p_path payload);
  let blk :=
    {| b_name := Some name; b_path := p_path payload;
       b_start_line := p_start_line payload; b_end_line := p_end_line payload;
       b_x := Z.max 0 x; b_y := Z.max 0 y;
       b_w := or_num (p_w payload) 400; b_h := or_num (p_h payload) 300 |} in
  recordAndSave (loadCodeBlocks (set_codeMap (<[name := blk]> (st_codeMap s)) s)).

(** The [codemapfree.addToMap] command on the loaded file [data], for the
    selected range of [filePath]; the result is the file it saves. *)
Definition addToMap (data : CodeMapData) (filePath : string)
    (startLine endLine : Z) : option (string * CodeMapData) :=
  blockName ← addToMap_blockName data;
  let n := Z.of_nat (size (codeMap data)) in
  let newBlock :=
    {| b_name := Some blockName; b_path := filePath;
       b_start_line := startLine; b_end_line := endLine;
       b_x := n * 50 + 50; b_y := n * 50 + 50; b_w := 400; b_h := 300 |} in
  Some (blockName,
        {| page_name := page_name data;
           codeMap := <[blockName := newBlock]> (codeMap data);
           d_arrows := d_arrows data |}).

End Blocks.
Export Blocks.

(** ** Anchors *)

Module Anchors.

(** What the script reads of a [.code-block-content] element: the left and
    top of its client rectangle, and its scroll offsets. *)
Record ContentEl := mkContent {
  rect_left : Z; rect_top : Z;
  scrollLeft : Z; scrollTop : Z
}.

(** [v || 0] on a number. *)
Definition or_zero (v : Z) : Z := if v =? 0 then 0 else v.

(** [getOffsetsFromClick(lineContentEl, clientX, clientY)] for the
    controller, on whole pixels; [blockContent] is the content element of
    the block around the clicked line, if any.  [Binary64] has the function
    on doubles. *)
Definition getOffsetsFromClick (blockContent : option ContentEl)
    (clientX clientY : Z) : option (Z * Z) :=
  match blockContent with
  | None => None
  | Some c =>
      Some ((clientX - rect_left c) + scrollLeft c,
            (clientY - rect_top c) + scrollTop c)
  end.

End Anchors.
Export Anchors.

(** ** The anchor functions on doubles *)

Module Binary64.
Import PrimFloat SpecFloat FloatOps.


(** What the script reads of the canvas and of a content element: the
    left and top of the client rectangle and the scroll offsets, doubles
    all. *)
Record Canvas := mkCanvas {
  canvas_left : float; canvas_top : float;
  canvas_scrollLeft : float; canvas_scrollTop : float
}.

Record ContentEl := mkContent {
  rect_left : float; rect_top : float;
  scrollLeft : float; scrollTop : float
}.

(** [v || 0] on a number: [0], [-0] and [NaN] are falsy. *)
Definition or_zero (v : float) : float :=
  if is_zero v || is_nan v then 0%float else v.


(** [getOffsetsFromClick(lineContentEl, clientX, clientY)]; [blockContent] is
    the content element of the block around the clicked line, if any. *)
Definition getOffsetsFromClick (blockContent : option ContentEl)
    (clientX clientY : float) : option (float * float) :=
  match blockContent with
  | None => None
  | Some c =>
      Some (((clientX - rect_left c) + scrollLeft c)%float,
            ((clientY - rect_top c) + scrollTop c)%float)
  end.











End Binary64.

(** ** The interaction controller *)

Module Controller.

(** A click on a [.code-line-content] element: the id of the block around
    it ([dataset.blockName], if there is one), the content element of that
    block and the client point. *)
Record LineClick := mkClick {
  lc_block : option string;
  lc_content : option ContentEl;
  lc_clientX : Z;
  lc_clientY : Z
}.

Definition set_color (c : option string) (a : Arrow) : Arrow :=
  {| a_from := a_from a; a_to := a_to a; a_color := c; a_alpha := a_alpha a |}.

Definition in_range (index : Z) (s : State) : bool :=
  negb ((index <? 0) || (Z.of_nat (length (arrows s)) <=? index)).

(** [selectArrow(index)] *)
Definition selectArrow (index : Z) (s : State) : State :=
  if in_range index s then
    let s1 := set_editingArrowEndpoint None (set_selectedArrowIndex index s) in
    match arrows s1 !! Z.to_nat index with
    | Some a =>
        let s2 :=
          if truthy (a_color a) then
            set_currentArrowColor (default ""%string (a_color a)) s1
          else
            set_arrows
              (<[Z.to_nat index := set_color (Some (currentArrowColor s1)) a]>
                 (arrows s1)) s1 in
        let alpha := match a_alpha a with Some v => v | None => 1%Qc end in
        set_currentArrowAlpha alpha s2
    | None => s1
    end
  else s.

(** [clearArrowSelection()] *)
Definition clearArrowSelection (s : State) : State :=
  set_editingArrowEndpoint None (set_selectedArrowIndex (-1) s).

(** [setSelectedBlock(name)]: [name || null]. *)
Definition setSelectedBlock (name : option string) (s : State) : State :=
  set_selectedBlockName (if truthy name then name else None) s.

(** [handleLineContentClick(lineContentEl, clientX, clientY)] *)
Definition handleLineContentClick (click : LineClick) (s : State)
  : option State :=
  match lc_block click with
  | None => Some s
  | Some blockName =>
      if truthy (Some blockName) then
        match getOffsetsFromClick (lc_content click)
                (lc_clientX click) (lc_clientY click) with
        | None => Some s
        | Some (xOffset, yOffset) =>
            match arrowStart s with
            | None =>
                Some (set_arrowStart (Some (mkAnchor blockName xOffset yOffset)) s)
            | Some start =>
                if String.eqb (block start) blockName
                   && (or_zero (a_x start) =? xOffset)
                   && (or_zero (a_y start) =? yOffset)
                then Some s
                else
                  let arrow :=
                    {| a_from := mkAnchor (block start) (a_x start) (a_y start);
                       a_to := mkAnchor blockName xOffset yOffset;
                       a_color := Some (currentArrowColor s);
                       a_alpha := Some (currentArrowAlpha s) |} in
                  let s1 := set_arrows (arrows s ++ [arrow]) s in
                  let newIndex := Z.of_nat (length (arrows s1)) - 1 in
                  let s2 := selectArrow newIndex s1 in
                  s3 ← recordAndSave s2;
                  Some (set_arrowStart None s3)
            end
        end
      else Some s
  end.

(** The click handler of the arrow tool button. *)
Definition arrowToolClick (s : State) : State :=
  let s1 := set_arrowMode (negb (arrowMode s)) s in
  if arrowMode s1 then s1
  else match arrowStart s1 with
       | Some _ => set_arrowStart None s1
       | None => s1
       end.

(** The [Escape] branch of the second [keydown] handler. *)
Definition escapeKey (s : State) : State :=
  let s1 :=
    if bool_decide (is_Some (editingArrowEndpoint s))
       || negb (selectedArrowIndex s =? -1)
    then clearArrowSelection s else s in
  if arrowMode s1 then
    let s2 := set_arrowMode false s1 in
    let s3 := match arrowStart s2 with
              | Some _ => set_arrowStart None s2
              | None => s2
              end in
    set_editingArrowEndpoint None s3
  else s1.

Definition set_end (endpoint : Endpoint) (p : Anchor) (a : Arrow) : Arrow :=
  match endpoint with
  | EFrom => {| a_from := p; a_to := a_to a;
                a_color := a_color a; a_alpha := a_alpha a |}
  | ETo => {| a_from := a_from a; a_to := p;
              a_color := a_color a; a_alpha := a_alpha a |}
  end.

(** [updateArrowEndpointTo(index, endpoint, block, xOffset, yOffset)] *)
Definition updateArrowEndpointTo (index : Z) (endpoint : Endpoint)
    (blk : string) (xOffset yOffset : Z) (s : State) : option State :=
  if in_range index s then
    match arrows s !! Z.to_nat index with
    | Some a =>
        recordAndSave
          (set_arrows
             (<[Z.to_nat index := set_end endpoint (mkAnchor blk xOffset yOffset) a]>
                (arrows s)) s)
    | None => Some s
    end
  else Some s.

(** [beginEditArrowEndpoint(index, endpoint)] *)
Definition beginEditArrowEndpoint (index : Z) (endpoint : Endpoint) (s : State)
  : State :=
  if in_range index s then
    set_editingArrowEndpoint (Some (index, endpoint))
      (set_selectedArrowIndex index s)
  else s.

(** The [click] handler of the canvas; [target] is the clicked
    [.code-line-content] element, if the click hit one. *)
Definition canvasClick (target : option LineClick) (s : State) : option State :=
  match editingArrowEndpoint s with
  | Some (index, endpoint) =>
      match target with
      | Some click =>
          match lc_block click with
          | None => Some s
          | Some blockName =>
              if truthy (Some blockName) then
                match getOffsetsFromClick (lc_content click)
                        (lc_clientX click) (lc_clientY click) with
                | None => Some s
                | Some (xOffset, yOffset) =>
                    updateArrowEndpointTo index endpoint blockName xOffset yOffset
                      (set_editingArrowEndpoint None s)
                end
              else Some s
          end
      | None => Some (set_editingArrowEndpoint None s)
      end
  | None =>
      if negb (arrowMode s) then
        let s1 := if negb (selectedArrowIndex s =? -1)
                  then clearArrowSelection s else s in
        Some (if truthy (selectedBlockName s1)
              then setSelectedBlock None s1 else s1)
      else
        match target with
        | Some click => handleLineContentClick click s
        | None => Some s
        end
  end.

(** [deleteSelectedArrow()]: [arrows.splice(selectedArrowIndex, 1)]. *)
Definition deleteSelectedArrow (s : State) : option State :=
  if in_range (selectedArrowIndex s) s then
    let s1 := set_arrows (delete (Z.to_nat (selectedArrowIndex s)) (arrows s)) s in
    recordAndSave (clearArrowSelection s1)
  else Some s.

(** [deleteSelectedBlock()] *)
Definition deleteSelectedBlock (s : State) : option State :=
  match selectedBlockName s with
  | Some bn =>
      if truthy (Some bn) then deleteBlock bn (setSelectedBlock None s)
      else Some s
  | None => Some s
  end.

(** The [Delete] / [Backspace] branch of the first [keydown] handler. *)
Definition deleteKey (s : State) : option State :=
  let s1 := match editingArrowEndpoint s with
            | Some _ => set_editingArrowEndpoint None s
            | None => s
            end in
  if negb (selectedArrowIndex s1 =? -1) then deleteSelectedArrow s1
  else if truthy (selectedBlockName s1) then deleteSelectedBlock s1
  else Some s1.

(** The click handler of a block element. *)
Definition blockClick (name : string) (s : State) : State :=
  if arrowMode s || bool_decide (is_Some (editingArrowEndpoint s)) then s
  else
    let s1 := if negb (selectedArrowIndex s =? -1)
              then clearArrowSelection s else s in
    setSelectedBlock (Some name) s1.

(** The [blur] handler of the page title: [text] is its trimmed content. *)
Definition pageNameBlur (text : string) (s : State) : option State :=
  recordAndSave
    (set_page_name (if String.eqb text "" then "CodeMapFree"%string else text) s).

(** The events of the modelled fragment and their handlers. *)
Inductive Event :=
  | ArrowToolClick
  | EscapeKey
  | CanvasClick (target : option LineClick)
  | ArrowClick (idx : Z)
  | EndpointClick (idx : Z) (endpoint : Endpoint)
  | BlockClick (name : string)
  | DeleteKey
  | UndoKey
  | RedoKey
  | MenuDelete (blockName : string)
  | MenuToTop (blockName : string)
  | MenuToBottom (blockName : string)
  | MenuPaste (canvas : Canvas) (xClient yClient : Z) (payload : Payload)
  | PageNameBlur (text : string).

Definition handle (e : Event) (s : State) : option State :=
  match e with
  | ArrowToolClick => Some (arrowToolClick s)
  | EscapeKey => Some (escapeKey s)
  | CanvasClick target => canvasClick target s
  | ArrowClick idx => Some (selectArrow idx s)
  | EndpointClick idx endpoint => Some (beginEditArrowEndpoint idx endpoint s)
  | BlockClick name => Some (blockClick name s)
  | DeleteKey => deleteKey s
  | UndoKey => undo s
  | RedoKey => redo s
  | MenuDelete blockName => deleteBlock blockName s
  | MenuToTop blockName => moveBlockToTop blockName s
  | MenuToBottom blockName => moveBlockToBottom blockName s
  | MenuPaste canvas xClient yClient payload =>
      createPastedBlockAt canvas xClient yClient payload s
  | PageNameBlur text => pageNameBlur text s
  end.

(** The script at start-up on the document [data] embedded in the page:
    [loadCodeBlocks(); recordSnapshot();]. *)
Definition init (data : CodeMapData) : State :=
  recordSnapshot
    (loadCodeBlocks
       {| st_page_name := page_name data; st_codeMap := codeMap data;
          arrows := d_arrows data; codeBlocks := ∅;
          history := []; historyIndex := -1; isApplyingHistory := false;
          arrowMode := false; arrowStart := None;
          currentArrowColor := "#007acc"; currentArrowAlpha := Q2Qc (QArith_base.Qmake 45 100);
          selectedArrowIndex := -1; editingArrowEndpoint := None;
          selectedBlockName := None; saved := [] |}).

End Controller.
Export Controller.

(** ** The arrow gesture of the line and column iteration

    [src/extension.ts] is an earlier iteration of the same script, in which
    an arrow end is a line and a column of a block.  Its click handler is
    embedded here on the three variables it assigns, for a call of
    [recordAndSave()] that returns (saving and recording write none of the
    three). *)

Module LineColumn.

Record LAnchor := mkLAnchor { l_block : string; l_line : Z; l_col : Z }.

Record LArrow := mkLArrow { l_from : LAnchor; l_to : LAnchor; l_color : string }.

Record Mode := mkMode {
  m_arrowMode : bool;
  m_arrowStart : option LAnchor;
  m_arrows : list LArrow
}.

(** [v || 1] on a column. *)
Definition or_one (v : Z) : Z := if v =? 0 then 1 else v.

(** [handleLineContentClick(lineContentEl, clientX)]: [blockName] and
    [lineInfo] are what the element gives ([null] is [None]), [col] the
    column computed from the click. *)
Definition handleLineContentClick (blockName : option string)
    (lineInfo : option Z) (col : Z) (currentArrowColor : string) (m : Mode)
  : Mode :=
  match blockName, lineInfo with
  | Some blockName, Some line =>
      if truthy (Some blockName) then
        match m_arrowStart m with
        | None =>
            mkMode (m_arrowMode m) (Some (mkLAnchor blockName line col))
              (m_arrows m)
        | Some start =>
            if String.eqb (l_block start) blockName
               && (l_line start =? line) && (or_one (l_col start) =? col)
            then m
            else
              let arrow :=
                {| l_from := mkLAnchor (l_block start) (l_line start)
                               (or_one (l_col start));
                   l_to := mkLAnchor blockName line col;
                   l_color := currentArrowColor |} in
              (* "连接完成后自动退出箭头模式" *)
              mkMode false None (m_arrows m ++ [arrow])
        end
      else m
  | _, _ => m
  end.

End LineColumn.

(** * Specification vocabulary and sample documents *)

(** The reading of "the smallest positive integer, as a numeric string, that
    no block uses as its id". *)
Definition smallest_free (m : gmap string CodeBlock) (id : string) : Prop :=
  ∃ n : N, id = StringN n ∧ (0 < n)%N ∧ m !! id = None
           ∧ ∀ n' : N, (0 < n')%N → (n' < n)%N → is_Some (m !! StringN n').

(** A document whose block ids are ["2"] and ["3"]. *)
Definition sample_block (p : string) (l1 l2 : Z) : CodeBlock :=
  {| b_name := None; b_path := p; b_start_line := l1; b_end_line := l2;
     b_x := 50; b_y := 50; b_w := 400; b_h := 300 |}.

Definition ids_2_3 : gmap string CodeBlock :=
  <["2" := sample_block "a.py" 10 20]> (<["3" := sample_block "a.py" 30 40]> ∅).

(** A document with the block id [2^53], and one with the block id
    [2^53 + 1], which [parseInt] reads as [2^53]. *)
Definition ids_2_53 : gmap string CodeBlock :=
  <["9007199254740992" := sample_block "a.py" 10 20]> ∅.

Definition ids_2_53_1 : gmap string CodeBlock :=
  <["9007199254740993" := sample_block "a.py" 10 20]> ∅.

(** The end-to-end scenario of the specification before the deletion: the
    blocks ["1"] and ["2"] of [a.py], and an arrow from one to the other. *)
Definition scenario_doc : CodeMapData :=
  {| page_name := "CodeMapFree";
     codeMap := <["1" := sample_block "a.py" 10 20]>
                  (<["2" := sample_block "a.py" 30 40]> ∅);
     d_arrows := [ {| a_from := mkAnchor "1" 5 10; a_to := mkAnchor "2" 3 4;
                      a_color := Some "#007acc"%string;
                      a_alpha := Some (Q2Qc (QArith_base.Qmake 45 100)) |} ] |}.



Definition sample_content : ContentEl :=
  {| rect_left := 52; rect_top := 122; scrollLeft := 14; scrollTop := 260 |}.

(** A click at a client point on a line of block [b], whose content element
    is [sample_content]. *)
Definition click_on (b : string) (clientX clientY : Z) : LineClick :=
  {| lc_block := Some b; lc_content := Some sample_content;
     lc_clientX := clientX; lc_clientY := clientY |}.

(** The scenario in the middle of the arrow gesture: the arrow tool was
    clicked, then a line of block ["1"]. *)
Definition drawing_state : State :=
  default (init scenario_doc)
    (handleLineContentClick (click_on "1" 300 200)
       (arrowToolClick (init scenario_doc))).

(** A document with an arrow whose [color] member is the empty string. *)
Definition empty_color_doc : CodeMapData :=
  {| page_name := "CodeMapFree";
     codeMap := codeMap scenario_doc;
     d_arrows := [ {| a_from := mkAnchor "1" 5 10; a_to := mkAnchor "2" 3 4;
                      a_color := Some ""%string; a_alpha := None |} ] |}.

(** What a block record is after [loadCodeBlocks] and [saveData]. *)
Definition settle (id : string) (b : CodeBlock) : CodeBlock :=
  set_box (measure (box_of (with_default_name id b))) (with_default_name id b).

(** Every element on the page belongs to a record: [saveData] can run. *)
Definition in_sync (s : State) : Prop :=
  dom (codeBlocks s) ⊆ dom (st_codeMap s).

(** The history between two event handlers: no snapshot is being applied,
    and the cursor is on an entry ([-1] before the first one). *)
Definition idle (s : State) : Prop :=
  isApplyingHistory s = false
  ∧ -1 ≤ historyIndex s < Z.of_nat (length (history s)).


(** What [deleteBlock] does before its [recordAndSave()]. *)
Definition delete_edit (blockName : string) (s : State) : State :=
  loadCodeBlocks
    (set_arrows (filter (λ a, keeps blockName a = true) (arrows s))
       (set_codeMap (delete blockName (st_codeMap s)) s)).

(** Every purely numeric key is what [String] prints for the number that
    [parseInt] reads from it, as the allocator writes them: no leading
    zero, and no digits that are lost in a double.  Two keys then never
    stand for the same number. *)
Definition canonical_ids (cm : gmap string CodeBlock) : Prop :=
  ∀ k n, is_Some (cm !! k) → numeric_value k = Some n → StringN n = k.





(** A document in which the temporary id of [moveBlockToBottom] is taken:
    the least id is ["1"], and there is a block ["1001"]. *)
Definition ids_1_5_1001 : CodeMapData :=
  {| page_name := "CodeMapFree";
     codeMap := <["1" := sample_block "one.py" 1 5]>
                  (<["5" := sample_block "five.py" 1 5]>
                     (<["1001" := sample_block "far.py" 1 5]> ∅));
     d_arrows := [ {| a_from := mkAnchor "1" 0 0; a_to := mkAnchor "1001" 8 9;
                      a_color := None; a_alpha := None |} ] |}.

(** Every record has its element on the page and a display name: the state
    [loadCodeBlocks] leaves, and that drags, resizes and arrow edits keep. *)
Definition rendered (s : State) : Prop :=
  dom (codeBlocks s) = dom (st_codeMap s)
  ∧ map_Forall (λ _ b, is_Some (b_name b)) (st_codeMap s).

(** A document that rendering and saving give back as it is. *)
Definition stable_doc (d : CodeMapData) : Prop :=
  map_Forall (λ id b, settle id b = b) (codeMap d).

(** The part of a recorded mutation that comes before its [recordAndSave()]:
    any change of the state that leaves the history variables alone and the
    page rendered.  Each handler of the script that ends in
    [recordAndSave()] is such a change followed by the call. *)
Record recorded_edit (e : State → State) : Prop := {
  edit_history : ∀ s, history (e s) = history s
                      ∧ historyIndex (e s) = historyIndex s
                      ∧ isApplyingHistory (e s) = isApplyingHistory s;
  edit_rendered : ∀ s, rendered s → rendered (e s)
}.



(** The invariant of the history between two handlers: the cursor is on an
    entry, that entry is the current document, and every entry is stable. *)
Definition history_inv (s : State) : Prop :=
  isApplyingHistory s = false
  ∧ 0 ≤ historyIndex s < Z.of_nat (length (history s))
  ∧ rendered s
  ∧ Forall stable_doc (history s)
  ∧ history s !! Z.to_nat (historyIndex s) = Some (snapshot_of s).

(** * Proof automation *)

(** Projections of a state through the setters compute. *)
Ltac proj := cbn [st_page_name st_codeMap arrows codeBlocks history historyIndex
                  isApplyingHistory arrowMode arrowStart currentArrowColor
                  currentArrowAlpha selectedArrowIndex editingArrowEndpoint
                  selectedBlockName saved
                  set_page_name set_codeMap set_arrows set_codeBlocks set_history
                  set_historyIndex set_isApplyingHistory set_arrowMode
                  set_arrowStart set_currentArrowColor set_currentArrowAlpha
                  set_selectedArrowIndex set_editingArrowEndpoint
                  set_selectedBlockName set_saved] in *.


(** * Further functions of the script *)

(** ** Exchanging the ids of two blocks *)

Module Layers.

(** The arrow loop of [swapBlockIds]: an end on [id1] goes to [id2], else an
    end on [id2] goes to [id1]. *)
Definition swap_end (id1 id2 : string) (p : Anchor) : Anchor :=
  if String.eqb (block p) id1 then set_block id2 p
  else if String.eqb (block p) id2 then set_block id1 p
  else p.

(** [swapBlockIds(id1, id2)] *)
Definition swapBlockIds (id1 id2 : string) (s : State) : option State :=
  match st_codeMap s !! id1, st_codeMap s !! id2 with
  | Some block1, Some block2 =>
      if String.eqb id1 id2 then Some s
      else
        let s1 := set_codeMap (<[id2 := block1]> (<[id1 := block2]> (st_codeMap s))) s in
        let s2 := set_arrows (map_ends (swap_end id1 id2) <$> arrows s1) s1 in
        recordAndSave (loadCodeBlocks s2)
  | _, _ => Some s
  end.

(** [moveBlockUp(blockId)]: "和id比自己大的最小对象交换id". *)
Definition moveBlockUp (blockId : string) (s : State) : option State :=
  if numericOnly blockId then
    match parseInt blockId with
    | None => Some s
    | Some currentId =>
        let numericIds := getNumericIds (st_codeMap s) in
        match List.find (λ id, (currentId <? id)%N) numericIds with
        | Some nextId => swapBlockIds blockId (StringN nextId) s
        | None => Some s
        end
    end
  else Some s.

(** [moveBlockDown(blockId)]: "和id比自己小的最大对象交换id". *)
Definition moveBlockDown (blockId : string) (s : State) : option State :=
  if numericOnly blockId then
    match parseInt blockId with
    | None => Some s
    | Some currentId =>
        let numericIds := getNumericIds (st_codeMap s) in
        match list.last (filter (λ id, (id < currentId)%N) numericIds) with
        | Some prevId => swapBlockIds blockId (StringN prevId) s
        | None => Some s
        end
    end
  else Some s.

End Layers.
Export Layers.

(** A document with the blocks ["1"], ["2"], ["5"], all named and at least
    [MIN_W] by [MIN_H], and two arrows. *)
Definition named_block (n p : string) (x y : Z) : CodeBlock :=
  {| b_name := Some n; b_path := p; b_start_line := 1; b_end_line := 9;
     b_x := x; b_y := y; b_w := 400; b_h := 300 |}.

Definition layers_doc : CodeMapData :=
  {| page_name := "CodeMapFree";
     codeMap := <["1" := named_block "1" "one.py" 50 50]>
                  (<["2" := named_block "two" "two.py" 100 100]>
                     (<["5" := named_block "5" "five.py" 150 150]> ∅));
     d_arrows := [ {| a_from := mkAnchor "1" 5 10; a_to := mkAnchor "2" 3 4;
                      a_color := Some "#007acc"%string; a_alpha := None |};
                   {| a_from := mkAnchor "2" 0 0; a_to := mkAnchor "5" 8 9;
                      a_color := Some "#007acc"%string; a_alpha := None |} ] |}.

(** ** Renaming a block *)

Module Rename.

Definition set_name (n : option string) (b : CodeBlock) : CodeBlock :=
  {| b_name := n; b_path := b_path b;
     b_start_line := b_start_line b; b_end_line := b_end_line b;
     b_x := b_x b; b_y := b_y b; b_w := b_w b; b_h := b_h b |}.

(** [renameBlock(blockId, newDisplayName)]: "只修改name属性，不修改codeMap的key".
    A block that has no element on the page is left alone; taking the record
    of an element apart raises when the record is missing. *)
Definition renameBlock (blockId newDisplayName : string) (s : State)
  : option State :=
  match codeBlocks s !! blockId with
  | None => Some s
  | Some _ =>
      oldBlockData ← st_codeMap s !! blockId;
      recordAndSave
        (set_codeMap
           (<[blockId := set_name (Some newDisplayName) oldBlockData]> (st_codeMap s))
           s)
  end.

End Rename.
Export Rename.

(** ** Resizing a block *)

Module Resize.

(** [resizeStart]: the pointer and the rectangle of the block, in canvas
    coordinates, when the handle was pressed. *)
Record ResizeStart := mkResizeStart {
  rs_mouseX : Z; rs_mouseY : Z;
  rs_left : Z; rs_top : Z; rs_width : Z; rs_height : Z
}.


(** [resizeDir.includes(d)] *)
Definition includes (d resizeDir : string) : bool :=
  match String.index 0 d resizeDir with
  | Some _ => true
  | None => false
  end.

(** The box the [mousemove] handler gives the block while it is resized. *)
Definition resizeBox (resizeDir : string) (resizeStart : ResizeStart)
    (clientX clientY : Z) : Box :=
  let dx := clientX - rs_mouseX resizeStart in
  let dy := clientY - rs_mouseY resizeStart in
  let newLeft := rs_left resizeStart in
  let newTop := rs_top resizeStart in
  let newW := rs_width resizeStart in
  let newH := rs_height resizeStart in
  let hasN := includes "n" resizeDir in
  let hasS := includes "s" resizeDir in
  let hasW := includes "w" resizeDir in
  let hasE := includes "e" resizeDir in
  let newW := if hasE then rs_width resizeStart + dx else newW in
  let newH := if hasS then rs_height resizeStart + dy else newH in
  let '(newW, newLeft) :=
    if hasW then (rs_width resizeStart - dx, rs_left resizeStart + dx)
    else (newW, newLeft) in
  let '(newH, newTop) :=
    if hasN then (rs_height resizeStart - dy, rs_top resizeStart + dy)
    else (newH, newTop) in
  let '(newW, newLeft) :=
    if newW <? MIN_W
    then (MIN_W, if hasW then newLeft - (MIN_W - newW) else newLeft)
    else (newW, newLeft) in
  let '(newH, newTop) :=
    if newH <? MIN_H
    then (MIN_H, if hasN then newTop - (MIN_H - newH) else newTop)
    else (newH, newTop) in
  {| left := Z.max 0 newLeft; top := Z.max 0 newTop;
     width := newW; height := newH |}.



End Resize.
Export Resize.

(** ** What a handler does to the history and to the posted saves *)

(** The state between two handlers, once the script has started: every
    element on the page has its record, no snapshot is being applied, and
    the cursor is on an entry of the history. *)
Definition steady (s : State) : Prop :=
  in_sync s
  ∧ isApplyingHistory s = false
  ∧ 0 ≤ historyIndex s < Z.of_nat (length (history s)).

(** The handler left the history and the posted saves alone. *)
Definition quiet (s s' : State) : Prop :=
  history s' = history s ∧ historyIndex s' = historyIndex s ∧ saved s' = saved s.

(** The handler recorded its result: the entries after the cursor are gone,
    one snapshot of the new document is appended and the cursor is on it,
    and that same document was posted, once. *)
Definition recorded (s s' : State) : Prop :=
  history s' = take (Z.to_nat (historyIndex s + 1)) (history s) ++ [snapshot_of s']
  ∧ historyIndex s' = historyIndex s + 1
  ∧ saved s' = saved s ++ [snapshot_of s'].

(** The handler moved the cursor by [d] in an unchanged history, and posted
    the document it restored. *)
Definition moved (d : Z) (s s' : State) : Prop :=
  history s' = history s
  ∧ historyIndex s' = historyIndex s + d
  ∧ saved s' = saved s ++ [snapshot_of s'].

(** The events of a session, handled in order; an exception ends it. *)
Fixpoint run (es : list Event) (s : State) : option State :=
  match es with
  | [] => Some s
  | e :: es' => s1 ← handle e s; run es' s1
  end.

(** Two states with the same document store and the same log. *)
Definition frame6 (s0 s : State) : Prop :=
  st_codeMap s0 = st_codeMap s ∧ codeBlocks s0 = codeBlocks s
  ∧ history s0 = history s ∧ historyIndex s0 = historyIndex s
  ∧ isApplyingHistory s0 = isApplyingHistory s ∧ saved s0 = saved s.

Definition agree (s0 s : State) : Prop :=
  frame6 s0 s ∧ arrows s0 = arrows s ∧ st_page_name s0 = st_page_name s.

Definition same_log (s0 s : State) : Prop :=
  history s0 = history s ∧ historyIndex s0 = historyIndex s
  ∧ isApplyingHistory s0 = isApplyingHistory s ∧ saved s0 = saved s.

(** A handler that is quiet or records. *)
Definition eff (s s' : State) : Prop :=
  steady s' ∧ (quiet s s' ∨ recorded s s').

(** Frame conditions of the handlers that only set variables. *)
Ltac frame :=
  unfold agree, frame6, same_log, clearArrowSelection, setSelectedBlock, selectArrow,
    beginEditArrowEndpoint, arrowToolClick, escapeKey, blockClick;
  repeat case_match; proj; split_and!; reflexivity.


(** A document given by its keys has canonical ids when each numeric key
    is spelled as [String] spells its value. *)
Ltac canonical_by_dom E :=
  let k := fresh "k" in let n := fresh "n" in
  let Hk := fresh "Hk" in let Hn := fresh "Hn" in
  intros k n Hk Hn; apply elem_of_dom in Hk; rewrite E in Hk;
  repeat (apply elem_of_union in Hk as [Hk|Hk]);
  apply elem_of_singleton in Hk; subst k;
  vm_compute in Hn; first [discriminate Hn | injection Hn as <-; reflexivity].


(** ** Escaping the page title *)

Module Html.

(** The double quote, as a string of one character. *)
Definition quot : string := String (Ascii.ascii_of_nat 34) EmptyString.

(** The object [map] of [escapeHtml], applied to a match of its regular
    expression (one of the five characters: ampersand, less than, greater
    than, double quote, apostrophe), a string of one character. *)
Definition escape_map (m : string) : option string :=
  if String.eqb m "&" then Some "&amp;"%string
  else if String.eqb m "<" then Some "&lt;"%string
  else if String.eqb m ">" then Some "&gt;"%string
  else if String.eqb m quot then Some "&quot;"%string
  else if String.eqb m "'" then Some "&#039;"%string
  else None.

(** [escapeHtml(text)] of the extension: every match is replaced by its
    entry of the map, every other character is kept.  The five characters
    are ASCII: on the bytes of a UTF-8 string and on the code units of a
    JavaScript string the replacement is the same. *)
Fixpoint escapeHtml (text : string) : string :=
  match text with
  | EmptyString => EmptyString
  | String m rest =>
      match escape_map (String m EmptyString) with
      | Some e => e +:+ escapeHtml rest
      | None => String m (escapeHtml rest)
      end
  end.

End Html.
Export Html.

(** The characters of a string, each as a string of one character. *)
Fixpoint chars (s : string) : list string :=
  match s with
  | EmptyString => []
  | String a rest => String a EmptyString :: chars rest
  end.

(** ** The colour panel *)

Module Panel.

(** [arrows[i]] for a number [i]: [undefined] outside the array. *)
Definition arrow_at (l : list Arrow) (i : Z) : option Arrow :=
  if i <? 0 then None else l !! Z.to_nat i.

Definition set_alpha (v : option Qc) (a : Arrow) : Arrow :=
  {| a_from := a_from a; a_to := a_to a; a_color := a_color a; a_alpha := v |}.

(** The [input] handler of the colour field, for the value of the field.
    The [click] handler of a colour preset is the same function of the
    colour of the preset. *)
Definition arrowColorInput (value : string) (s : State) : option State :=
  let s1 := set_currentArrowColor value s in
  if negb (selectedArrowIndex s1 =? -1) then
    match arrow_at (arrows s1) (selectedArrowIndex s1) with
    | Some a =>
        recordAndSave
          (set_arrows
             (<[Z.to_nat (selectedArrowIndex s1)
                := set_color (Some (currentArrowColor s1)) a]> (arrows s1)) s1)
    | None => Some s1
    end
  else Some s1.

(** The [input] handler of the opacity slider; [v] is [parseFloat] of the
    value of the slider, [None] for [NaN]. *)
Definition arrowAlphaInput (v : option Qc) (s : State) : option State :=
  match v with
  | None => Some s
  | Some v =>
      let s1 := set_currentArrowAlpha v s in
      if negb (selectedArrowIndex s1 =? -1) then
        match arrow_at (arrows s1) (selectedArrowIndex s1) with
        | Some a =>
            recordAndSave
              (set_arrows
                 (<[Z.to_nat (selectedArrowIndex s1)
                    := set_alpha (Some (currentArrowAlpha s1)) a]> (arrows s1)) s1)
        | None => Some s1
        end
      else Some s1
  end.

End Panel.
Export Panel.

(** ** Invariants of the controller *)





(** ** Messages from the extension *)

Module Host.

(** The handler of the [update] message for the document [data] of the
    message: the document replaces the one of the page, the page is
    rebuilt, and a snapshot is recorded ("外部新增/更新也纳入历史"); nothing
    is posted back.  The mark for the later fitting of a new block to its
    text is a variable outside the model. *)
Definition updateMessage (data : CodeMapData) (s : State) : State :=
  recordSnapshot
    (loadCodeBlocks
       (set_arrows (d_arrows data)
          (set_codeMap (codeMap data) (set_page_name (page_name data) s)))).

End Host.
Export Host.

(** ** The handlers that write the history or post the document *)

Module Page.





End Page.
Export Page.




(** ** The loop of [moveBlockToBottom] *)

(** The rounds of [smallerIds.reverse().forEach(...)] for the smaller ids
    [l] in ascending order: the greatest id is shifted first. *)
Definition shift_all (l : list N)
    (acc : gmap string (option CodeBlock) * list Arrow)
  : gmap string (option CodeBlock) * list Arrow :=
  foldr (λ id acc, shift_up acc id) acc l.

(** What these rounds do to one arrow end. *)
Definition renames (l : list N) (p : Anchor) : Anchor :=
  foldr (λ id q, rename_end (StringN id) (StringN (addD id 1)) q) p l.

(** A key that [moveBlockToBottom] leaves where it is: not purely numeric,
    or numeric above the id of the moved block. *)
Definition unmoved_above (currentId : N) (k : string) : Prop :=
  ∀ n, numeric_value k = Some n → (currentId < n)%N.

(** A document in which block ["7"] can go to the bottom: the least id is
    ["2"], and neither ["1002"] nor ["1001"] is in the way. *)
Definition ids_2_3_7_9 : CodeMapData :=
  {| page_name := "CodeMapFree";
     codeMap := <["2" := named_block "2" "two.py" 10 10]>
                  (<["3" := named_block "3" "three.py" 20 20]>
                     (<["7" := named_block "7" "seven.py" 30 30]>
                        (<["9" := named_block "9" "nine.py" 40 40]>
                           (<["util" := named_block "util" "util.py" 50 50]> ∅))));
     d_arrows := [ {| a_from := mkAnchor "7" 5 10; a_to := mkAnchor "3" 3 4;
                      a_color := None; a_alpha := None |};
                   {| a_from := mkAnchor "2" 0 0; a_to := mkAnchor "9" 8 9;
                      a_color := None; a_alpha := None |};
                   {| a_from := mkAnchor "util" 1 1; a_to := mkAnchor "7" 2 2;
                      a_color := None; a_alpha := None |} ] |}.

(** What [moveBlockToBottom] does to one arrow end: to the temporary id, the
    rounds of the smaller ids, then from the temporary id to the least id. *)
Definition bottom_end (blockId : string) (minId : N) (smallerIds : list N)
    (p : Anchor) : Anchor :=
  rename_end (StringN (addD minId 1000)) (StringN minId)
    (renames smallerIds (rename_end blockId (StringN (addD minId 1000)) p)).

(** ** The allocator of the earlier iteration *)

(** In [src/extension.ts] a block is stored under its title, and the scan
    of [getNextNumericNameForPath(filePath)] and of the [addToMap] command
    counts the numeric titles of the blocks of [filePath] only; the [while]
    loop after it looks the candidate up among all blocks. *)
Module PerPath.

(** [if (!block || block.path !== filePath) return;] and then the rounds of
    the scan. *)
Definition scan (filePath : string) (title : string) (blk : CodeBlock)
    (maxNum : N) : N :=
  if String.eqb (b_path blk) filePath then Alloc.scan title blk maxNum
  else maxNum.

Definition maxNumeric (m : gmap string CodeBlock) (filePath : string) : N :=
  map_fold (scan filePath) 0%N m.

Definition getNextNumericNameForPath
    (m : gmap string CodeBlock) (filePath : string) : option string :=
  probe (size m) m (addD (maxNumeric m filePath) 1).

(** The same computation written inline in the command, on the loaded
    file. *)
Definition addToMap_blockName (data : CodeMapData) (filePath : string)
  : option string :=
  probe (size (codeMap data)) (codeMap data)
    (addD (maxNumeric (codeMap data) filePath) 1).

End PerPath.

(** Blocks of two files: ["1"] and ["2"] of [a.py], ["3"] of [b.py]. *)
Definition two_files : gmap string CodeBlock :=
  <["1" := sample_block "a.py" 1 5]>
    (<["2" := sample_block "a.py" 6 9]>
       (<["3" := sample_block "b.py" 1 5]>
          (<["7" := sample_block "b.py" 6 9]> ∅))).
(** * Properties *)

(** ** Numbers and the spelling of ids *)

Lemma to_uint_not_Nil n : N.to_uint n ≠ Decimal.Nil.
Proof.
  destruct n as [|p]; [discriminate|]. simpl.
  apply DecimalPos.Unsigned.to_uint_nonnil.
Qed.

Lemma uint_of_decimal n :
  NilZero.uint_of_string (decimal n) = Some (N.to_uint n).
Proof. unfold decimal. apply NilZero.usu, to_uint_not_Nil. Qed.

(** Up to [2^53] every natural number is a double. *)
Lemma roundD_safe n : (n ≤ two53)%N → roundD n = n.
Proof.
  intros Hn. unfold roundD. destruct (N.ltb_spec n two53) as [|Hge]; [done|].
  assert (n = two53) as -> by lia. by vm_compute.
Qed.

(** Rounding does not go below [2^53] from above it. *)
Lemma roundD_ge n : (two53 ≤ n)%N → (two53 ≤ roundD n)%N.
Proof.
  intros Hn. unfold roundD. destruct (N.ltb_spec n two53) as [|_]; [lia|].
  cbv zeta. case_match; [by vm_compute|].
  assert (53 ≤ N.log2 n)%N as Hlog.
  { change 53%N with (N.log2 two53). by apply N.log2_le_mono. }
  set (e := (N.log2 n - 52)%N) in *.
  assert (2 ^ 52 ≤ N.shiftr n e)%N as Hq.
  { rewrite N.shiftr_div_pow2.
    assert (2 ^ N.log2 n ≤ n)%N as Hlo by (apply N.log2_spec; unfold two53 in Hn; lia).
    replace (N.log2 n) with (52 + e)%N in Hlo by lia.
    rewrite N.pow_add_r in Hlo.
    apply N.div_le_lower_bound; [apply N.pow_nonzero; lia|]. lia. }
  rewrite N.shiftl_mul_pow2.
  assert (2 ^ 1 ≤ 2 ^ e)%N as He by (apply N.pow_le_mono_r; lia).
  change (2 ^ 1)%N with 2%N in He.
  change two53 with (2 ^ 52 * 2)%N.
  apply N.mul_le_mono; [|done]. case_match; lia.
Qed.

Lemma addD_safe a b : (a + b ≤ two53)%N → addD a b = (a + b)%N.
Proof. apply roundD_safe. Qed.

Lemma StringN_safe n : (n ≤ two53)%N → StringN n = decimal n.
Proof. intros Hn. unfold StringN. by rewrite (proj2 (N.leb_le _ _) Hn). Qed.

Lemma parseInt_decimal n : parseInt (decimal n) = Some (roundD n).
Proof.
  unfold parseInt. rewrite uint_of_decimal. simpl.
  by rewrite DecimalN.Unsigned.of_to.
Qed.

Lemma parseInt_StringN n : (n ≤ two53)%N → parseInt (StringN n) = Some n.
Proof.
  intros Hn. by rewrite StringN_safe, parseInt_decimal, roundD_safe.
Qed.

Lemma numericOnly_StringN n : (n ≤ two53)%N → numericOnly (StringN n) = true.
Proof.
  intros Hn. unfold numericOnly. by rewrite StringN_safe, uint_of_decimal.
Qed.

Lemma StringN_inj n1 n2 :
  (n1 ≤ two53)%N → (n2 ≤ two53)%N → StringN n1 = StringN n2 → n1 = n2.
Proof.
  intros H1 H2 E. apply (f_equal parseInt) in E.
  rewrite !parseInt_StringN in E by done. congruence.
Qed.

Lemma StringN_ne (a b : N) :
  (a ≤ two53)%N → (b ≤ two53)%N → a ≠ b → StringN a ≠ StringN b.
Proof. intros Ha Hb H E. by apply StringN_inj in E. Qed.

Lemma numericOnly_parseInt s : numericOnly s = true → is_Some (parseInt s).
Proof.
  unfold numericOnly, parseInt.
  destruct (NilZero.uint_of_string s); [eauto | discriminate].
Qed.

Lemma parseInt_numericOnly s n : parseInt s = Some n → numericOnly s = true.
Proof.
  unfold numericOnly, parseInt.
  destruct (NilZero.uint_of_string s); [done | discriminate].
Qed.

Lemma canonical_StringN n : (n ≤ two53)%N → canonical (StringN n).
Proof. intros Hn n'. rewrite parseInt_StringN by done. congruence. Qed.

(** ** Measured boxes *)

Lemma measure_idemp st : measure (measure st) = measure st.
Proof. unfold measure; simpl. f_equal; lia. Qed.

Lemma measure_block_ok b : block_ok b → measure (box_of b) = box_of b.
Proof.
  unfold block_ok, MIN_W, MIN_H, measure, box_of. intros [??]; simpl.
  f_equal; lia.
Qed.

Lemma set_box_box_of b : set_box (box_of b) b = b.
Proof. by destruct b. Qed.

Lemma block_ok_set_measure st b : block_ok (set_box (measure st) b).
Proof. unfold block_ok, MIN_W, MIN_H; simpl. lia. Qed.


(** ** The allocator *)

Section allocator.
Implicit Types (m : gmap string CodeBlock) (k : string) (n : N).

Lemma scan_numeric_value title blk maxNum :
  scan title blk maxNum =
    match numeric_value title with
    | Some n => if (maxNum <? n)%N then n else maxNum
    | None => maxNum
    end.
Proof.
  unfold scan, numeric_value. destruct (numericOnly title); [|done].
  by destruct (parseInt title).
Qed.

Lemma numeric_value_StringN n :
  (n ≤ two53)%N → numeric_value (StringN n) = Some n.
Proof.
  intros Hn. unfold numeric_value.
  by rewrite numericOnly_StringN, parseInt_StringN.
Qed.

(** A key whose value is below [2^53] spells that very integer. *)
Lemma numeric_value_integer k n :
  numeric_value k = Some n → (n < two53)%N → integer_value k = Some n.
Proof.
  unfold numeric_value, parseInt, integer_value.
  destruct (numericOnly k); [|done].
  destruct (NilZero.uint_of_string k) as [d|]; [|done]. simpl.
  intros [= <-] Hlt. f_equal.
  destruct (N.lt_ge_cases (N.of_uint d) two53) as [?|Hge].
  - symmetry. apply roundD_safe. lia.
  - apply roundD_ge in Hge. lia.
Qed.

(** The scan computes an upper bound of the numeric ids... *)
Lemma maxNumeric_upper m k n :
  is_Some (m !! k) → numeric_value k = Some n → (n ≤ maxNumeric m)%N.
Proof.
  unfold maxNumeric. revert k n.
  apply (map_fold_weak_ind
           (λ r m, ∀ k n, is_Some (m !! k) → numeric_value k = Some n → (n ≤ r)%N)).
  - intros k n [? H]. by rewrite lookup_empty in H.
  - intros i blk m' r Hi IH k n Hk Hn.
    rewrite scan_numeric_value.
    destruct (decide (i = k)) as [->|Hne].
    + rewrite Hn. destruct (N.ltb_spec r n); lia.
    + rewrite lookup_insert_ne in Hk by done.
      specialize (IH k n Hk Hn).
      destruct (numeric_value i) as [ni|]; [|done].
      destruct (N.ltb_spec r ni); lia.
Qed.

(** ... that is [0] or the value of one of them. *)
Lemma maxNumeric_attained m :
  maxNumeric m = 0%N ∨
  ∃ k, is_Some (m !! k) ∧ numeric_value k = Some (maxNumeric m).
Proof.
  unfold maxNumeric.
  apply (map_fold_weak_ind
           (λ r m, r = 0%N ∨ ∃ k, is_Some (m !! k) ∧ numeric_value k = Some r)).
  - by left.
  - intros i blk m' r Hi IH. rewrite scan_numeric_value.
    destruct (numeric_value i) as [ni|] eqn:Hni.
    + destruct (N.ltb_spec r ni).
      * right. exists i. by rewrite lookup_insert_eq.
      * destruct IH as [->|(k & Hk & Hv)]; [by left|].
        right. exists k. split; [|done].
        destruct (decide (i = k)) as [->|?].
        -- by rewrite lookup_insert_eq.
        -- by rewrite lookup_insert_ne.
    + destruct IH as [->|(k & Hk & Hv)]; [by left|].
      right. exists k. split; [|done].
      destruct (decide (i = k)) as [->|?].
      -- by rewrite lookup_insert_eq.
      -- by rewrite lookup_insert_ne.
Qed.

(** The two properties determine the value: it is the maximum of the
    numeric ids, [0] when there is none. *)
Lemma maxNumeric_unique m M :
  (∀ k n, is_Some (m !! k) → numeric_value k = Some n → (n ≤ M)%N) →
  (M = 0%N ∨ ∃ k, is_Some (m !! k) ∧ numeric_value k = Some M) →
  maxNumeric m = M.
Proof.
  intros Hub Hat. apply N.le_antisymm.
  - destruct (maxNumeric_attained m) as [->|(k & Hk & Hv)]; [lia|eauto].
  - destruct Hat as [->|(k & Hk & Hv)]; [lia|].
    eauto using maxNumeric_upper.
Qed.

(** The scan reads the keys only. *)
Lemma maxNumeric_ext m1 m2 :
  (∀ k, is_Some (m1 !! k) ↔ is_Some (m2 !! k)) → maxNumeric m1 = maxNumeric m2.
Proof.
  intros Hdom. apply maxNumeric_unique.
  - intros k n Hk Hn. apply (maxNumeric_upper m2 k); [by apply Hdom|done].
  - destruct (maxNumeric_attained m2) as [->|(k & Hk & Hv)]; [by left|].
    right. exists k. split; [by apply Hdom|done].
Qed.

(** So does the loop. *)
Lemma probe_ext fuel m1 m2 next :
  (∀ k, is_Some (m1 !! k) ↔ is_Some (m2 !! k)) →
  probe fuel m1 next = probe fuel m2 next.
Proof.
  intros Hdom. revert next. induction fuel as [|fuel IH]; intros next; simpl.
  - destruct (m1 !! StringN next) eqn:E1, (m2 !! StringN next) eqn:E2; try done.
    + destruct (proj1 (Hdom (StringN next))) as [? ?]; [by rewrite E1|congruence].
    + destruct (proj2 (Hdom (StringN next))) as [? ?]; [by rewrite E2|congruence].
  - destruct (m1 !! StringN next) eqn:E1, (m2 !! StringN next) eqn:E2; try done.
    + destruct (proj1 (Hdom (StringN next))) as [? ?]; [by rewrite E1|congruence].
    + destruct (proj2 (Hdom (StringN next))) as [? ?]; [by rewrite E2|congruence].
Qed.

Lemma getNextNumericNameForPath_ext m1 m2 filePath :
  dom m1 = dom m2 →
  getNextNumericNameForPath m1 filePath = getNextNumericNameForPath m2 filePath.
Proof.
  intros Hdom.
  assert (∀ k, is_Some (m1 !! k) ↔ is_Some (m2 !! k)) as Hk.
  { intros k. by rewrite <- !elem_of_dom, Hdom. }
  unfold getNextNumericNameForPath.
  rewrite (maxNumeric_ext m1 m2 Hk), (probe_ext _ m1 m2 _ Hk).
  f_equal. by rewrite <- !size_dom, Hdom.
Qed.

(** Below [2^53] the first candidate is free: no key spells a number above
    the maximum. *)
Lemma candidate_free m :
  (maxNumeric m < two53)%N → m !! StringN (maxNumeric m + 1) = None.
Proof.
  intros Hsafe.
  destruct (m !! StringN (maxNumeric m + 1)) as [blk|] eqn:E; [|done].
  pose proof (maxNumeric_upper m (StringN (maxNumeric m + 1)) (maxNumeric m + 1)) as H.
  rewrite E, numeric_value_StringN in H by lia.
  specialize (H (ltac:(eauto)) eq_refl). lia.
Qed.

Lemma probe_free fuel m n : m !! StringN n = None → probe fuel m n = Some (StringN n).
Proof. intros H. destruct fuel; simpl; by rewrite H. Qed.

Lemma getNextNumericNameForPath_eq m filePath :
  (maxNumeric m < two53)%N →
  getNextNumericNameForPath m filePath = Some (StringN (maxNumeric m + 1)).
Proof.
  intros Hsafe. unfold getNextNumericNameForPath.
  rewrite addD_safe by lia. by apply probe_free, candidate_free.
Qed.

Lemma addToMap_blockName_eq data :
  (maxNumeric (codeMap data) < two53)%N →
  addToMap_blockName data = Some (StringN (maxNumeric (codeMap data) + 1)).
Proof.
  intros Hsafe. unfold addToMap_blockName.
  rewrite addD_safe by lia. by apply probe_free, candidate_free.
Qed.

(** Deleting a block below the maximum leaves the maximum where it is. *)
Lemma maxNumeric_delete_below m k n :
  is_Some (m !! k) → numeric_value k = Some n → (n < maxNumeric m)%N →
  maxNumeric (delete k m) = maxNumeric m.
Proof.
  intros Hk Hn Hlt. apply maxNumeric_unique.
  - intros k' n' Hk' Hn'. apply (maxNumeric_upper m k'); [|done].
    destruct (decide (k = k')) as [->|?].
    + by rewrite lookup_delete_eq in Hk'; destruct Hk'.
    + by rewrite lookup_delete_ne in Hk'.
  - destruct (maxNumeric_attained m) as [E|(k' & Hk' & Hv)]; [lia|].
    right. exists k'. split; [|done].
    rewrite lookup_delete_ne; [done|]. intros ->. rewrite Hn in Hv.
    injection Hv as ->. lia.
Qed.

(** The general loop: when a number [bound], at most [2^53], is free, the
    loop started at or below it finds the first free spelling, with the size
    of the map as fuel. *)
Lemma probe_finds (m0 m : gmap string CodeBlock) (fuel : nat) (next bound : N) :
  (next ≤ bound)%N → (bound ≤ two53)%N → m !! StringN bound = None →
  (∀ i : N, (next + i ≤ bound)%N →
            is_Some (m !! StringN (next + i)) → is_Some (m0 !! StringN (next + i))) →
  (size m0 ≤ fuel)%nat →
  ∃ j : N, (next + j ≤ bound)%N
           ∧ probe fuel m next = Some (StringN (next + j))
           ∧ m !! StringN (next + j) = None
           ∧ ∀ i : N, (i < j)%N → is_Some (m !! StringN (next + i)).
Proof.
  intros Hle Hb Hfree.
  revert m0 next Hle. induction fuel as [|fuel IH]; intros m0 next Hle Hocc Hsz.
  - exists 0%N. rewrite N.add_0_r.
    assert (m !! StringN next = None) as Hnone.
    { destruct (m !! StringN next) eqn:E; [|done].
      specialize (Hocc 0%N). rewrite N.add_0_r, E in Hocc.
      destruct Hocc as [x Hx]; [done|eauto|].
      assert (m0 = ∅) as -> by (apply map_size_empty_inv; lia).
      by rewrite lookup_empty in Hx. }
    simpl. rewrite Hnone. split; [done|]. split; [done|]. split; [done|].
    intros i Hi. lia.
  - simpl. destruct (m !! StringN next) as [blk|] eqn:E.
    + assert (next ≠ bound) as Hne by (intros ->; congruence).
      rewrite addD_safe by lia.
      destruct (IH (delete (StringN next) m0) (next + 1)%N) as (j & Hj & Hp & Hf & Hlt).
      * lia.
      * intros i Hi Hs. rewrite lookup_delete_ne.
        -- replace (next + 1 + i)%N with (next + (1 + i))%N in * by lia.
           apply Hocc; [lia|done].
        -- apply StringN_ne; lia.
      * assert (is_Some (m0 !! StringN next)) as [x Hx].
        { specialize (Hocc 0%N). rewrite N.add_0_r in Hocc. apply Hocc; [done|eauto]. }
        pose proof (map_size_delete_Some (StringN next) m0 (ltac:(eauto))) as Hd.
        unfold size at 1 in Hsz. unfold size in Hd |- *. lia.
      * exists (1 + j)%N.
        replace (next + (1 + j))%N with (next + 1 + j)%N by lia.
        split; [done|]. split; [done|]. split; [done|]. intros i Hi.
        destruct (decide (i = 0%N)) as [->|?].
        -- rewrite N.add_0_r, E. eauto.
        -- replace (next + i)%N with (next + 1 + (i - 1))%N by lia.
           apply Hlt. lia.
    + exists 0%N. rewrite N.add_0_r. split; [done|]. split; [done|].
      split; [done|]. intros i Hi. lia.
Qed.

Lemma probe_total m (next bound : N) :
  (next ≤ bound)%N → (bound ≤ two53)%N → m !! StringN bound = None →
  ∃ j : N, (next + j ≤ bound)%N
           ∧ probe (size m) m next = Some (StringN (next + j))
           ∧ m !! StringN (next + j) = None
           ∧ ∀ i : N, (i < j)%N → is_Some (m !! StringN (next + i)).
Proof. intros ???. by apply (probe_finds m m). Qed.

(** At [2^53] the loop stays where it is. *)
Lemma probe_stuck m fuel :
  is_Some (m !! StringN two53) → probe fuel m two53 = None.
Proof.
  intros [b Hb]. induction fuel as [|fuel IH]; simpl; rewrite Hb; [done|].
  exact IH.
Qed.

End allocator.

(** C1, as stated, fails: with block ids ["2"] and ["3"] both allocators
    return ["4"], while ["1"] is the smallest positive integer that is free.
    And with a block whose id is [2^53] no id is allocated at all: the
    candidate [2^53 + 1] is the double [2^53] again, whose spelling is
    taken, and the loop never ends, whatever the fuel. *)
Lemma allocation_is_not_smallest_free :
  getNextNumericNameForPath ids_2_3 "a.py" = Some "4"%string
  ∧ addToMap_blockName (mkData "CodeMapFree" ids_2_3 []) = Some "4"%string
  ∧ smallest_free ids_2_3 "1"
  ∧ ¬ smallest_free ids_2_3 "4"
  ∧ (∀ fuel, probe fuel ids_2_53 (addD (maxNumeric ids_2_53) 1) = None)
  ∧ addToMap_blockName (mkData "CodeMapFree" ids_2_53 []) = None.
Proof.
  split; [by vm_compute|]. split; [by vm_compute|]. split; [|split; [|split]].
  - exists 1%N. split; [done|]. split; [lia|]. split; [by vm_compute|].
    intros n' ??. lia.
  - intros (n & Hn & Hpos & _ & Hall).
    destruct (decide (n = 1%N)) as [->|Hne].
    + by vm_compute in Hn.
    + destruct (Hall 1%N) as [b Hb]; [lia..|].
      by vm_compute in Hb.
  - assert (addD (maxNumeric ids_2_53) 1 = two53) as E by (by vm_compute).
    intros fuel. rewrite E. apply probe_stuck. eexists. vm_compute. reflexivity.
  - vm_compute. reflexivity.
Qed.

(** C1, amended: in a document whose numeric ids are below [2^53], the id
    allocated for an added or a pasted block is a positive integer written
    as a numeric string that no block of the document uses as its id,
    whatever the path of the block (the whole map is scanned); it is one
    more than the largest purely numeric id, not the smallest free integer,
    and for the ids ["2"], ["3"] it is ["4"]. *)
Theorem allocated_id_is_fresh (m : gmap string CodeBlock) (filePath : string)
    (data : CodeMapData) :
  (maxNumeric m < two53)%N →
  (maxNumeric (codeMap data) < two53)%N →
  (∃ n : N, getNextNumericNameForPath m filePath = Some (StringN n)
            ∧ StringN n = decimal n
            ∧ (0 < n)%N ∧ m !! StringN n = None ∧ n = (maxNumeric m + 1)%N)
  ∧ (∃ n : N, addToMap_blockName data = Some (StringN n)
              ∧ StringN n = decimal n
              ∧ (0 < n)%N ∧ codeMap data !! StringN n = None
              ∧ n = (maxNumeric (codeMap data) + 1)%N)
  ∧ getNextNumericNameForPath ids_2_3 filePath = Some "4"%string.
Proof.
  intros Hm Hd. split; [|split].
  - exists (maxNumeric m + 1)%N. rewrite getNextNumericNameForPath_eq by done.
    split; [done|]. split; [apply StringN_safe; lia|].
    split; [lia|]. split; [by apply candidate_free|done].
  - exists (maxNumeric (codeMap data) + 1)%N. rewrite addToMap_blockName_eq by done.
    split; [done|]. split; [apply StringN_safe; lia|].
    split; [lia|]. split; [by apply candidate_free|done].
  - by vm_compute.
Qed.

Lemma allocated_id_is_fresh_witness :
  ∃ n : N, getNextNumericNameForPath ids_2_3 "a.py" = Some (StringN n)
           ∧ n = 4%N ∧ ids_2_3 !! StringN n = None.
Proof.
  destruct (allocated_id_is_fresh ids_2_3 "a.py" (mkData "CodeMapFree" ids_2_3 []))
    as ((n & Hn & _ & _ & Hfree & Hmax) & _).
  - by vm_compute.
  - by vm_compute.
  - exists n. split; [exact Hn|]. split; [|exact Hfree].
    rewrite Hmax. by vm_compute.
Defined.

(** C9, as stated, fails from [2^53] on.  With a block whose id is [2^53]
    the candidate [2^53 + 1] is the double [2^53] again, whose spelling is
    taken: the loop never ends, whatever the fuel.  With a block whose id
    is [2^53 + 1], which [parseInt] reads as [2^53], the allocator returns
    ["9007199254740992"], an integer below the id that is present. *)
Lemma allocator_breaks_at_2_53 :
  (∀ fuel, probe fuel ids_2_53 (addD (maxNumeric ids_2_53) 1) = None)
  ∧ getNextNumericNameForPath ids_2_53 "a.py" = None
  ∧ getNextNumericNameForPath ids_2_53_1 "a.py" = Some "9007199254740992"%string
  ∧ is_Some (ids_2_53_1 !! "9007199254740993")
  ∧ integer_value "9007199254740993" = Some 9007199254740993%N
  ∧ integer_value "9007199254740992" = Some 9007199254740992%N
  ∧ ¬ (9007199254740993 < 9007199254740992)%N.
Proof.
  assert (addD (maxNumeric ids_2_53) 1 = two53) as E by (by vm_compute).
  split.
  { intros fuel. rewrite E. apply probe_stuck.
    eexists. vm_compute. reflexivity. }
  split; [vm_compute; reflexivity|]. split; [vm_compute; reflexivity|].
  split; [eexists; vm_compute; reflexivity|].
  split; [vm_compute; reflexivity|]. split; [vm_compute; reflexivity|]. lia.
Qed.

(** C9, amended: when the maximum [M] of the purely numeric ids ([0]
    without any) is below [2^53], the allocator returns [String(M + 1)],
    the decimal digits of [M + 1]; its loop goes on only while the candidate
    is a key of the map, and stops at the first free one; the new id is
    above every numeric id of the map, as the integers the keys spell; an
    id at or below the maximum is never handed out, and deleting a block
    below the maximum leaves the maximum, hence the next id, as it was. *)
Theorem allocator_is_max_plus_one (m : gmap string CodeBlock) (filePath : string) :
  (maxNumeric m < two53)%N →
  getNextNumericNameForPath m filePath = Some (StringN (maxNumeric m + 1))
  ∧ StringN (maxNumeric m + 1) = decimal (maxNumeric m + 1)
  ∧ (∀ k n, is_Some (m !! k) → numeric_value k = Some n → (n ≤ maxNumeric m)%N)
  ∧ (maxNumeric m = 0%N
     ∨ ∃ k, is_Some (m !! k) ∧ numeric_value k = Some (maxNumeric m))
  ∧ (∀ next : N, (next ≤ maxNumeric m + 1)%N → ∃ j : N,
        probe (size m) m next = Some (StringN (next + j))
        ∧ m !! StringN (next + j) = None
        ∧ ∀ i : N, (i < j)%N → is_Some (m !! StringN (next + i)))
  ∧ (∀ k n, is_Some (m !! k) → numeric_value k = Some n →
        integer_value k = Some n ∧ (n < maxNumeric m + 1)%N)
  ∧ (∀ k n, numeric_value k = Some n → (n ≤ maxNumeric m)%N →
        getNextNumericNameForPath m filePath ≠ Some k)
  ∧ (∀ k n, is_Some (m !! k) → numeric_value k = Some n → (n < maxNumeric m)%N →
        maxNumeric (delete k m) = maxNumeric m
        ∧ getNextNumericNameForPath (delete k m) filePath
          = Some (StringN (maxNumeric m + 1))
        ∧ getNextNumericNameForPath (delete k m) filePath ≠ Some k).
Proof.
  intros Hsafe.
  assert (∀ m' k n, (maxNumeric m' < two53)%N →
            numeric_value k = Some n → (n ≤ maxNumeric m')%N →
            getNextNumericNameForPath m' filePath ≠ Some k) as Hnot.
  { intros m' k n Hs Hn Hle. rewrite getNextNumericNameForPath_eq by done.
    intros [= <-]. rewrite numeric_value_StringN in Hn by lia.
    injection Hn as <-. lia. }
  split; [by apply getNextNumericNameForPath_eq|].
  split; [apply StringN_safe; lia|].
  split; [apply maxNumeric_upper|].
  split; [apply maxNumeric_attained|].
  split.
  { intros next Hnext.
    destruct (probe_total m next (maxNumeric m + 1)) as (j & _ & Hj);
      [done|lia|by apply candidate_free|].
    by exists j. }
  split.
  { intros k n Hk Hn. pose proof (maxNumeric_upper m k n Hk Hn).
    split; [apply numeric_value_integer; [done|lia]|lia]. }
  split; [intros k n Hn Hle; by apply (Hnot m k n)|].
  intros k n Hk Hn Hlt.
  pose proof (maxNumeric_delete_below m k n Hk Hn Hlt) as Hmax.
  split; [done|]. split.
  - rewrite getNextNumericNameForPath_eq by (by rewrite Hmax). by rewrite Hmax.
  - apply (Hnot _ k n); [by rewrite Hmax|done|]. rewrite Hmax. lia.
Qed.

Lemma allocator_is_max_plus_one_witness :
  getNextNumericNameForPath ids_2_3 "a.py" = Some "4"%string
  ∧ maxNumeric ids_2_3 = 3%N.
Proof.
  destruct (allocator_is_max_plus_one ids_2_3 "a.py") as (Hn & _).
  - by vm_compute.
  - split; [|by vm_compute]. rewrite Hn. by vm_compute.
Defined.

(** ** Rendering and saving *)

Lemma lookup_with_default_names cm id :
  with_default_names cm !! id = with_default_name id <$> cm !! id.
Proof.
  unfold with_default_names. rewrite map_lookup_imap.
  by destruct (cm !! id).
Qed.

Lemma dom_with_default_names cm : dom (with_default_names cm) = dom cm.
Proof.
  apply set_eq. intros id. rewrite !elem_of_dom, lookup_with_default_names.
  by rewrite fmap_is_Some.
Qed.

Lemma lookup_read_back_all views cm id :
  read_back_all views cm !! id =
    (λ b, match views !! id with
          | Some st => set_box (measure st) b
          | None => b
          end) <$> cm !! id.
Proof.
  unfold read_back_all. rewrite map_lookup_imap.
  destruct (cm !! id) as [b|]; [|done]. simpl. unfold read_back.
  by destruct (views !! id).
Qed.

Lemma dom_read_back_all views cm : dom (read_back_all views cm) = dom cm.
Proof.
  apply set_eq. intros id. rewrite !elem_of_dom, lookup_read_back_all.
  by rewrite fmap_is_Some.
Qed.

Lemma box_of_with_default_name id b : box_of (with_default_name id b) = box_of b.
Proof. unfold with_default_name. by destruct (b_name b). Qed.

Lemma lookup_load_save cm id :
  read_back_all (box_of <$> with_default_names cm) (with_default_names cm) !! id
  = settle id <$> cm !! id.
Proof.
  rewrite lookup_read_back_all, lookup_fmap, lookup_with_default_names.
  by destruct (cm !! id).
Qed.

Lemma loadCodeBlocks_codeMap s :
  st_codeMap (loadCodeBlocks s) = with_default_names (st_codeMap s).
Proof. unfold loadCodeBlocks. repeat case_match; by proj. Qed.

Lemma loadCodeBlocks_codeBlocks s :
  codeBlocks (loadCodeBlocks s) = box_of <$> with_default_names (st_codeMap s).
Proof. unfold loadCodeBlocks. repeat case_match; by proj. Qed.

(** [loadCodeBlocks] leaves everything else alone, the selected block apart. *)
Lemma loadCodeBlocks_frame s :
  st_page_name (loadCodeBlocks s) = st_page_name s
  ∧ arrows (loadCodeBlocks s) = arrows s
  ∧ history (loadCodeBlocks s) = history s
  ∧ historyIndex (loadCodeBlocks s) = historyIndex s
  ∧ isApplyingHistory (loadCodeBlocks s) = isApplyingHistory s
  ∧ arrowMode (loadCodeBlocks s) = arrowMode s
  ∧ arrowStart (loadCodeBlocks s) = arrowStart s
  ∧ saved (loadCodeBlocks s) = saved s.
Proof. unfold loadCodeBlocks. repeat case_match; by proj. Qed.

Lemma loadCodeBlocks_in_sync s : in_sync (loadCodeBlocks s).
Proof.
  unfold in_sync. rewrite loadCodeBlocks_codeMap, loadCodeBlocks_codeBlocks.
  by rewrite dom_fmap_L.
Qed.

Lemma saveData_Some s :
  in_sync s →
  saveData s =
    Some (set_saved
            (saved s ++ [mkData (st_page_name s)
                           (read_back_all (codeBlocks s) (st_codeMap s)) (arrows s)])
            (set_codeMap (read_back_all (codeBlocks s) (st_codeMap s)) s)).
Proof. intros H. unfold saveData. by rewrite bool_decide_eq_true_2. Qed.

Lemma saveData_None s : ¬ in_sync s → saveData s = None.
Proof. intros H. unfold saveData. by rewrite bool_decide_eq_false_2. Qed.

Lemma saveData_inv s s' :
  saveData s = Some s' →
  in_sync s
  ∧ s' = set_saved (saved s ++ [snapshot_of s'])
           (set_codeMap (read_back_all (codeBlocks s) (st_codeMap s)) s).
Proof.
  unfold saveData. case_bool_decide as Hs; [|done]. intros [= <-].
  split; done.
Qed.

Lemma slice0_take {A} (e : Z) (l : list A) :
  0 ≤ e → slice0 e l = take (Z.to_nat e) l.
Proof. intros H. unfold slice0. destruct (Z.ltb_spec e 0); [lia|done]. Qed.

(** [recordSnapshot] on a cursor that is on an entry: the entries after the
    cursor go, one snapshot of the state is appended, the cursor is on it. *)
Lemma recordSnapshot_spec s :
  -1 ≤ historyIndex s < Z.of_nat (length (history s)) →
  recordSnapshot s =
    set_historyIndex (historyIndex s + 1)
      (set_history (take (Z.to_nat (historyIndex s + 1)) (history s)
                    ++ [snapshot_of s]) s).
Proof.
  intros Hi. unfold recordSnapshot.
  destruct (Z.ltb_spec (historyIndex s) (Z.of_nat (length (history s)) - 1)).
  - unfold set_historyIndex, set_history, snapshotState, snapshot_of, deepClone.
    simpl. rewrite slice0_take by lia. f_equal.
    rewrite length_app, length_take. simpl. lia.
  - unfold set_historyIndex, set_history, snapshotState, snapshot_of, deepClone.
    simpl. rewrite take_ge by lia. f_equal.
    rewrite length_app. simpl. lia.
Qed.

(** A recorded save between two handlers: the measured boxes are written
    back, the document is posted, and one snapshot of it is recorded. *)
Lemma recordAndSave_spec s :
  in_sync s → idle s →
  let cm := read_back_all (codeBlocks s) (st_codeMap s) in
  let doc := mkData (st_page_name s) cm (arrows s) in
  recordAndSave s =
    Some (set_historyIndex (historyIndex s + 1)
            (set_history (take (Z.to_nat (historyIndex s + 1)) (history s) ++ [doc])
               (set_saved (saved s ++ [doc]) (set_codeMap cm s)))).
Proof.
  intros Hs [Ha Hi] cm doc. unfold recordAndSave. rewrite Ha.
  rewrite saveData_Some by done. simpl. f_equal.
  by rewrite recordSnapshot_spec.
Qed.

(** ** Deleting a block *)

Lemma keeps_spec blockName a :
  keeps blockName a = true ↔
  block (a_from a) ≠ blockName ∧ block (a_to a) ≠ blockName.
Proof.
  unfold keeps. rewrite andb_true_iff, !negb_true_iff.
  by rewrite <- !not_true_iff_false, !String.eqb_eq.
Qed.

(** C5: deleting a block that is in the document removes it from the block
    map, removes every arrow that has it as an end and keeps the others in
    order, keeps the other blocks, and records the result as one snapshot:
    the entry appended to the history is the document without the block and
    without those arrows, and the cursor moves onto it. *)
Theorem deleteBlock_cascades (s : State) (B : string) (blk : CodeBlock) :
  st_codeMap s !! B = Some blk →
  idle s →
  ∃ s', deleteBlock B s = Some s'
        ∧ st_codeMap s' !! B = None
        ∧ (∀ a, a ∈ arrows s' → block (a_from a) ≠ B ∧ block (a_to a) ≠ B)
        ∧ arrows s' = filter (λ a, keeps B a = true) (arrows s)
        ∧ (∀ k, k ≠ B → is_Some (st_codeMap s' !! k) ↔ is_Some (st_codeMap s !! k))
        ∧ history s' = take (Z.to_nat (historyIndex s + 1)) (history s)
                       ++ [snapshot_of s']
        ∧ historyIndex s' = historyIndex s + 1
        ∧ saved s' = saved s ++ [snapshot_of s'].
Proof.
  intros HB Hidle. unfold deleteBlock. rewrite HB.
  set (s2 := set_arrows _ _).
  pose proof (loadCodeBlocks_frame s2) as (Hp & Har & Hh & Hhi & Hap & _ & _ & Hsv).
  rewrite recordAndSave_spec; [|apply loadCodeBlocks_in_sync|].
  2:{ destruct Hidle as [??]. split; [by rewrite Hap|by rewrite Hhi, Hh]. }
  eexists. split; [done|]. unfold snapshot_of. proj.
  rewrite loadCodeBlocks_codeMap, loadCodeBlocks_codeBlocks, Hp, Har, Hh, Hhi, Hsv.
  subst s2. proj. split_and!; try done.
  - by rewrite lookup_load_save, lookup_delete_eq.
  - intros a Ha. apply list_elem_of_filter in Ha as [Ha _]. by apply keeps_spec.
  - intros k Hk. rewrite lookup_load_save, fmap_is_Some.
    by rewrite lookup_delete_ne.
Qed.

Lemma deleteBlock_cascades_witness :
  ∃ s', deleteBlock "1" (init scenario_doc) = Some s'
        ∧ st_codeMap s' !! "1" = None
        ∧ (∀ a, a ∈ arrows s' → block (a_from a) ≠ "1" ∧ block (a_to a) ≠ "1")
        ∧ arrows s' = filter (λ a, keeps "1" a = true) (arrows (init scenario_doc))
        ∧ (∀ k, k ≠ "1"%string →
             is_Some (st_codeMap s' !! k)
             ↔ is_Some (st_codeMap (init scenario_doc) !! k))
        ∧ history s' = take (Z.to_nat (historyIndex (init scenario_doc) + 1))
                         (history (init scenario_doc))
                       ++ [snapshot_of s']
        ∧ historyIndex s' = historyIndex (init scenario_doc) + 1
        ∧ saved s' = saved (init scenario_doc) ++ [snapshot_of s'].
Proof.
  apply (deleteBlock_cascades (init scenario_doc) "1"
           (with_default_name "1" (sample_block "a.py" 10 20))).
  - vm_compute. reflexivity.
  - split; [reflexivity|]. vm_compute. split; easy.
Defined.

(** The end of the scenario: after the deletion no arrow is left and the
    block map holds ["2"] alone. *)
Example scenario_after_delete :
  ∃ s', deleteBlock "1" (init scenario_doc) = Some s'
        ∧ arrows s' = []
        ∧ dom (st_codeMap s') = {["2"%string]}.
Proof. eexists. split; [vm_compute; reflexivity|]. split; by vm_compute. Qed.

(** ** Anchors *)

Lemma or_zero_id v : or_zero v = v.
Proof. unfold or_zero. destruct (Z.eqb_spec v 0); congruence. Qed.

(** ** Anchors on doubles *)

Section binary64.
Import PrimFloat SpecFloat FloatOps FloatAxioms Binary64.































End binary64.

(** ** The arrow mode *)

Lemma saveData_arrowMode s s' : saveData s = Some s' → arrowMode s' = arrowMode s.
Proof. intros [_ ->]%saveData_inv. by proj. Qed.

Lemma recordSnapshot_arrowMode s : arrowMode (recordSnapshot s) = arrowMode s.
Proof. unfold recordSnapshot. case_match; by proj. Qed.

Lemma recordAndSave_arrowMode s s' :
  recordAndSave s = Some s' → arrowMode s' = arrowMode s.
Proof.
  unfold recordAndSave. case_match.
  - apply saveData_arrowMode.
  - destruct (saveData s) as [s1|] eqn:E; [|done]. simpl. intros [= <-].
    rewrite recordSnapshot_arrowMode. by apply saveData_arrowMode.
Qed.

Lemma loadCodeBlocks_arrowMode s : arrowMode (loadCodeBlocks s) = arrowMode s.
Proof. apply loadCodeBlocks_frame. Qed.

Lemma applySnapshot_arrowMode st s s' :
  applySnapshot st s = Some s' → arrowMode s' = arrowMode s.
Proof.
  unfold applySnapshot. 
  destruct (saveData _) as [s1|] eqn:E; [|done]. simpl. intros [= <-]. proj.
  apply saveData_arrowMode in E. by rewrite E, loadCodeBlocks_arrowMode.
Qed.

Lemma undo_arrowMode s s' : undo s = Some s' → arrowMode s' = arrowMode s.
Proof.
  unfold undo. case_match; [|congruence].
  destruct (history_at _ _) as [st|]; [|done]. simpl.
  intros Hx%applySnapshot_arrowMode. by rewrite Hx.
Qed.

Lemma redo_arrowMode s s' : redo s = Some s' → arrowMode s' = arrowMode s.
Proof.
  unfold redo. case_match; [|congruence].
  destruct (history_at _ _) as [st|]; [|done]. simpl.
  intros Hx%applySnapshot_arrowMode. by rewrite Hx.
Qed.

Lemma deleteBlock_arrowMode b s s' :
  deleteBlock b s = Some s' → arrowMode s' = arrowMode s.
Proof.
  unfold deleteBlock. case_match; [|congruence].
  intros Hx%recordAndSave_arrowMode. by rewrite Hx, loadCodeBlocks_arrowMode.
Qed.

Lemma moveBlockToTop_arrowMode b s s' :
  moveBlockToTop b s = Some s' → arrowMode s' = arrowMode s.
Proof.
  unfold moveBlockToTop. destruct (plan_top _ _) as [[moves|]|]; [|done|congruence].
  simpl. destruct (mapM _ _) as [ars|]; [|done]. simpl.
  intros Hx%recordAndSave_arrowMode. by rewrite Hx, loadCodeBlocks_arrowMode.
Qed.

Lemma moveBlockToBottom_arrowMode b s s' :
  moveBlockToBottom b s = Some s' → arrowMode s' = arrowMode s.
Proof.
  unfold moveBlockToBottom. repeat case_match; try congruence.
  destruct (defined_map _); [|done]. simpl.
  intros Hx%recordAndSave_arrowMode. by rewrite Hx, loadCodeBlocks_arrowMode.
Qed.

Lemma createPastedBlockAt_arrowMode c x y p s s' :
  createPastedBlockAt c x y p s = Some s' → arrowMode s' = arrowMode s.
Proof.
  unfold createPastedBlockAt. destruct (getNextNumericNameForPath _ _); [|done].
  simpl. intros Hx%recordAndSave_arrowMode. by rewrite Hx, loadCodeBlocks_arrowMode.
Qed.

Lemma selectArrow_arrowMode i s : arrowMode (selectArrow i s) = arrowMode s.
Proof. unfold selectArrow. repeat case_match; by proj. Qed.

Lemma handleLineContentClick_arrowMode click s s' :
  handleLineContentClick click s = Some s' → arrowMode s' = arrowMode s.
Proof.
  unfold handleLineContentClick. repeat case_match; try congruence;
    try (intros [= <-]; by proj).
  destruct (recordAndSave _) as [s3|] eqn:E; [|done]. simpl. intros [= <-]. proj.
  apply recordAndSave_arrowMode in E. by rewrite E, selectArrow_arrowMode.
Qed.

Lemma updateArrowEndpointTo_arrowMode i e b x y s s' :
  updateArrowEndpointTo i e b x y s = Some s' → arrowMode s' = arrowMode s.
Proof.
  unfold updateArrowEndpointTo. repeat case_match; try congruence.
  intros Hx%recordAndSave_arrowMode. by rewrite Hx.
Qed.

Lemma canvasClick_arrowMode t s s' :
  canvasClick t s = Some s' → arrowMode s' = arrowMode s.
Proof.
  unfold canvasClick, clearArrowSelection, setSelectedBlock.
  repeat case_match; try congruence;
    try (intros [= <-]; by proj);
    try (intros Hx%updateArrowEndpointTo_arrowMode; by rewrite Hx);
    try apply handleLineContentClick_arrowMode.
Qed.

Lemma deleteKey_arrowMode s s' : deleteKey s = Some s' → arrowMode s' = arrowMode s.
Proof.
  unfold deleteKey, deleteSelectedArrow, deleteSelectedBlock, clearArrowSelection, setSelectedBlock.
  repeat case_match; try congruence;
    try (intros [= <-]; by proj);
    try (intros Hx%recordAndSave_arrowMode; by rewrite Hx);
    try (intros Hx%deleteBlock_arrowMode; by rewrite Hx).
Qed.

Lemma arrow_mode_ends_by_toggle e s1 s2 :
  handle e s1 = Some s2 → arrowMode s1 = true → arrowMode s2 = false →
  e = ArrowToolClick ∨ e = EscapeKey.
Proof.
  intros H H1 H2. destruct e; simpl in H; eauto; exfalso.
  - apply canvasClick_arrowMode in H. congruence.
  - injection H as <-. rewrite selectArrow_arrowMode in H2. congruence.
  - injection H as <-. unfold beginEditArrowEndpoint in H2. case_match; proj; congruence.
  - injection H as <-. unfold blockClick, clearArrowSelection, setSelectedBlock in H2.
    repeat case_match; proj; congruence.
  - apply deleteKey_arrowMode in H. congruence.
  - apply undo_arrowMode in H. congruence.
  - apply redo_arrowMode in H. congruence.
  - apply deleteBlock_arrowMode in H. congruence.
  - apply moveBlockToTop_arrowMode in H. congruence.
  - apply moveBlockToBottom_arrowMode in H. congruence.
  - apply createPastedBlockAt_arrowMode in H. congruence.
  - unfold pageNameBlur in H. apply recordAndSave_arrowMode in H. proj. congruence.
Qed.

(** ** The arrow gesture *)

Lemma truthy_Some s : s ≠ ""%string → truthy (Some s) = true.
Proof. intros H. simpl. by apply negb_true_iff, String.eqb_neq. Qed.

(** C7: a click that resolves to the anchor already held as the start of the
    arrow (same block, same offsets) is ignored: the handler returns the
    state it was given, so the arrow list, the document, the history and the
    posted saves are what they were; the canvas click handler in arrow mode
    does the same. *)
Theorem degenerate_arrow_rejected (s : State) (click : LineClick) (a : Anchor) :
  arrowStart s = Some a →
  lc_block click = Some (block a) →
  getOffsetsFromClick (lc_content click) (lc_clientX click) (lc_clientY click)
    = Some (a_x a, a_y a) →
  handleLineContentClick click s = Some s
  ∧ (arrowMode s = true → editingArrowEndpoint s = None →
     canvasClick (Some click) s = Some s).
Proof.
  intros Hstart Hb Hoff.
  assert (handleLineContentClick click s = Some s) as E.
  { unfold handleLineContentClick. rewrite Hb, Hoff, Hstart.
    rewrite String.eqb_refl, !or_zero_id, !Z.eqb_refl. simpl.
    by destruct (negb _). }
  split; [done|]. intros Hm He. unfold canvasClick. by rewrite He, Hm.
Qed.

(** Selecting the arrow that was just appended with the panel's colour and
    opacity only moves the selection. *)
Lemma selectArrow_new (s : State) (a : Arrow) :
  a_color a = Some (currentArrowColor s) →
  a_alpha a = Some (currentArrowAlpha s) →
  selectArrow (Z.of_nat (length (arrows (set_arrows (arrows s ++ [a]) s))) - 1)
    (set_arrows (arrows s ++ [a]) s)
  = set_editingArrowEndpoint None
      (set_selectedArrowIndex (Z.of_nat (length (arrows s)))
         (set_arrows (arrows s ++ [a]) s)).
Proof.
  intros Hc Ha. unfold selectArrow, in_range. proj.
  rewrite length_app. simpl.
  replace (Z.of_nat (length (arrows s) + 1) - 1) with (Z.of_nat (length (arrows s))) by lia.
  destruct (Z.ltb_spec (Z.of_nat (length (arrows s))) 0); [lia|].
  destruct (Z.leb_spec (Z.of_nat (length (arrows s) + 1)) (Z.of_nat (length (arrows s)))); [lia|].
  simpl. rewrite Nat2Z.id.
  rewrite lookup_app_r by lia. rewrite Nat.sub_diag. simpl.
  rewrite Hc, Ha. destruct s; simpl in *.
  destruct (negb _); unfold set_currentArrowAlpha, set_currentArrowColor, set_arrows, set_color; simpl.
  - done.
  - f_equal. rewrite insert_app_r_alt by lia. rewrite Nat.sub_diag. simpl.
    destruct a; simpl in *. by subst.
Qed.

(** C8: the second click of the gesture, on an anchor other than the start,
    appends the arrow from the start to the clicked anchor with the panel's
    colour and opacity, selects it, records one snapshot, clears the start
    anchor and leaves the arrow mode as it was; and among the events of the
    controller only the arrow tool button and the Escape key turn the arrow
    mode off. *)
Theorem second_click_keeps_arrow_mode (s : State) (click : LineClick)
    (start : Anchor) (blockName : string) (xOffset yOffset : Z) :
  arrowStart s = Some start →
  lc_block click = Some blockName →
  blockName ≠ ""%string →
  getOffsetsFromClick (lc_content click) (lc_clientX click) (lc_clientY click)
    = Some (xOffset, yOffset) →
  mkAnchor blockName xOffset yOffset ≠ start →
  in_sync s → idle s →
  (∃ s', handleLineContentClick click s = Some s'
         ∧ arrowMode s' = arrowMode s
         ∧ arrowStart s' = None
         ∧ arrows s' = arrows s ++
             [ {| a_from := start; a_to := mkAnchor blockName xOffset yOffset;
                  a_color := Some (currentArrowColor s);
                  a_alpha := Some (currentArrowAlpha s) |} ]
         ∧ selectedArrowIndex s' = Z.of_nat (length (arrows s))
         ∧ history s' = take (Z.to_nat (historyIndex s + 1)) (history s)
                        ++ [snapshot_of s']
         ∧ historyIndex s' = historyIndex s + 1)
  ∧ (∀ e s1 s2, handle e s1 = Some s2 →
       arrowMode s1 = true → arrowMode s2 = false →
       e = ArrowToolClick ∨ e = EscapeKey).
Proof.
  intros Hstart Hb Hne Hoff Hdiff Hsync Hidle.
  split; [|apply arrow_mode_ends_by_toggle].
  unfold handleLineContentClick. rewrite Hb, Hoff, Hstart, truthy_Some by done.
  rewrite !or_zero_id.
  assert (String.eqb (block start) blockName && (a_x start =? xOffset)
          && (a_y start =? yOffset) = false) as ->.
  { apply not_true_iff_false. rewrite !andb_true_iff, String.eqb_eq, !Z.eqb_eq.
    intros [[??]?]. apply Hdiff. destruct start; simpl in *; congruence. }
  replace (mkAnchor (block start) (a_x start) (a_y start)) with start
    by (by destruct start).
  cbv zeta. rewrite selectArrow_new by done.
  rewrite recordAndSave_spec; [| done | done].
  simpl. eexists. split; [done|]. unfold snapshot_of. proj. done.
Qed.

Lemma degenerate_arrow_rejected_witness :
  handleLineContentClick (click_on "1" 300 200) drawing_state = Some drawing_state
  ∧ (arrowMode drawing_state = true → editingArrowEndpoint drawing_state = None →
     canvasClick (Some (click_on "1" 300 200)) drawing_state = Some drawing_state).
Proof.
  apply (degenerate_arrow_rejected drawing_state (click_on "1" 300 200)
           (mkAnchor "1" 262 338)); reflexivity.
Defined.

Lemma second_click_keeps_arrow_mode_witness :
  (∃ s', handleLineContentClick (click_on "2" 420 310) drawing_state = Some s'
         ∧ arrowMode s' = arrowMode drawing_state
         ∧ arrowStart s' = None
         ∧ arrows s' = arrows drawing_state ++
             [ {| a_from := mkAnchor "1" 262 338; a_to := mkAnchor "2" 382 448;
                  a_color := Some (currentArrowColor drawing_state);
                  a_alpha := Some (currentArrowAlpha drawing_state) |} ]
         ∧ selectedArrowIndex s' = Z.of_nat (length (arrows drawing_state))
         ∧ history s' = take (Z.to_nat (historyIndex drawing_state + 1))
                          (history drawing_state)
                        ++ [snapshot_of s']
         ∧ historyIndex s' = historyIndex drawing_state + 1)
  ∧ (∀ e s1 s2, handle e s1 = Some s2 →
       arrowMode s1 = true → arrowMode s2 = false →
       e = ArrowToolClick ∨ e = EscapeKey).
Proof.
  apply (second_click_keeps_arrow_mode drawing_state (click_on "2" 420 310)
           (mkAnchor "1" 262 338) "2" 382 448).
  - reflexivity.
  - reflexivity.
  - discriminate.
  - reflexivity.
  - discriminate.
  - unfold in_sync. vm_compute. intros x. exact (λ H, H).
  - split; [reflexivity|]. vm_compute. split; easy.
Defined.

(** ** Selecting an arrow *)

(** C10, as stated, fails: an arrow whose [color] member is there but is the
    empty string is rewritten by the selection as well. *)
Lemma selectArrow_changes_empty_color :
  (∃ a, arrows (init empty_color_doc) !! 0%nat = Some a ∧ a_color a = Some ""%string)
  ∧ in_range 0 (init empty_color_doc) = true
  ∧ arrows (selectArrow 0 (init empty_color_doc)) ≠ arrows (init empty_color_doc).
Proof.
  split; [eexists; split; reflexivity|]. split; [reflexivity|].
  vm_compute. discriminate.
Qed.

(** C10, amended: selecting the arrow at an index of the list leaves the page
    name, the block map, the rendered boxes, the history and the posted saves
    as they were, selects the arrow and leaves endpoint editing; an arrow
    with a non-empty colour is unchanged and gives its colour to the panel;
    an arrow with no colour member, or with the empty string for one, gets
    the panel's colour; every other arrow is unchanged. *)
Theorem selectArrow_frame (s : State) (index : Z) (a : Arrow) :
  0 ≤ index < Z.of_nat (length (arrows s)) →
  arrows s !! Z.to_nat index = Some a →
  st_page_name (selectArrow index s) = st_page_name s
  ∧ st_codeMap (selectArrow index s) = st_codeMap s
  ∧ codeBlocks (selectArrow index s) = codeBlocks s
  ∧ history (selectArrow index s) = history s
  ∧ historyIndex (selectArrow index s) = historyIndex s
  ∧ saved (selectArrow index s) = saved s
  ∧ selectedArrowIndex (selectArrow index s) = index
  ∧ editingArrowEndpoint (selectArrow index s) = None
  ∧ (∀ c, a_color a = Some c → c ≠ ""%string →
       arrows (selectArrow index s) = arrows s
       ∧ currentArrowColor (selectArrow index s) = c)
  ∧ (a_color a = None ∨ a_color a = Some ""%string →
       arrows (selectArrow index s)
       = <[Z.to_nat index := set_color (Some (currentArrowColor s)) a]> (arrows s)
       ∧ currentArrowColor (selectArrow index s) = currentArrowColor s)
  ∧ (∀ j, j ≠ Z.to_nat index →
       arrows (selectArrow index s) !! j = arrows s !! j).
Proof.
  intros Hi Ha. unfold selectArrow, in_range.
  destruct (Z.ltb_spec index 0); [lia|].
  destruct (Z.leb_spec (Z.of_nat (length (arrows s))) index); [lia|].
  simpl. proj. rewrite Ha.
  destruct (truthy (a_color a)) eqn:Ht; proj; split_and!; try done.
  - intros c Hc _. rewrite Hc. done.
  - intros [Hc|Hc]; rewrite Hc in Ht; done.
  - intros c Hc Hne. rewrite Hc in Ht. simpl in Ht.
    apply negb_false_iff, String.eqb_eq in Ht. done.
  - intros j Hj. by rewrite list_lookup_insert_ne.
Qed.

Lemma selectArrow_frame_witness :
  st_page_name (selectArrow 0 (init scenario_doc)) = st_page_name (init scenario_doc)
  ∧ st_codeMap (selectArrow 0 (init scenario_doc)) = st_codeMap (init scenario_doc)
  ∧ codeBlocks (selectArrow 0 (init scenario_doc)) = codeBlocks (init scenario_doc)
  ∧ history (selectArrow 0 (init scenario_doc)) = history (init scenario_doc)
  ∧ historyIndex (selectArrow 0 (init scenario_doc))
    = historyIndex (init scenario_doc)
  ∧ saved (selectArrow 0 (init scenario_doc)) = saved (init scenario_doc)
  ∧ selectedArrowIndex (selectArrow 0 (init scenario_doc)) = 0.
Proof.
  pose proof (selectArrow_frame (init scenario_doc) 0
                {| a_from := mkAnchor "1" 5 10; a_to := mkAnchor "2" 3 4;
                   a_color := Some "#007acc"%string;
                   a_alpha := Some (Q2Qc (QArith_base.Qmake 45 100)) |}
                ltac:(vm_compute; split; easy) eq_refl)
    as (H1 & H2 & H3 & H4 & H5 & H6 & H7 & _).
  exact (conj H1 (conj H2 (conj H3 (conj H4 (conj H5 (conj H6 H7)))))).
Defined.

(** ** Undo and redo *)

Lemma settle_stable_name id b : settle id b = b → is_Some (b_name b).
Proof.
  unfold settle, set_box, with_default_name. destruct b as [[n|] ???????]; simpl; [eauto|].
  intros [=].
Qed.


Lemma settle_ok id b :
  is_Some (b_name b) → block_ok b → settle id b = b.
Proof.
  intros [n Hn] Hok. unfold settle, with_default_name. rewrite Hn.
  rewrite measure_block_ok by done. apply set_box_box_of.
Qed.


Lemma loadCodeBlocks_rendered s : rendered (loadCodeBlocks s).
Proof.
  split.
  - rewrite loadCodeBlocks_codeMap, loadCodeBlocks_codeBlocks. by rewrite dom_fmap_L.
  - rewrite loadCodeBlocks_codeMap. intros id b.
    rewrite lookup_with_default_names. intros (b0 & _ & ->)%fmap_Some.
    unfold with_default_name. destruct (b_name b0) eqn:E; simpl; [by rewrite E|eauto].
Qed.


Lemma read_back_rendered s :
  rendered s → rendered (set_codeMap (read_back_all (codeBlocks s) (st_codeMap s)) s).
Proof.
  intros [Hd Hn]. split; proj.
  - by rewrite dom_read_back_all.
  - intros id b. rewrite lookup_read_back_all.
    intros (b0 & Hb0 & ->)%fmap_Some. specialize (Hn id b0 Hb0). simpl in Hn.
    by destruct (codeBlocks s !! id).
Qed.

Lemma rendered_ext s1 s2 :
  codeBlocks s1 = codeBlocks s2 → st_codeMap s1 = st_codeMap s2 →
  rendered s1 → rendered s2.
Proof. unfold rendered. by intros <- <-. Qed.

(** Restoring a stable snapshot makes it the current document. *)
Lemma applySnapshot_spec (d : CodeMapData) (s : State) :
  stable_doc d →
  ∃ s', applySnapshot d s = Some s'
        ∧ snapshot_of s' = d
        ∧ rendered s'
        ∧ isApplyingHistory s' = false
        ∧ history s' = history s
        ∧ historyIndex s' = historyIndex s
        ∧ saved s' = saved s ++ [d].
Proof.
  intros Hst. unfold applySnapshot, deepClone.
  set (s3 := set_arrows _ _).
  pose proof (loadCodeBlocks_frame s3) as (Hp & Har & Hh & Hhi & Hap & _ & _ & Hsv).
  assert (read_back_all (codeBlocks (loadCodeBlocks s3)) (st_codeMap (loadCodeBlocks s3))
          = codeMap d) as Hcm.
  { rewrite loadCodeBlocks_codeMap, loadCodeBlocks_codeBlocks. subst s3. proj.
    apply map_eq. intros id. rewrite lookup_load_save.
    destruct (codeMap d !! id) as [b|] eqn:E; [|done]. simpl.
    by rewrite (Hst id b E). }
  rewrite saveData_Some by apply loadCodeBlocks_in_sync. simpl.
  eexists. split; [done|]. split_and!.
  - unfold snapshot_of. proj. rewrite Hcm, Hp, Har. by destruct d.
  - eapply rendered_ext;
      [| |apply (read_back_rendered (loadCodeBlocks s3)), loadCodeBlocks_rendered];
      done.
  - done.
  - by proj.
  - by proj.
  - proj. rewrite Hcm, Hp, Har, Hsv. by destruct d.
Qed.

Lemma history_at_lookup s (i : Z) :
  0 ≤ i → history_at s i = history s !! Z.to_nat i.
Proof. intros H. unfold history_at. destruct (Z.ltb_spec i 0); [lia|done]. Qed.










Lemma init_history_inv (data : CodeMapData) :
  map_Forall (λ _ b, block_ok b) (codeMap data) →
  history_inv (init data)
  ∧ history (init data) = [snapshot_of (init data)]
  ∧ historyIndex (init data) = 0.
Proof.
  intros Hok. unfold init.
  match goal with |- context [loadCodeBlocks ?x] => set (s0 := x) end.
  pose proof (loadCodeBlocks_frame s0) as (Hp & Har & Hh & Hhi & Hap & _).
  change (history s0) with (@nil CodeMapData) in Hh.
  change (historyIndex s0) with (-1) in Hhi.
  change (isApplyingHistory s0) with false in Hap.
  set (s := loadCodeBlocks s0) in *.
  rewrite recordSnapshot_spec by (rewrite Hhi, Hh; simpl; lia).
  rewrite Hh, Hhi. simpl.
  assert (rendered s) as Hr by apply loadCodeBlocks_rendered.
  split_and!; try done.
  unfold history_inv. proj. split_and!; try done.
  apply Forall_singleton. unfold stable_doc, snapshot_of. cbn [codeMap].
  subst s. rewrite loadCodeBlocks_codeMap.
  change (st_codeMap s0) with (codeMap data). intros id b.
  rewrite lookup_with_default_names.
  intros (b0 & Hb0 & ->)%fmap_Some. apply settle_ok.
  - unfold with_default_name. destruct (b_name b0) eqn:E; simpl; [by rewrite E|eauto].
  - specialize (Hok id b0 Hb0). simpl in Hok.
    unfold block_ok, with_default_name in *. by destruct (b_name b0).
Qed.



Lemma recorded_edit_arrows (f : State → list Arrow) :
  recorded_edit (λ s, set_arrows (f s) s).
Proof. by split. Qed.




Lemma deleteBlock_delete_edit blockName s :
  is_Some (st_codeMap s !! blockName) →
  deleteBlock blockName s = recordAndSave (delete_edit blockName s).
Proof. intros [b Hb]. unfold deleteBlock. by rewrite Hb. Qed.


(** ** Renumbering *)

Section renumbering.
Implicit Types (cm : gmap string CodeBlock) (k : string) (n : N).

Lemma elem_of_getNumericIds cm n :
  n ∈ getNumericIds cm ↔ ∃ k, is_Some (cm !! k) ∧ numeric_value k = Some n.
Proof.
  unfold getNumericIds. rewrite merge_sort_Permutation, list_elem_of_omap.
  split.
  - intros (k & Hk & Hn). exists k. split; [|done].
    apply list_elem_of_fmap in Hk as ([k' b] & -> & Hkb).
    apply elem_of_map_to_list in Hkb. simpl. eauto.
  - intros (k & [b Hb] & Hn). exists k. split; [|done].
    apply list_elem_of_fmap. exists (k, b). split; [done|].
    by apply elem_of_map_to_list.
Qed.

Lemma getNumericIds_sorted cm : StronglySorted N.le (getNumericIds cm).
Proof. apply StronglySorted_merge_sort; apply _. Qed.

Lemma getNumericIds_NoDup cm : canonical_ids cm → NoDup (getNumericIds cm).
Proof.
  intros Hc. unfold getNumericIds. rewrite merge_sort_Permutation.
  pose proof (NoDup_fst_map_to_list cm) as Hnd.
  assert (∀ k, k ∈ (map_to_list cm).*1 → is_Some (cm !! k)) as Hin.
  { intros k ([k' b] & -> & Hkb)%list_elem_of_fmap.
    apply elem_of_map_to_list in Hkb. simpl. eauto. }
  induction ((map_to_list cm).*1) as [|k l IH]; [constructor|].
  apply NoDup_cons in Hnd as [Hk Hl]. simpl.
  destruct (numeric_value k) as [n|] eqn:Hn.
  - apply NoDup_cons. split.
    + rewrite list_elem_of_omap. intros (k' & Hk' & Hn').
      assert (k' = k) as ->; [|done].
      rewrite <- (Hc k n), <- (Hc k' n); auto using list_elem_of_further.
      apply Hin. by left.
    + apply IH; [done|]. intros k' Hk'. apply Hin. by right.
  - apply IH; [done|]. intros k' Hk'. apply Hin. by right.
Qed.

(** A duplicate-free ascending list is strictly ascending. *)
Lemma sorted_lt (l : list N) :
  StronglySorted N.le l → NoDup l → StronglySorted N.lt l.
Proof.
  induction 1 as [|x l Hs IH Hx]; intros Hnd; [constructor|].
  apply NoDup_cons in Hnd as [Hxl Hnd]. constructor; [auto|].
  rewrite Forall_forall in Hx |- *. intros y Hy.
  pose proof (Hx y Hy). assert (x ≠ y) by (intros ->; done). lia.
Qed.

Lemma sorted_lt_filter (P : N → Prop) `{∀ x, Decision (P x)} (l : list N) :
  StronglySorted N.lt l → StronglySorted N.lt (filter P l).
Proof.
  induction 1 as [|x l Hs IH Hx]; [constructor|].
  rewrite filter_cons. destruct (decide (P x)); [|done].
  constructor; [done|]. rewrite Forall_forall in Hx |- *.
  intros y [_ Hy]%list_elem_of_filter. auto.
Qed.





(** [getNumericIds] reads the keys only. *)
Lemma getNumericIds_ext cm1 cm2 :
  (∀ k, is_Some (cm1 !! k) ↔ is_Some (cm2 !! k)) →
  getNumericIds cm1 = getNumericIds cm2.
Proof.
  intros Hdom. unfold getNumericIds.
  apply (Sorted_unique N.le).
  - apply Sorted_merge_sort; apply _.
  - apply Sorted_merge_sort; apply _.
  - rewrite !merge_sort_Permutation. apply omap_Permutation.
    apply NoDup_Permutation; [apply NoDup_fst_map_to_list..|].
    intros k. rewrite !list_elem_of_fmap. split.
    + intros ([k' b] & -> & Hkb). apply elem_of_map_to_list in Hkb.
      destruct (proj1 (Hdom k')) as [b' Hb']; [eauto|].
      exists (k', b'). split; [done|]. by apply elem_of_map_to_list.
    + intros ([k' b] & -> & Hkb). apply elem_of_map_to_list in Hkb.
      destruct (proj2 (Hdom k')) as [b' Hb']; [eauto|].
      exists (k', b'). split; [done|]. by apply elem_of_map_to_list.
Qed.


Lemma last_sorted_max (l : list N) (m : N) :
  StronglySorted N.le l → list.last l = Some m →
  m ∈ l ∧ ∀ x, x ∈ l → (x ≤ m)%N.
Proof.
  intros Hs Hl. apply last_Some in Hl as [l' ->].
  split; [apply elem_of_app; right; by left|].
  intros x [Hx|Hx]%elem_of_app.
  - apply (StronglySorted_app_1_elem_of _ _ _ _ _ Hs Hx). by left.
  - apply list_elem_of_singleton in Hx as ->. lia.
Qed.







End renumbering.

Lemma numeric_value_inv k n :
  numeric_value k = Some n → numericOnly k = true ∧ parseInt k = Some n.
Proof. unfold numeric_value. by destruct (numericOnly k). Qed.



Section planned.
Variables (cm : gmap string CodeBlock) (blockId : string) (blk : CodeBlock).
Variables (currentId maxId : N) (largerIds : list N) (tl : list Move).
Hypothesis Hcan : canonical_ids cm.
Hypothesis Hblk : cm !! blockId = Some blk.
Hypothesis Hnum : numeric_value blockId = Some currentId.
Hypothesis Hlarger : largerIds = filter (λ id, (currentId < id)%N) (getNumericIds cm).
Hypothesis Hlen : length tl = length largerIds.
Hypothesis Hlook : ∀ i id, largerIds !! i = Some id →
  (currentId + N.of_nat i < id)%N ∧ (id ≤ maxId)%N
  ∧ ∃ b, cm !! StringN id = Some b
         ∧ tl !! i = Some (mkMove (StringN id) (StringN (currentId + N.of_nat i)) b).
Hypothesis Hlt : (currentId < maxId)%N.
Hypothesis Hsafe : (maxId ≤ two53)%N.

Let moves := mkMove blockId (StringN maxId) blk :: tl.


















End planned.









(** C4 fails on this document: moving block ["5"] to the bottom stages it
    under ["1001"], the key of another block.  That block's record is
    overwritten and lost: two blocks are left where there were three, and the
    arrow that ended at block ["1001"] now ends at ["1"], the moved block. *)
Lemma moveBlockToBottom_overwrites_block :
  ∃ s', moveBlockToBottom "5" (init ids_1_5_1001) = Some s'
        ∧ size (st_codeMap (init ids_1_5_1001)) = 3%nat
        ∧ dom (st_codeMap s') = {["1"%string; "2"%string]}
        ∧ b_path <$> st_codeMap s' !! "1" = Some "five.py"%string
        ∧ b_path <$> st_codeMap s' !! "2" = Some "one.py"%string
        ∧ (∀ k b, st_codeMap s' !! k = Some b → b_path b ≠ "far.py"%string)
        ∧ arrows s' =
            [ {| a_from := mkAnchor "2" 0 0; a_to := mkAnchor "1" 8 9;
                 a_color := None; a_alpha := None |} ].
Proof.
  eexists. split; [vm_compute; reflexivity|].
  split; [reflexivity|]. split; [reflexivity|]. split; [reflexivity|].
  split; [reflexivity|]. split; [|reflexivity].
  intros k b Hk. pose proof (elem_of_dom_2 _ _ _ Hk) as Hin.
  match type of Hin with
  | _ ∈ ?d => change d with ({["1"%string; "2"%string]} : gset string) in Hin
  end.
  apply elem_of_union in Hin as [Hin|Hin]; apply elem_of_singleton in Hin; subst k;
    vm_compute in Hk; injection Hk as <-; discriminate.
Qed.

(** ** The earlier iteration of the arrow gesture *)

(** In the line and column iteration a second click that completes an arrow
    also leaves the arrow mode: the behaviour of C8 is that of the final,
    offset based iteration only. *)
Lemma line_column_click_leaves_arrow_mode (blockName : string) (line col : Z)
    (color : string) (start : LineColumn.LAnchor) (m : LineColumn.Mode) :
  blockName ≠ ""%string →
  LineColumn.m_arrowStart m = Some start →
  LineColumn.mkLAnchor blockName line col
    ≠ LineColumn.mkLAnchor (LineColumn.l_block start) (LineColumn.l_line start)
        (LineColumn.or_one (LineColumn.l_col start)) →
  LineColumn.m_arrowMode
    (LineColumn.handleLineContentClick (Some blockName) (Some line) col color m)
  = false
  ∧ length (LineColumn.m_arrows
              (LineColumn.handleLineContentClick (Some blockName) (Some line)
                 col color m))
    = S (length (LineColumn.m_arrows m)).
Proof.
  intros Hne Hstart Hdiff. unfold LineColumn.handleLineContentClick.
  rewrite truthy_Some, Hstart by done.
  destruct (_ && _) eqn:E.
  - exfalso. apply Hdiff.
    apply andb_true_iff in E as [[E1 E2]%andb_true_iff E3].
    apply String.eqb_eq in E1. apply Z.eqb_eq in E2, E3. congruence.
  - simpl. split; [done|]. rewrite length_app. simpl. lia.
Qed.

(** * Further properties *)

(** ** Exchanging the ids of two blocks *)

Lemma settle_any_key id id' b : settle id b = b → settle id' b = b.
Proof.
  intros H. pose proof (settle_stable_name _ _ H) as [n Hn].
  revert H. unfold settle, with_default_name. by rewrite Hn.
Qed.

Lemma swap_end_involutive id1 id2 p :
  id1 ≠ id2 → swap_end id2 id1 (swap_end id1 id2 p) = p.
Proof.
  intros Hne. unfold swap_end, set_block. destruct p as [b x y]. simpl.
  destruct (String.eqb_spec b id1) as [->|H1]; simpl.
  - rewrite String.eqb_refl. done.
  - destruct (String.eqb_spec b id2) as [->|H2]; simpl.
    + destruct (String.eqb_spec id1 id2); [done|]. by rewrite String.eqb_refl.
    + destruct (String.eqb_spec b id2); [done|].
      by destruct (String.eqb_spec b id1).
Qed.

(** What [swapBlockIds] does to a state between two handlers. *)
Lemma swapBlockIds_spec (s : State) (id1 id2 : string) (b1 b2 : CodeBlock) :
  st_codeMap s !! id1 = Some b1 → st_codeMap s !! id2 = Some b2 → id1 ≠ id2 →
  idle s →
  ∃ s', swapBlockIds id1 id2 s = Some s'
        ∧ (∀ k, st_codeMap s' !! k
                = settle k <$> (<[id2 := b1]> (<[id1 := b2]> (st_codeMap s))) !! k)
        ∧ arrows s' = map_ends (swap_end id1 id2) <$> arrows s
        ∧ st_page_name s' = st_page_name s
        ∧ history s' = take (Z.to_nat (historyIndex s + 1)) (history s)
                       ++ [snapshot_of s']
        ∧ historyIndex s' = historyIndex s + 1
        ∧ isApplyingHistory s' = false
        ∧ saved s' = saved s ++ [snapshot_of s'].
Proof.
  intros H1 H2 Hne Hidle. unfold swapBlockIds. rewrite H1, H2.
  destruct (String.eqb_spec id1 id2); [done|].
  set (s2 := set_arrows _ _).
  pose proof (loadCodeBlocks_frame s2) as (Hp & Har & Hh & Hhi & Hap & _ & _ & Hsv).
  rewrite recordAndSave_spec; [|apply loadCodeBlocks_in_sync|].
  2:{ destruct Hidle as [??]. split; [by rewrite Hap|by rewrite Hhi, Hh]. }
  eexists. split; [done|]. unfold snapshot_of. proj.
  rewrite loadCodeBlocks_codeMap, loadCodeBlocks_codeBlocks, Hp, Har, Hh, Hhi, Hsv.
  subst s2. proj. split_and!; try done.
  - intros k. apply lookup_load_save.
  - rewrite Hap. by destruct Hidle.
Qed.

Lemma swap_end_comm id1 id2 p : id1 ≠ id2 → swap_end id1 id2 p = swap_end id2 id1 p.
Proof.
  intros Hne. unfold swap_end.
  destruct (String.eqb_spec (block p) id1) as [E1|H1];
    destruct (String.eqb_spec (block p) id2) as [E2|H2]; congruence.
Qed.

Lemma map_ends_swap_involutive id1 id2 (l : list Arrow) :
  id1 ≠ id2 →
  map_ends (swap_end id2 id1) <$> (map_ends (swap_end id1 id2) <$> l) = l.
Proof.
  intros Hne. rewrite <- list_fmap_compose. rewrite <- (list_fmap_id l) at 2.
  apply list_fmap_ext. intros _ a _. destruct a as [f t c al]. unfold map_ends. simpl.
  by rewrite !swap_end_involutive.
Qed.

Lemma map_ends_swap_twice id1 id2 (l : list Arrow) :
  id1 ≠ id2 →
  map_ends (swap_end id1 id2) <$> (map_ends (swap_end id1 id2) <$> l) = l.
Proof.
  intros Hne. rewrite <- list_fmap_compose. rewrite <- (list_fmap_id l) at 2.
  apply list_fmap_ext. intros _ a _. destruct a as [f t c al]. unfold map_ends. simpl.
  rewrite (swap_end_comm id1 id2 (swap_end id1 id2 f)) by done.
  rewrite (swap_end_comm id1 id2 (swap_end id1 id2 t)) by done.
  by rewrite !swap_end_involutive.
Qed.

(** On a document that rendering and saving give back as it is, the records
    move as they are. *)
Lemma swapBlockIds_stable (s : State) (id1 id2 : string) (b1 b2 : CodeBlock) :
  st_codeMap s !! id1 = Some b1 → st_codeMap s !! id2 = Some b2 → id1 ≠ id2 →
  idle s → stable_doc (snapshot_of s) →
  ∃ s', swapBlockIds id1 id2 s = Some s'
        ∧ st_codeMap s' = <[id2 := b1]> (<[id1 := b2]> (st_codeMap s))
        ∧ arrows s' = map_ends (swap_end id1 id2) <$> arrows s
        ∧ st_page_name s' = st_page_name s
        ∧ idle s'
        ∧ stable_doc (snapshot_of s')
        ∧ history s' = take (Z.to_nat (historyIndex s + 1)) (history s)
                       ++ [snapshot_of s']
        ∧ historyIndex s' = historyIndex s + 1
        ∧ saved s' = saved s ++ [snapshot_of s'].
Proof.
  intros H1 H2 Hne Hidle Hst.
  destruct (swapBlockIds_spec s id1 id2 b1 b2 H1 H2 Hne Hidle)
    as (s' & Hsw & Hcm & Har & Hp & Hh & Hhi & Hap & Hsv).
  assert (∀ k b, (<[id2 := b1]> (<[id1 := b2]> (st_codeMap s))) !! k = Some b →
            settle k b = b) as Hstable.
  { intros k b. destruct (decide (k = id2)) as [->|Hk2].
    - rewrite lookup_insert_eq. intros [= <-].
      apply (settle_any_key id1). by apply (Hst id1 b1).
    - rewrite lookup_insert_ne by done. destruct (decide (k = id1)) as [->|Hk1].
      + rewrite lookup_insert_eq. intros [= <-].
        apply (settle_any_key id2). by apply (Hst id2 b2).
      + rewrite lookup_insert_ne by done. apply (Hst k b). }
  assert (st_codeMap s' = <[id2 := b1]> (<[id1 := b2]> (st_codeMap s))) as Hcm'.
  { apply map_eq. intros k. rewrite Hcm.
    destruct (_ !! k) as [b|] eqn:E; [|done]. simpl. by rewrite (Hstable k b E). }
  exists s'. split_and!; try done.
  - split; [done|]. rewrite Hh, Hhi, length_app, length_take. simpl.
    destruct Hidle as [_ ?]. lia.
  - intros k b. unfold snapshot_of. cbn [codeMap]. rewrite Hcm'. apply Hstable.
Qed.

Lemma swapBlockIds_back (s : State) (id1 id2 : string) (b1 b2 : CodeBlock) :
  st_codeMap s !! id1 = Some b1 → st_codeMap s !! id2 = Some b2 → id1 ≠ id2 →
  idle s → stable_doc (snapshot_of s) →
  ∃ s1 s2, swapBlockIds id1 id2 s = Some s1
           ∧ swapBlockIds id2 id1 s1 = Some s2
           ∧ snapshot_of s2 = snapshot_of s
           ∧ historyIndex s2 = historyIndex s + 2
           ∧ getNumericIds (st_codeMap s1) = getNumericIds (st_codeMap s).
Proof.
  intros H1 H2 Hne Hidle Hst.
  destruct (swapBlockIds_stable s id1 id2 b1 b2 H1 H2 Hne Hidle Hst)
    as (s1 & Hsw1 & Hcm1 & Har1 & Hp1 & Hidle1 & Hst1 & _ & Hhi1 & _).
  destruct (swapBlockIds_stable s1 id2 id1 b1 b2) as
    (s2 & Hsw2 & Hcm2 & Har2 & Hp2 & _ & _ & _ & Hhi2 & _); try done.
  { rewrite Hcm1. apply lookup_insert_eq. }
  { rewrite Hcm1. rewrite lookup_insert_ne by done. apply lookup_insert_eq. }
  exists s1, s2. split_and!; try done.
  - unfold snapshot_of. f_equal.
    + congruence.
    + rewrite Hcm2, Hcm1. apply map_eq. intros k.
      destruct (decide (k = id1)) as [->|Hk1]; [by rewrite lookup_insert_eq|].
      rewrite lookup_insert_ne by done.
      destruct (decide (k = id2)) as [->|Hk2]; [by rewrite lookup_insert_eq|].
      by rewrite !lookup_insert_ne.
    + rewrite Har2, Har1. by apply map_ends_swap_involutive.
  - lia.
  - apply getNumericIds_ext. intros k. rewrite Hcm1.
    destruct (decide (k = id2)) as [->|Hk2]; [rewrite lookup_insert_eq, H2; by split; eauto|].
    rewrite lookup_insert_ne by done.
    destruct (decide (k = id1)) as [->|Hk1]; [rewrite lookup_insert_eq, H1; by split; eauto|].
    by rewrite lookup_insert_ne.
Qed.

Lemma init_stable (data : CodeMapData) :
  map_Forall (λ _ b, block_ok b) (codeMap data) →
  stable_doc (snapshot_of (init data)) ∧ idle (init data) ∧ history_inv (init data).
Proof.
  intros Hok. destruct (init_history_inv data Hok) as (Hinv & Hh & Hi).
  pose proof Hinv as (Ha & Hr & _ & Hst & _).
  rewrite Hh, Forall_singleton in Hst.
  split; [done|]. split; [|done]. split; [done|]. lia.
Qed.

Lemma layers_doc_ok : map_Forall (λ _ b, block_ok b) (codeMap layers_doc).
Proof.
  repeat (apply map_Forall_insert_2;
          [unfold block_ok, MIN_W, MIN_H; simpl; lia|]).
  apply map_Forall_empty.
Qed.

Lemma canonical_layers_doc : canonical_ids (st_codeMap (init layers_doc)).
Proof.
  assert (dom (st_codeMap (init layers_doc))
          = {["1"%string; "2"%string; "5"%string]}) as E by (by vm_compute).
  canonical_by_dom E.
Qed.

Lemma swapBlockIds_effect (s : State) (id1 id2 : string) (b1 b2 : CodeBlock) :
  st_codeMap s !! id1 = Some b1 → st_codeMap s !! id2 = Some b2 → id1 ≠ id2 →
  idle s →
  ∃ s', swapBlockIds id1 id2 s = Some s'
        ∧ st_codeMap s' !! id1 = Some (settle id1 b2)
        ∧ st_codeMap s' !! id2 = Some (settle id2 b1)
        ∧ (∀ k, k ≠ id1 → k ≠ id2 →
             st_codeMap s' !! k = settle k <$> st_codeMap s !! k)
        ∧ dom (st_codeMap s') = dom (st_codeMap s)
        ∧ getNumericIds (st_codeMap s') = getNumericIds (st_codeMap s)
        ∧ arrows s' = map_ends (swap_end id1 id2) <$> arrows s
        ∧ history s' = take (Z.to_nat (historyIndex s + 1)) (history s)
                       ++ [snapshot_of s']
        ∧ historyIndex s' = historyIndex s + 1
        ∧ saved s' = saved s ++ [snapshot_of s'].
Proof.
  intros H1 H2 Hne Hidle.
  destruct (swapBlockIds_spec s id1 id2 b1 b2 H1 H2 Hne Hidle)
    as (s' & Hsw & Hcm & Har & Hp & Hh & Hhi & Hap & Hsv).
  assert (∀ k, is_Some (st_codeMap s' !! k) ↔ is_Some (st_codeMap s !! k)) as Hdom.
  { intros k. rewrite Hcm, fmap_is_Some.
    destruct (decide (k = id2)) as [->|Hk2]; [rewrite lookup_insert_eq, H2; by split; eauto|].
    rewrite lookup_insert_ne by done.
    destruct (decide (k = id1)) as [->|Hk1]; [rewrite lookup_insert_eq, H1; by split; eauto|].
    by rewrite lookup_insert_ne. }
  exists s'. split_and!; try done.
  - rewrite Hcm, lookup_insert_ne, lookup_insert_eq by done. done.
  - by rewrite Hcm, lookup_insert_eq.
  - intros k Hk1 Hk2. by rewrite Hcm, !lookup_insert_ne.
  - apply set_eq. intros k. by rewrite !elem_of_dom.
  - by apply getNumericIds_ext.
Qed.

Lemma swap_end_cases id1 id2 p :
  a_x (swap_end id1 id2 p) = a_x p ∧ a_y (swap_end id1 id2 p) = a_y p
  ∧ (block p = id1 → block (swap_end id1 id2 p) = id2)
  ∧ (block p = id2 → block (swap_end id1 id2 p) = id1 ∨ id1 = id2)
  ∧ (block p ≠ id1 → block p ≠ id2 → swap_end id1 id2 p = p).
Proof.
  destruct p as [b x y]. unfold swap_end, set_block. simpl.
  destruct (String.eqb_spec b id1) as [->|?];
    [|destruct (String.eqb_spec b id2) as [->|?]]; simpl;
    split_and!; try done; try congruence; eauto.
Qed.

(** X1: [swapBlockIds] on two different ids of the document exchanges the
    two records and leaves every other record under its key; an arrow end on
    one of the two ids goes to the other with its offsets, every other end
    stays; the keys of the map, hence the numeric ids, are the same set; one
    snapshot of the result is recorded and posted.  Records are compared up
    to [settle]. *)
Theorem swapBlockIds_exchanges (s : State) (id1 id2 : string) (b1 b2 : CodeBlock) :
  st_codeMap s !! id1 = Some b1 → st_codeMap s !! id2 = Some b2 → id1 ≠ id2 →
  idle s →
  ∃ s', swapBlockIds id1 id2 s = Some s'
        ∧ st_codeMap s' !! id1 = Some (settle id1 b2)
        ∧ st_codeMap s' !! id2 = Some (settle id2 b1)
        ∧ (∀ k, k ≠ id1 → k ≠ id2 →
             st_codeMap s' !! k = settle k <$> st_codeMap s !! k)
        ∧ dom (st_codeMap s') = dom (st_codeMap s)
        ∧ getNumericIds (st_codeMap s') = getNumericIds (st_codeMap s)
        ∧ arrows s' = map_ends (swap_end id1 id2) <$> arrows s
        ∧ (∀ p, a_x (swap_end id1 id2 p) = a_x p ∧ a_y (swap_end id1 id2 p) = a_y p
                ∧ (block p = id1 → block (swap_end id1 id2 p) = id2)
                ∧ (block p = id2 → block (swap_end id1 id2 p) = id1)
                ∧ (block p ≠ id1 → block p ≠ id2 → swap_end id1 id2 p = p))
        ∧ history s' = take (Z.to_nat (historyIndex s + 1)) (history s)
                       ++ [snapshot_of s']
        ∧ historyIndex s' = historyIndex s + 1
        ∧ saved s' = saved s ++ [snapshot_of s'].
Proof.
  intros H1 H2 Hne Hidle.
  destruct (swapBlockIds_effect s id1 id2 b1 b2 H1 H2 Hne Hidle)
    as (s' & Hsw & Hk1 & Hk2 & Hother & Hdom & Hids & Har & Hh & Hhi & Hsv).
  exists s'. split_and!; try done.
  intros p. destruct (swap_end_cases id1 id2 p) as (Hx & Hy & Ha & Hb & Hc).
  split_and!; try done. intros Hp. by destruct (Hb Hp).
Qed.

Lemma swapBlockIds_exchanges_witness :
  ∃ s', swapBlockIds "1" "2" (init layers_doc) = Some s'
        ∧ st_codeMap s' !! "1" = Some (named_block "two" "two.py" 100 100)
        ∧ st_codeMap s' !! "2" = Some (named_block "1" "one.py" 50 50)
        ∧ arrows s' =
            [ {| a_from := mkAnchor "2" 5 10; a_to := mkAnchor "1" 3 4;
                 a_color := Some "#007acc"%string; a_alpha := None |};
              {| a_from := mkAnchor "1" 0 0; a_to := mkAnchor "5" 8 9;
                 a_color := Some "#007acc"%string; a_alpha := None |} ].
Proof.
  destruct (swapBlockIds_exchanges (init layers_doc) "1" "2"
              (named_block "1" "one.py" 50 50) (named_block "two" "two.py" 100 100))
    as (s' & Hsw & H1 & H2 & _ & _ & _ & Har & _).
  - reflexivity.
  - reflexivity.
  - discriminate.
  - apply init_stable, layers_doc_ok.
  - exists s'. split; [exact Hsw|]. rewrite H1, H2, Har.
    split; [reflexivity|]. split; reflexivity.
Defined.

(** X2: on a document that saving leaves as it is, exchanging two ids twice
    gives the document back: records, arrows and title; the two exchanges
    are two entries of the history. *)
Theorem swapBlockIds_twice (s : State) (id1 id2 : string) (b1 b2 : CodeBlock) :
  st_codeMap s !! id1 = Some b1 → st_codeMap s !! id2 = Some b2 → id1 ≠ id2 →
  idle s → stable_doc (snapshot_of s) →
  ∃ s1 s2, swapBlockIds id1 id2 s = Some s1
           ∧ swapBlockIds id1 id2 s1 = Some s2
           ∧ snapshot_of s2 = snapshot_of s
           ∧ historyIndex s2 = historyIndex s + 2
           ∧ (∃ s2', swapBlockIds id2 id1 s1 = Some s2'
                     ∧ snapshot_of s2' = snapshot_of s).
Proof.
  intros H1 H2 Hne Hidle Hst.
  destruct (swapBlockIds_stable s id1 id2 b1 b2 H1 H2 Hne Hidle Hst)
    as (s1 & Hsw1 & Hcm1 & Har1 & Hp1 & Hidle1 & Hst1 & _ & Hhi1 & _).
  destruct (swapBlockIds_stable s1 id1 id2 b2 b1) as
    (s2 & Hsw2 & Hcm2 & Har2 & Hp2 & _ & _ & _ & Hhi2 & _); try done.
  { rewrite Hcm1. rewrite lookup_insert_ne by done. apply lookup_insert_eq. }
  { rewrite Hcm1. apply lookup_insert_eq. }
  exists s1, s2. split_and!; try done.
  - unfold snapshot_of. f_equal.
    + congruence.
    + rewrite Hcm2, Hcm1. apply map_eq. intros k.
      destruct (decide (k = id2)) as [->|Hk2]; [by rewrite lookup_insert_eq|].
      rewrite lookup_insert_ne by done.
      destruct (decide (k = id1)) as [->|Hk1]; [by rewrite lookup_insert_eq|].
      by rewrite !lookup_insert_ne.
    + rewrite Har2, Har1. by apply map_ends_swap_twice.
  - lia.
  - destruct (swapBlockIds_back s id1 id2 b1 b2 H1 H2 Hne Hidle Hst)
      as (s1' & s2' & Hsw1' & Hsw2' & Hsnap & _).
    rewrite Hsw1 in Hsw1'. injection Hsw1' as <-. eauto.
Qed.

Lemma swapBlockIds_twice_witness :
  ∃ s1 s2, swapBlockIds "1" "2" (init layers_doc) = Some s1
           ∧ swapBlockIds "1" "2" s1 = Some s2
           ∧ snapshot_of s2 = snapshot_of (init layers_doc)
           ∧ historyIndex s2 = historyIndex (init layers_doc) + 2
           ∧ (∃ s2', swapBlockIds "2" "1" s1 = Some s2'
                     ∧ snapshot_of s2' = snapshot_of (init layers_doc)).
Proof.
  apply (swapBlockIds_twice (init layers_doc) "1" "2"
           (named_block "1" "one.py" 50 50) (named_block "two" "two.py" 100 100)).
  - reflexivity.
  - reflexivity.
  - discriminate.
  - apply init_stable, layers_doc_ok.
  - apply init_stable, layers_doc_ok.
Defined.

(** ** One layer up, one layer down *)

Lemma find_larger (c : N) (l : list N) :
  List.find (λ id, (c <? id)%N) l = head (filter (λ id, (c < id)%N) l).
Proof.
  induction l as [|a l IH]; [done|]. simpl. rewrite filter_cons.
  destruct (N.ltb_spec c a); [by rewrite decide_True|by rewrite decide_False by lia].
Qed.

Lemma sorted_lt_le (l : list N) : StronglySorted N.lt l → StronglySorted N.le l.
Proof.
  induction 1 as [|x l Hs IH Hx]; constructor; [done|].
  eapply Forall_impl; [exact Hx|]. intros y Hy. simpl in Hy. lia.
Qed.

Lemma sorted_last_is_max (l : list N) (c : N) :
  StronglySorted N.le l → c ∈ l → (∀ x, x ∈ l → (x ≤ c)%N) → list.last l = Some c.
Proof.
  intros Hs Hc Hmax. destruct (list.last l) as [m|] eqn:E.
  - destruct (last_sorted_max l m Hs E) as [Hm Hle].
    specialize (Hle c Hc). specialize (Hmax m Hm). f_equal. lia.
  - apply last_None in E. subst l. by apply elem_of_nil in Hc.
Qed.

Lemma sorted_head_is_min (l : list N) (c : N) :
  StronglySorted N.le l → c ∈ l → (∀ x, x ∈ l → (c ≤ x)%N) → head l = Some c.
Proof.
  intros Hs Hc Hmin. destruct l as [|m l]; [by apply elem_of_nil in Hc|].
  simpl. f_equal. apply StronglySorted_inv in Hs as [_ Hall]. rewrite Forall_forall in Hall.
  apply elem_of_cons in Hc as [->|Hc]; [done|].
  specialize (Hall c Hc). specialize (Hmin m ltac:(by left)). lia.
Qed.

Lemma sorted_head_min (l : list N) (n : N) (rest : list N) :
  StronglySorted N.lt l → l = n :: rest → ∀ x, x ∈ l → (n ≤ x)%N.
Proof.
  intros Hs -> x Hx. apply StronglySorted_inv in Hs as [_ Hall].
  rewrite Forall_forall in Hall.
  apply elem_of_cons in Hx as [->|Hx]; [lia|]. specialize (Hall x Hx). lia.
Qed.

Section neighbours.
Variables (cm : gmap string CodeBlock) (c : N).
Hypothesis Hcan : canonical_ids cm.
Hypothesis Hc : c ∈ getNumericIds cm.

Let ids := getNumericIds cm.

Lemma ids_strict : StronglySorted N.lt ids.
Proof. apply sorted_lt; [apply getNumericIds_sorted|by apply getNumericIds_NoDup]. Qed.

(** The id above [c] is the least of the larger ids, and [c] is the greatest
    id below it. *)
Lemma next_id_spec n rest :
  filter (λ id, (c < id)%N) ids = n :: rest →
  n ∈ ids ∧ (c < n)%N ∧ (∀ m, m ∈ ids → (c < m)%N → (n ≤ m)%N)
  ∧ list.last (filter (λ id, (id < n)%N) ids) = Some c.
Proof.
  intros Hf.
  assert (n ∈ filter (λ id, (c < id)%N) ids) as Hn by (rewrite Hf; by left).
  apply list_elem_of_filter in Hn as [Hcn Hn].
  assert (∀ m, m ∈ ids → (c < m)%N → (n ≤ m)%N) as Hmin.
  { intros m Hm Hcm.
    apply (sorted_head_min (filter (λ id, (c < id)%N) ids) n rest);
      [apply sorted_lt_filter, ids_strict|done|].
    by apply list_elem_of_filter. }
  split_and!; try done.
  apply sorted_last_is_max.
  - apply sorted_lt_le, sorted_lt_filter, ids_strict.
  - by apply list_elem_of_filter.
  - intros x [Hx Hin]%list_elem_of_filter.
    destruct (N.le_gt_cases x c) as [?|Hgt]; [done|].
    specialize (Hmin x Hin ltac:(lia)). lia.
Qed.

Lemma prev_id_spec p :
  list.last (filter (λ id, (id < c)%N) ids) = Some p →
  p ∈ ids ∧ (p < c)%N ∧ (∀ m, m ∈ ids → (m < c)%N → (m ≤ p)%N)
  ∧ head (filter (λ id, (p < id)%N) ids) = Some c.
Proof.
  intros Hl.
  destruct (last_sorted_max _ _
              (sorted_lt_le _ (sorted_lt_filter (λ id, (id < c)%N) _ ids_strict)) Hl)
    as [Hp Hmax].
  apply list_elem_of_filter in Hp as [Hpc Hp].
  assert (∀ m, m ∈ ids → (m < c)%N → (m ≤ p)%N) as Hmax'.
  { intros m Hm Hmc. apply Hmax. by apply list_elem_of_filter. }
  split_and!; try done.
  apply sorted_head_is_min.
  - apply sorted_lt_le, sorted_lt_filter, ids_strict.
  - by apply list_elem_of_filter.
  - intros x [Hx Hin]%list_elem_of_filter.
    destruct (N.le_gt_cases c x) as [?|Hgt]; [done|].
    specialize (Hmax' x Hin Hgt). lia.
Qed.

End neighbours.

Lemma numeric_key_present (cm : gmap string CodeBlock) (n : N) :
  canonical_ids cm → n ∈ getNumericIds cm → is_Some (cm !! StringN n).
Proof.
  intros Hcan (k & Hk & Hn)%elem_of_getNumericIds. by rewrite (Hcan k n Hk Hn).
Qed.

Lemma numeric_value_key (cm : gmap string CodeBlock) (n : N) :
  canonical_ids cm → n ∈ getNumericIds cm → numeric_value (StringN n) = Some n.
Proof.
  intros Hcan (k & Hk & Hn)%elem_of_getNumericIds. by rewrite (Hcan k n Hk Hn).
Qed.

Lemma moveBlockUp_eq (s : State) (blockId : string) (c n : N) (rest : list N) :
  numeric_value blockId = Some c →
  filter (λ id, (c < id)%N) (getNumericIds (st_codeMap s)) = n :: rest →
  moveBlockUp blockId s = swapBlockIds blockId (StringN n) s.
Proof.
  intros [Hno Hp]%numeric_value_inv Hf. unfold moveBlockUp.
  by rewrite Hno, Hp, find_larger, Hf.
Qed.

Lemma moveBlockDown_eq (s : State) (blockId : string) (c p : N) :
  numeric_value blockId = Some c →
  list.last (filter (λ id, (id < c)%N) (getNumericIds (st_codeMap s))) = Some p →
  moveBlockDown blockId s = swapBlockIds blockId (StringN p) s.
Proof.
  intros [Hno Hp]%numeric_value_inv Hf. unfold moveBlockDown.
  by rewrite Hno, Hp, Hf.
Qed.

(** X3: on a document with canonical numeric ids, [moveBlockUp] of a block
    with a numeric id exchanges it with the block whose id is the least of
    the larger ids, and [moveBlockDown] with the block whose id is the
    greatest of the smaller ids (records up to [settle], arrow ends follow,
    the set of ids is unchanged, one snapshot each); the top block is left
    where it is by [moveBlockUp], the bottom block by [moveBlockDown], and
    nothing is recorded then.  A block whose id is not purely numeric is
    never moved. *)
Theorem move_one_layer (s : State) (blockId : string) (blk : CodeBlock) (c : N) :
  canonical_ids (st_codeMap s) →
  idle s →
  st_codeMap s !! blockId = Some blk →
  numeric_value blockId = Some c →
  let ids := getNumericIds (st_codeMap s) in
  (filter (λ id, (c < id)%N) ids = [] → moveBlockUp blockId s = Some s)
  ∧ (filter (λ id, (id < c)%N) ids = [] → moveBlockDown blockId s = Some s)
  ∧ (∀ n rest, filter (λ id, (c < id)%N) ids = n :: rest →
       (∀ m, m ∈ ids → (c < m)%N → (n ≤ m)%N)
       ∧ ∃ bn s', st_codeMap s !! StringN n = Some bn
           ∧ moveBlockUp blockId s = Some s'
           ∧ st_codeMap s' !! StringN n = Some (settle (StringN n) blk)
           ∧ st_codeMap s' !! blockId = Some (settle blockId bn)
           ∧ (∀ k, k ≠ blockId → k ≠ StringN n →
                st_codeMap s' !! k = settle k <$> st_codeMap s !! k)
           ∧ getNumericIds (st_codeMap s') = ids
           ∧ arrows s' = map_ends (swap_end blockId (StringN n)) <$> arrows s
           ∧ historyIndex s' = historyIndex s + 1)
  ∧ (∀ p, list.last (filter (λ id, (id < c)%N) ids) = Some p →
       (∀ m, m ∈ ids → (m < c)%N → (m ≤ p)%N)
       ∧ ∃ bp s', st_codeMap s !! StringN p = Some bp
           ∧ moveBlockDown blockId s = Some s'
           ∧ st_codeMap s' !! StringN p = Some (settle (StringN p) blk)
           ∧ st_codeMap s' !! blockId = Some (settle blockId bp)
           ∧ (∀ k, k ≠ blockId → k ≠ StringN p →
                st_codeMap s' !! k = settle k <$> st_codeMap s !! k)
           ∧ getNumericIds (st_codeMap s') = ids
           ∧ arrows s' = map_ends (swap_end blockId (StringN p)) <$> arrows s
           ∧ historyIndex s' = historyIndex s + 1)
  ∧ (∀ id s0, numericOnly id = false →
       moveBlockUp id s0 = Some s0 ∧ moveBlockDown id s0 = Some s0).
Proof.
  intros Hcan Hidle Hblk Hnum ids.
  assert (c ∈ ids) as Hc by (apply elem_of_getNumericIds; eauto).
  pose proof (numeric_value_inv _ _ Hnum) as [Hno Hp].
  split_and!.
  - intros Hf. unfold moveBlockUp. fold ids. by rewrite Hno, Hp, find_larger, Hf.
  - intros Hf. unfold moveBlockDown. fold ids. by rewrite Hno, Hp, Hf.
  - intros n rest Hf.
    destruct (next_id_spec _ c Hcan Hc n rest Hf) as (Hn & Hcn & Hmin & _).
    split; [done|].
    destruct (numeric_key_present _ n Hcan Hn) as [bn Hbn].
    assert (blockId ≠ StringN n) as Hne.
    { intros ->. rewrite (numeric_value_key _ n Hcan Hn) in Hnum.
      injection Hnum as ->. lia. }
    destruct (swapBlockIds_effect s blockId (StringN n) blk bn Hblk Hbn Hne Hidle)
      as (s' & Hsw & Hk1 & Hk2 & Hother & _ & Hids & Har & _ & Hhi & _).
    exists bn, s'. rewrite (moveBlockUp_eq s blockId c n rest Hnum Hf).
    split_and!; done.
  - intros p Hl.
    destruct (prev_id_spec _ c Hcan Hc p Hl) as (Hpin & Hpc & Hmax & _).
    split; [done|].
    destruct (numeric_key_present _ p Hcan Hpin) as [bp Hbp].
    assert (blockId ≠ StringN p) as Hne.
    { intros ->. rewrite (numeric_value_key _ p Hcan Hpin) in Hnum.
      injection Hnum as ->. lia. }
    destruct (swapBlockIds_effect s blockId (StringN p) blk bp Hblk Hbp Hne Hidle)
      as (s' & Hsw & Hk1 & Hk2 & Hother & _ & Hids & Har & _ & Hhi & _).
    exists bp, s'. rewrite (moveBlockDown_eq s blockId c p Hnum Hl).
    split_and!; done.
  - intros id s0 Hid. unfold moveBlockUp, moveBlockDown. by rewrite Hid.
Qed.

Lemma move_one_layer_witness :
  ∃ s1 s2, moveBlockUp "2" (init layers_doc) = Some s1
           ∧ st_codeMap s1 !! "5" = Some (named_block "two" "two.py" 100 100)
           ∧ st_codeMap s1 !! "2" = Some (named_block "5" "five.py" 150 150)
           ∧ moveBlockDown "2" (init layers_doc) = Some s2
           ∧ st_codeMap s2 !! "1" = Some (named_block "two" "two.py" 100 100)
           ∧ st_codeMap s2 !! "2" = Some (named_block "1" "one.py" 50 50)
           ∧ moveBlockUp "5" (init layers_doc) = Some (init layers_doc)
           ∧ moveBlockDown "1" (init layers_doc) = Some (init layers_doc).
Proof.
  destruct (move_one_layer (init layers_doc) "2" (named_block "two" "two.py" 100 100) 2)
    as (_ & _ & Hup & Hdown & _).
  - apply canonical_layers_doc.
  - apply init_stable, layers_doc_ok.
  - reflexivity.
  - reflexivity.
  - destruct (Hup 5%N [] eq_refl) as (_ & bn & s1 & Hbn & Hmv1 & H5 & H2 & _).
    destruct (Hdown 1%N eq_refl) as (_ & bp & s2 & Hbp & Hmv2 & H1 & H2' & _).
    vm_compute in Hbn, Hbp. injection Hbn as <-. injection Hbp as <-.
    exists s1, s2. split; [exact Hmv1|].
    split; [exact H5|]. split; [exact H2|]. split; [exact Hmv2|].
    split; [exact H1|]. split; [exact H2'|]. split; reflexivity.
Defined.

(** X4: on a document that saving leaves as it is, with canonical numeric
    ids, moving a block one layer up and then moving the block that is now
    under its former neighbour's id one layer down gives the document back;
    the same holds for one layer down, then up. *)
Theorem move_up_down_round_trip (s : State) (blockId : string) (blk : CodeBlock)
    (c : N) :
  canonical_ids (st_codeMap s) →
  idle s → stable_doc (snapshot_of s) →
  st_codeMap s !! blockId = Some blk →
  numeric_value blockId = Some c →
  let ids := getNumericIds (st_codeMap s) in
  (∀ n rest, filter (λ id, (c < id)%N) ids = n :: rest →
     ∃ s1 s2, moveBlockUp blockId s = Some s1
              ∧ moveBlockDown (StringN n) s1 = Some s2
              ∧ snapshot_of s2 = snapshot_of s
              ∧ historyIndex s2 = historyIndex s + 2)
  ∧ (∀ p, list.last (filter (λ id, (id < c)%N) ids) = Some p →
     ∃ s1 s2, moveBlockDown blockId s = Some s1
              ∧ moveBlockUp (StringN p) s1 = Some s2
              ∧ snapshot_of s2 = snapshot_of s
              ∧ historyIndex s2 = historyIndex s + 2).
Proof.
  intros Hcan Hidle Hst Hblk Hnum ids.
  assert (c ∈ ids) as Hc by (apply elem_of_getNumericIds; eauto).
  assert (StringN c = blockId) as Hkey by (apply Hcan; eauto).
  split.
  - intros n rest Hf.
    destruct (next_id_spec _ c Hcan Hc n rest Hf) as (Hn & Hcn & _ & Hlast).
    destruct (numeric_key_present _ n Hcan Hn) as [bn Hbn].
    assert (blockId ≠ StringN n) as Hne.
    { intros ->. rewrite (numeric_value_key _ n Hcan Hn) in Hnum.
      injection Hnum as ->. lia. }
    destruct (swapBlockIds_back s blockId (StringN n) blk bn Hblk Hbn Hne Hidle Hst)
      as (s1 & s2 & Hsw1 & Hsw2 & Hsnap & Hhi & Hids).
    exists s1, s2. rewrite (moveBlockUp_eq s blockId c n rest Hnum Hf).
    split; [done|]. split; [|done].
    rewrite (moveBlockDown_eq s1 (StringN n) n c).
    + by rewrite Hkey.
    + by apply (numeric_value_key (st_codeMap s)).
    + by rewrite Hids.
  - intros p Hl.
    destruct (prev_id_spec _ c Hcan Hc p Hl) as (Hpin & Hpc & _ & Hhead).
    destruct (numeric_key_present _ p Hcan Hpin) as [bp Hbp].
    assert (blockId ≠ StringN p) as Hne.
    { intros ->. rewrite (numeric_value_key _ p Hcan Hpin) in Hnum.
      injection Hnum as ->. lia. }
    destruct (swapBlockIds_back s blockId (StringN p) blk bp Hblk Hbp Hne Hidle Hst)
      as (s1 & s2 & Hsw1 & Hsw2 & Hsnap & Hhi & Hids).
    exists s1, s2. rewrite (moveBlockDown_eq s blockId c p Hnum Hl).
    split; [done|]. split; [|done].
    destruct (filter (λ id, (p < id)%N) (getNumericIds (st_codeMap s)))
      as [|c' rest] eqn:Hf; [done|].
    injection Hhead as ->.
    rewrite (moveBlockUp_eq s1 (StringN p) p c rest).
    + by rewrite Hkey.
    + by apply (numeric_value_key (st_codeMap s)).
    + by rewrite Hids.
Qed.

Lemma move_up_down_round_trip_witness :
  ∃ s1 s2, moveBlockUp "2" (init layers_doc) = Some s1
           ∧ moveBlockDown "5" s1 = Some s2
           ∧ snapshot_of s2 = snapshot_of (init layers_doc)
           ∧ historyIndex s2 = historyIndex (init layers_doc) + 2.
Proof.
  destruct (move_up_down_round_trip (init layers_doc) "2"
              (named_block "two" "two.py" 100 100) 2) as [Hup _].
  - apply canonical_layers_doc.
  - apply init_stable, layers_doc_ok.
  - apply init_stable, layers_doc_ok.
  - reflexivity.
  - reflexivity.
  - exact (Hup 5%N [] eq_refl).
Defined.

(** ** Renaming a block *)

Lemma maxNumeric_dom (m1 m2 : gmap string CodeBlock) :
  dom m1 = dom m2 → maxNumeric m1 = maxNumeric m2.
Proof.
  intros Hd.
  assert (∀ k, is_Some (m1 !! k) ↔ is_Some (m2 !! k)) as Hk.
  { intros k. by rewrite <- !elem_of_dom, Hd. }
  apply maxNumeric_unique.
  - intros k n Hk1 Hn. apply (maxNumeric_upper m2 k); [by apply Hk|done].
  - destruct (maxNumeric_attained m2) as [E|(k & Hk2 & Hv)]; [by left|].
    right. exists k. split; [by apply Hk|done].
Qed.

(** X5: renaming a block that is on the page changes the display name of its
    record and nothing else in the document: the keys of the block map, the
    path and the line range of every record and the names of the other
    records are what they were, the arrows are untouched, the id the
    allocator hands out next is the same, even when the new name is a
    number; one snapshot is recorded and posted.  A block without an element
    on the page is not renamed and nothing is recorded. *)
Theorem renameBlock_keeps_ids (s : State) (blockId newDisplayName : string)
    (old : CodeBlock) :
  in_sync s → idle s →
  st_codeMap s !! blockId = Some old →
  (codeBlocks s !! blockId = None → renameBlock blockId newDisplayName s = Some s)
  ∧ (is_Some (codeBlocks s !! blockId) →
     ∃ s', renameBlock blockId newDisplayName s = Some s'
           ∧ dom (st_codeMap s') = dom (st_codeMap s)
           ∧ b_name <$> st_codeMap s' !! blockId = Some (Some newDisplayName)
           ∧ (∀ k, k ≠ blockId →
                b_name <$> st_codeMap s' !! k = b_name <$> st_codeMap s !! k)
           ∧ (∀ k, b_path <$> st_codeMap s' !! k = b_path <$> st_codeMap s !! k
                   ∧ b_start_line <$> st_codeMap s' !! k
                     = b_start_line <$> st_codeMap s !! k
                   ∧ b_end_line <$> st_codeMap s' !! k
                     = b_end_line <$> st_codeMap s !! k)
           ∧ arrows s' = arrows s
           ∧ getNumericIds (st_codeMap s') = getNumericIds (st_codeMap s)
           ∧ (∀ p, getNextNumericNameForPath (st_codeMap s') p
                   = getNextNumericNameForPath (st_codeMap s) p)
           ∧ history s' = take (Z.to_nat (historyIndex s + 1)) (history s)
                          ++ [snapshot_of s']
           ∧ historyIndex s' = historyIndex s + 1
           ∧ saved s' = saved s ++ [snapshot_of s']).
Proof.
  intros Hsync Hidle Hold. split.
  { intros Hnone. unfold renameBlock. by rewrite Hnone. }
  intros [st Hst]. unfold renameBlock. rewrite Hst, Hold. simpl.
  set (cm1 := <[blockId := _]> (st_codeMap s)).
  assert (dom cm1 = dom (st_codeMap s)) as Hdom1.
  { unfold cm1. apply dom_insert_lookup_L. eauto. }
  rewrite recordAndSave_spec; [| |done].
  2:{ unfold in_sync. proj. by rewrite Hdom1. }
  eexists. split; [done|]. unfold snapshot_of. proj.
  assert (dom (read_back_all (codeBlocks s) cm1) = dom (st_codeMap s)) as Hdom.
  { by rewrite dom_read_back_all. }
  split_and!; try done.
  - rewrite lookup_read_back_all. unfold cm1. rewrite lookup_insert_eq. simpl.
    by rewrite Hst.
  - intros k Hk. rewrite lookup_read_back_all. unfold cm1.
    rewrite lookup_insert_ne by done.
    destruct (st_codeMap s !! k) as [b|]; [|done]. simpl.
    by destruct (codeBlocks s !! k).
  - intros k. rewrite lookup_read_back_all. unfold cm1.
    destruct (decide (k = blockId)) as [->|Hk].
    + rewrite lookup_insert_eq, Hold, Hst. done.
    + rewrite lookup_insert_ne by done.
      destruct (st_codeMap s !! k) as [b|]; [|done]. simpl.
      by destruct (codeBlocks s !! k).
  - apply getNumericIds_ext. intros k. by rewrite <- !elem_of_dom, Hdom.
  - intros p. by apply getNextNumericNameForPath_ext.
Qed.

Lemma renameBlock_keeps_ids_witness :
  ∃ s', renameBlock "1" "42" (init layers_doc) = Some s'
        ∧ dom (st_codeMap s') = dom (st_codeMap (init layers_doc))
        ∧ b_name <$> st_codeMap s' !! "1" = Some (Some "42"%string)
        ∧ arrows s' = arrows (init layers_doc)
        ∧ getNextNumericNameForPath (st_codeMap s') "a.py" = Some "6"%string.
Proof.
  destruct (renameBlock_keeps_ids (init layers_doc) "1" "42"
              (named_block "1" "one.py" 50 50)) as [_ H].
  - unfold in_sync. vm_compute. intros x. exact (λ H, H).
  - apply init_stable, layers_doc_ok.
  - reflexivity.
  - destruct H as (s' & Hr & Hdom & Hname & _ & _ & Har & _ & Hnext & _).
    + vm_compute. eauto.
    + exists s'. split; [exact Hr|]. split; [exact Hdom|]. split; [exact Hname|].
      split; [exact Har|]. rewrite Hnext. reflexivity.
Defined.

(** ** Pasting a block *)



(** ** Resizing and dragging *)


(** X7: whatever the handle, the rectangle at the start and the pointer, the
    box a resize gives a block is at least [MIN_W] by [MIN_H] and has no
    negative coordinate, so it is the box the page measures.  A handle
    without [w] leaves the left edge, one without [n] the top edge, one with
    neither [e] nor [w] the width, one with neither [n] nor [s] the height.
    A handle with [e] and without [w] adds the displacement [dx] of the
    pointer to the width; a handle with [w] takes [dx] from the width and
    adds it to the left edge, and when the width stops at the minimum it
    takes the shortfall [MIN_W - (width - dx)] from the left edge again;
    the left edge then stops at zero.  The same for [s], [n], [dy], the
    height and the top edge.  Each result is given as the expression the
    handler evaluates. *)
Theorem resizeBox_bounds (resizeDir : string) (start : ResizeStart)
    (clientX clientY : Z) :
  let b := resizeBox resizeDir start clientX clientY in
  let dx := clientX - rs_mouseX start in
  let dy := clientY - rs_mouseY start in
  MIN_W ≤ width b ∧ MIN_H ≤ height b ∧ 0 ≤ left b ∧ 0 ≤ top b
  ∧ measure b = b
  ∧ (includes "w" resizeDir = false → left b = Z.max 0 (rs_left start))
  ∧ (includes "n" resizeDir = false → top b = Z.max 0 (rs_top start))
  ∧ (includes "w" resizeDir = false → includes "e" resizeDir = false →
     width b = Z.max (rs_width start) MIN_W)
  ∧ (includes "n" resizeDir = false → includes "s" resizeDir = false →
     height b = Z.max (rs_height start) MIN_H)
  ∧ (includes "w" resizeDir = false → includes "e" resizeDir = true →
     width b = Z.max (rs_width start + dx) MIN_W)
  ∧ (includes "n" resizeDir = false → includes "s" resizeDir = true →
     height b = Z.max (rs_height start + dy) MIN_H)
  ∧ (includes "w" resizeDir = true →
     width b = Z.max (rs_width start - dx) MIN_W
     ∧ left b = Z.max 0 (if rs_width start - dx <? MIN_W
                         then rs_left start + dx - (MIN_W - (rs_width start - dx))
                         else rs_left start + dx))
  ∧ (includes "n" resizeDir = true →
     height b = Z.max (rs_height start - dy) MIN_H
     ∧ top b = Z.max 0 (if rs_height start - dy <? MIN_H
                        then rs_top start + dy - (MIN_H - (rs_height start - dy))
                        else rs_top start + dy)).
Proof.
  intros b dx dy. subst b. unfold resizeBox, measure, MIN_W, MIN_H. fold dx. fold dy.
  destruct (includes "n" resizeDir), (includes "s" resizeDir),
    (includes "w" resizeDir), (includes "e" resizeDir);
    cbv zeta iota beta;
    repeat match goal with
           | |- context [?a <? ?b] => destruct (Z.ltb_spec a b)
           end;
    cbn [left top width height];
    split_and!; try done; try lia; try (f_equal; lia);
    try (intros; split; lia).
Qed.





(** ** Handlers, history and saves *)

Lemma frame6_eff s s0 : steady s → frame6 s0 s → eff s s0.
Proof.
  intros (Hs & Ha & Hi) (Hcm & Hcb & Hh & Hhi & Hap & Hsv). split.
  - unfold steady, in_sync. by rewrite Hcm, Hcb, Hh, Hhi, Hap.
  - left. done.
Qed.

Lemma eff_agree s s1 s2 : eff s s1 → agree s2 s1 → eff s s2.
Proof.
  intros [(Hs & Ha & Hi) Hq] [(Hcm & Hcb & Hh & Hhi & Hap & Hsv) [Har Hp]]. split.
  - unfold steady, in_sync. by rewrite Hcm, Hcb, Hh, Hhi, Hap.
  - unfold quiet, recorded, snapshot_of in *. rewrite Hcm, Hh, Hhi, Hsv, Har, Hp. done.
Qed.

Lemma eff_refl s : steady s → eff s s.
Proof. intros H. by apply frame6_eff. Qed.

(** A call of [recordAndSave()] that returns, between two handlers. *)
Lemma recordAndSave_log s0 s' :
  recordAndSave s0 = Some s' →
  isApplyingHistory s0 = false →
  -1 ≤ historyIndex s0 < Z.of_nat (length (history s0)) →
  steady s' ∧ recorded s0 s'.
Proof.
  intros Hrec Ha Hi.
  assert (in_sync s0) as Hsync.
  { unfold recordAndSave in Hrec. rewrite Ha in Hrec.
    destruct (saveData s0) as [s1|] eqn:E; [|done]. by apply saveData_inv in E as [? _]. }
  rewrite recordAndSave_spec in Hrec by done. injection Hrec as <-.
  unfold steady, recorded, in_sync, snapshot_of. proj. split_and!; try done.
  - by rewrite dom_read_back_all.
  - lia.
  - rewrite length_app, length_take. simpl. lia.
Qed.

Lemma record_eff s s0 s' :
  steady s → same_log s0 s → recordAndSave s0 = Some s' → eff s s'.
Proof.
  intros (Hs & Ha & Hi) (Hh & Hhi & Hap & Hsv) Hrec.
  destruct (recordAndSave_log s0 s' Hrec) as [Hst Hr];
    [congruence|rewrite Hhi, Hh; lia|].
  split; [done|]. right. unfold recorded in *. by rewrite <- Hh, <- Hhi, <- Hsv.
Qed.

Lemma loadCodeBlocks_same_log s0 s : same_log s0 s → same_log (loadCodeBlocks s0) s.
Proof.
  intros (Hh & Hhi & Hap & Hsv).
  pose proof (loadCodeBlocks_frame s0) as (_ & _ & Hh' & Hhi' & Hap' & _ & _ & Hsv').
  unfold same_log. by rewrite Hh', Hhi', Hap', Hsv'.
Qed.

Lemma deleteBlock_eff b s s' : steady s → deleteBlock b s = Some s' → eff s s'.
Proof.
  intros Hst. unfold deleteBlock. case_match.
  - apply record_eff; [done|]. apply loadCodeBlocks_same_log. frame.
  - intros [= <-]. by apply eff_refl.
Qed.

Lemma moveBlockToTop_eff b s s' : steady s → moveBlockToTop b s = Some s' → eff s s'.
Proof.
  intros Hst. unfold moveBlockToTop.
  destruct (plan_top _ _) as [[moves|]|]; [|done|].
  - simpl. destruct (mapM _ _) as [ars|]; [|done]. simpl.
    apply record_eff; [done|]. apply loadCodeBlocks_same_log. frame.
  - intros [= <-]. by apply eff_refl.
Qed.

Lemma moveBlockToBottom_eff b s s' :
  steady s → moveBlockToBottom b s = Some s' → eff s s'.
Proof.
  intros Hst. unfold moveBlockToBottom.
  repeat case_match; try done; try (intros [= <-]; by apply eff_refl).
  destruct (defined_map _); [|done]. simpl.
  apply record_eff; [done|]. apply loadCodeBlocks_same_log. frame.
Qed.

Lemma createPastedBlockAt_eff c x y p s s' :
  steady s → createPastedBlockAt c x y p s = Some s' → eff s s'.
Proof.
  intros Hst. unfold createPastedBlockAt.
  destruct (getNextNumericNameForPath _ _); [|done]. simpl.
  apply record_eff; [done|]. apply loadCodeBlocks_same_log. frame.
Qed.

Lemma updateArrowEndpointTo_eff i e b x y s0 s s' :
  steady s → agree s0 s →
  updateArrowEndpointTo i e b x y s0 = Some s' → eff s s'.
Proof.
  intros Hst Hag. unfold updateArrowEndpointTo. repeat case_match.
  - apply record_eff; [done|]. destruct Hag as [(?&?&?&?&?&?) _]. unfold same_log. by proj.
  - intros [= <-]. apply (eff_agree s s); [by apply eff_refl|done].
  - intros [= <-]. apply (eff_agree s s); [by apply eff_refl|done].
Qed.

Lemma handleLineContentClick_eff click s s' :
  steady s → handleLineContentClick click s = Some s' → eff s s'.
Proof.
  intros Hst. unfold handleLineContentClick.
  repeat case_match; try done;
    try (intros [= <-]; first [by apply eff_refl | apply frame6_eff; [done|frame]]).
  destruct (recordAndSave _) as [s3|] eqn:E; [|done]. simpl. intros [= <-].
  apply (eff_agree s s3); [|frame].
  apply (record_eff s _ s3 Hst) in E; [done|]. frame.
Qed.

Lemma canvasClick_eff t s s' : steady s → canvasClick t s = Some s' → eff s s'.
Proof.
  intros Hst. unfold canvasClick.
  repeat case_match; try done;
    try (intros [= <-]; first [by apply eff_refl | apply frame6_eff; [done|frame]]);
    try (by apply handleLineContentClick_eff).
  apply updateArrowEndpointTo_eff; [done|frame].
Qed.

Lemma deleteKey_eff s s' : steady s → deleteKey s = Some s' → eff s s'.
Proof.
  intros Hst. unfold deleteKey, deleteSelectedArrow, deleteSelectedBlock.
  repeat case_match; try done;
    try (intros [= <-]; first [by apply eff_refl | apply frame6_eff; [done|frame]]);
    try (apply record_eff; [done|frame]).
  all: intros Hd; apply deleteBlock_eff in Hd.
  all: try (destruct Hst as (?&?&?); unfold steady, in_sync, setSelectedBlock in *;
            repeat case_match; by proj).
  all: destruct Hd as [Hs' Hq]; split; [done|];
    unfold quiet, recorded, setSelectedBlock in *; repeat case_match; by proj.
Qed.

(** Restoring a snapshot: the history is as it was, the restored document
    is posted, and the page is in step with it. *)
Lemma applySnapshot_log d s :
  ∃ s', applySnapshot d s = Some s'
        ∧ history s' = history s ∧ historyIndex s' = historyIndex s
        ∧ saved s' = saved s ++ [snapshot_of s']
        ∧ isApplyingHistory s' = false ∧ in_sync s'.
Proof.
  unfold applySnapshot, deepClone. set (s3 := set_arrows _ _).
  pose proof (loadCodeBlocks_frame s3) as (Hp & Har & Hh & Hhi & Hap & _ & _ & Hsv).
  rewrite saveData_Some by apply loadCodeBlocks_in_sync. simpl.
  eexists. split; [done|]. unfold in_sync, snapshot_of. proj.
  rewrite Hh, Hhi, Hsv, dom_read_back_all. split_and!; try done.
  apply loadCodeBlocks_in_sync.
Qed.

Lemma undo_eff s s' :
  steady s → undo s = Some s' →
  steady s' ∧ (quiet s s' ∨ moved (-1) s s').
Proof.
  intros (Hs & Ha & Hi). unfold undo, canUndo.
  destruct (Z.ltb_spec 0 (historyIndex s)) as [Hpos|Hle].
  - rewrite history_at_lookup by (proj; lia). proj.
    destruct (history s !! Z.to_nat (historyIndex s - 1)) as [d|]; [|done]. simpl.
    destruct (applySnapshot_log d (set_historyIndex (historyIndex s - 1) s))
      as (s1 & Happ & Hh & Hhi & Hsv & Hap & Hsync).
    rewrite Happ. intros [= <-]. proj. split.
    + unfold steady. rewrite Hh, Hhi. split_and!; try done; lia.
    + right. unfold moved. rewrite Hh, Hhi, Hsv. split_and!; try done; lia.
  - intros [= <-]. split; [done|]. by left.
Qed.

Lemma redo_eff s s' :
  steady s → redo s = Some s' →
  steady s' ∧ (quiet s s' ∨ moved 1 s s').
Proof.
  intros (Hs & Ha & Hi). unfold redo, canRedo.
  destruct (Z.leb_spec 0 (historyIndex s)) as [Hpos|Hle]; [|lia].
  destruct (Z.ltb_spec (historyIndex s) (Z.of_nat (length (history s)) - 1)) as [Hlt|Hge].
  - simpl. rewrite history_at_lookup by (proj; lia). proj.
    destruct (history s !! Z.to_nat (historyIndex s + 1)) as [d|]; [|done]. simpl.
    destruct (applySnapshot_log d (set_historyIndex (historyIndex s + 1) s))
      as (s1 & Happ & Hh & Hhi & Hsv & Hap & Hsync).
    rewrite Happ. intros [= <-]. proj. split.
    + unfold steady. rewrite Hh, Hhi. split_and!; try done; lia.
    + right. unfold moved. rewrite Hh, Hhi, Hsv. split_and!; try done.
  - intros [= <-]. split; [done|]. by left.
Qed.




Lemma handle_eff e s s' :
  steady s → handle e s = Some s' →
  steady s'
  ∧ (quiet s s' ∨ recorded s s'
     ∨ (e = UndoKey ∧ moved (-1) s s') ∨ (e = RedoKey ∧ moved 1 s s')).
Proof.
  intros Hst H.
  assert (eff s s' → steady s'
          ∧ (quiet s s' ∨ recorded s s'
             ∨ (e = UndoKey ∧ moved (-1) s s') ∨ (e = RedoKey ∧ moved 1 s s'))) as Heff.
  { intros [? [?|?]]; auto. }
  destruct e; simpl in H.
  - injection H as <-. apply Heff, frame6_eff; [done|frame].
  - injection H as <-. apply Heff, frame6_eff; [done|frame].
  - by apply Heff, (canvasClick_eff target).
  - injection H as <-. apply Heff, frame6_eff; [done|frame].
  - injection H as <-. apply Heff, frame6_eff; [done|frame].
  - injection H as <-. apply Heff, frame6_eff; [done|frame].
  - by apply Heff, deleteKey_eff.
  - destruct (undo_eff s s' Hst H) as [Hs' [Hq|Hm]]; (split; [done|]);
      [by left|right; right; left; done].
  - destruct (redo_eff s s' Hst H) as [Hs' [Hq|Hm]]; (split; [done|]);
      [by left|right; right; right; done].
  - by apply Heff, (deleteBlock_eff blockName).
  - by apply Heff, (moveBlockToTop_eff blockName).
  - by apply Heff, (moveBlockToBottom_eff blockName).
  - by apply Heff, (createPastedBlockAt_eff canvas xClient yClient payload).
  - apply Heff. unfold pageNameBlur in H. apply (record_eff s _ s' Hst) in H; [done|frame].
Qed.

Lemma updateMessage_log (data : CodeMapData) (s : State) :
  isApplyingHistory s = false →
  -1 ≤ historyIndex s < Z.of_nat (length (history s)) →
  let s1 := updateMessage data s in
  snapshot_of s1
  = mkData (page_name data) (with_default_names (codeMap data)) (d_arrows data)
  ∧ history s1 = take (Z.to_nat (historyIndex s + 1)) (history s) ++ [snapshot_of s1]
  ∧ historyIndex s1 = historyIndex s + 1
  ∧ saved s1 = saved s
  ∧ isApplyingHistory s1 = false
  ∧ rendered s1.
Proof.
  intros Ha Hi s1. subst s1. unfold updateMessage.
  set (s0 := set_arrows _ _).
  pose proof (loadCodeBlocks_frame s0) as (Hp & Har & Hh & Hhi & Hap & _ & _ & Hsv).
  change (history s0) with (history s) in Hh.
  change (historyIndex s0) with (historyIndex s) in Hhi.
  change (isApplyingHistory s0) with (isApplyingHistory s) in Hap.
  change (saved s0) with (saved s) in Hsv.
  change (st_page_name s0) with (page_name data) in Hp.
  change (arrows s0) with (d_arrows data) in Har.
  pose proof (loadCodeBlocks_rendered s0) as Hrend.
  pose proof (loadCodeBlocks_codeMap s0) as Hcm.
  change (st_codeMap s0) with (codeMap data) in Hcm.
  set (t := loadCodeBlocks s0) in *.
  rewrite recordSnapshot_spec by (rewrite Hhi, Hh; lia).
  rewrite Hh, Hhi.
  assert (snapshot_of t
          = mkData (page_name data) (with_default_names (codeMap data)) (d_arrows data))
    as Hsnap.
  { unfold snapshot_of. by rewrite Hp, Har, Hcm. }
  set (s1 := set_historyIndex _ _).
  assert (snapshot_of s1 = snapshot_of t) as Hs1 by done.
  rewrite Hs1. subst s1. proj. rewrite Hap.
  split_and!; done.
Qed.














Lemma run_steady es s s' : steady s → run es s = Some s' → steady s'.
Proof.
  revert s. induction es as [|e es IH]; intros s Hst; simpl.
  - by intros [= <-].
  - destruct (handle e s) as [s1|] eqn:E; [|done]. simpl.
    apply IH. by destruct (handle_eff e s s1 Hst E).
Qed.




(** ** Escaping the page title *)

Lemma escape_map_cases m :
  (m = "&"%string ∧ escape_map m = Some "&amp;"%string)
  ∨ (m = "<"%string ∧ escape_map m = Some "&lt;"%string)
  ∨ (m = ">"%string ∧ escape_map m = Some "&gt;"%string)
  ∨ (m = quot ∧ escape_map m = Some "&quot;"%string)
  ∨ (m = "'"%string ∧ escape_map m = Some "&#039;"%string)
  ∨ (escape_map m = None
     ∧ m ≠ "&"%string ∧ m ≠ "<"%string ∧ m ≠ ">"%string ∧ m ≠ quot ∧ m ≠ "'"%string).
Proof.
  unfold escape_map.
  destruct (String.eqb_spec m "&") as [->|?]; [by left|].
  destruct (String.eqb_spec m "<") as [->|?]; [by right; left|].
  destruct (String.eqb_spec m ">") as [->|?]; [by right; right; left|].
  destruct (String.eqb_spec m quot) as [->|?]; [by right; right; right; left|].
  destruct (String.eqb_spec m "'") as [->|?]; [by right; right; right; right; left|].
  by do 5 right.
Qed.

Lemma app_cons x s t : String x s +:+ t = String x (s +:+ t).
Proof. reflexivity. Qed.

Lemma app_nil t : "" +:+ t = t.
Proof. reflexivity. Qed.

Lemma chars_app s1 s2 : chars (s1 +:+ s2) = chars s1 ++ chars s2.
Proof.
  induction s1 as [|a s1 IH]; [done|]. rewrite app_cons. simpl. by rewrite IH.
Qed.

Lemma string_app_assoc (s1 s2 s3 : string) : s1 +:+ (s2 +:+ s3) = (s1 +:+ s2) +:+ s3.
Proof.
  induction s1 as [|x s1 IH]; [done|]. rewrite !app_cons. by rewrite IH.
Qed.

Lemma escapeHtml_app a b : escapeHtml (a +:+ b) = escapeHtml a +:+ escapeHtml b.
Proof.
  induction a as [|c a IH]; [done|]. rewrite app_cons. simpl. rewrite IH.
  destruct (escape_map _) as [e|]; [|done]. apply string_app_assoc.
Qed.

Lemma escapeHtml_inj a b : escapeHtml a = escapeHtml b → a = b.
Proof.
  revert b. induction a as [|c a IH]; intros [|d b]; simpl.
  - done.
  - destruct (escape_map_cases (String d "")) as
      [[_ ->]|[[_ ->]|[[_ ->]|[[_ ->]|[[_ ->]|[-> _]]]]]];
      rewrite ?app_cons; discriminate.
  - destruct (escape_map_cases (String c "")) as
      [[_ ->]|[[_ ->]|[[_ ->]|[[_ ->]|[[_ ->]|[-> _]]]]]];
      rewrite ?app_cons; discriminate.
  - destruct (escape_map_cases (String c "")) as
      [[Hc ->]|[[Hc ->]|[[Hc ->]|[[Hc ->]|[[Hc ->]|[-> Hc]]]]]];
    destruct (escape_map_cases (String d "")) as
      [[Hd ->]|[[Hd ->]|[[Hd ->]|[[Hd ->]|[[Hd ->]|[-> Hd]]]]]];
    rewrite ?app_cons, ?app_nil; intros H; try discriminate H;
    try (injection Hc as ->); try (injection Hd as ->);
    try (injection H as H; f_equal; by apply IH);
    try (injection H as -> H; f_equal; by apply IH);
    try (injection H as -> _; exfalso; by destruct Hc as (?&?&?&?&?));
    try (injection H as <- _; exfalso; by destruct Hd as (?&?&?&?&?)).
Qed.

(** No entity ends in the middle of the escaped text by accident: the
    semicolon is kept, and nothing else produces one. *)
Lemma escapeHtml_fixed_head c text e :
  escape_map (String c "") = Some e → e +:+ escapeHtml text ≠ String c text.
Proof.
  intros He H.
  assert (String.length text ≤ String.length (escapeHtml text))%nat as Hlen.
  { clear. induction text as [|d text IH]; simpl; [done|].
    destruct (escape_map_cases (String d "")) as
      [[_ ->]|[[_ ->]|[[_ ->]|[[_ ->]|[[_ ->]|[-> _]]]]]];
      rewrite ?app_cons, ?app_nil; simpl; lia. }
  apply (f_equal String.length) in H.
  destruct (escape_map_cases (String c "")) as
    [[_ E]|[[_ E]|[[_ E]|[[_ E]|[[_ E]|[E _]]]]]];
    rewrite E in He; try discriminate He; injection He as <-;
    rewrite ?app_cons, ?app_nil in H; simpl in H; lia.
Qed.

(** X11: the escaped page title holds none of the characters [<], [>],
    double quote and apostrophe, so it cannot open a tag or close an
    attribute where it is put into the page; a text without the five
    special characters, and no other, is returned as it is; escaping is
    one-to-one, so the title can be recovered from its escaped form; and it
    goes through concatenation. *)
Theorem escapeHtml_safe (text : string) :
  (∀ m, m ∈ chars (escapeHtml text) →
        m ≠ "<"%string ∧ m ≠ ">"%string ∧ m ≠ quot ∧ m ≠ "'"%string)
  ∧ ((∀ m, m ∈ chars text → escape_map m = None) ↔ escapeHtml text = text)
  ∧ (∀ other, escapeHtml text = escapeHtml other → text = other)
  ∧ (∀ other, escapeHtml (text +:+ other) = escapeHtml text +:+ escapeHtml other)
  ∧ (String.length text ≤ String.length (escapeHtml text))%nat.
Proof.
  split_and!.
  - induction text as [|c text IH]; simpl; [by intros m Hm%elem_of_nil|].
    intros m.
    destruct (escape_map_cases (String c "")) as
      [[_ ->]|[[_ ->]|[[_ ->]|[[_ ->]|[[_ ->]|[-> Hc]]]]]];
      rewrite ?chars_app; simpl;
      rewrite ?elem_of_cons;
      intros Hm; repeat (destruct Hm as [->|Hm]); try (by apply IH);
      try (split_and!; discriminate).
    destruct Hc as (?&?&?&?&?). done.
  - induction text as [|c text IH]; simpl;
      [split; [done|by intros _ m Hm%elem_of_nil]|].
    split.
    + intros Hall. rewrite (Hall (String c "")) by (by left). f_equal.
      apply IH. intros m Hm. apply Hall. by right.
    + destruct (escape_map (String c "")) as [e|] eqn:E.
      * intros H. by apply escapeHtml_fixed_head in H.
      * intros H. injection H as H. intros m [->|Hm]%elem_of_cons; [done|].
        by apply IH.
  - intros other. apply escapeHtml_inj.
  - intros other. apply escapeHtml_app.
  - induction text as [|c text IH]; simpl; [done|].
    destruct (escape_map_cases (String c "")) as
      [[_ ->]|[[_ ->]|[[_ ->]|[[_ ->]|[[_ ->]|[-> _]]]]]];
      rewrite ?app_cons, ?app_nil; simpl; lia.
Qed.

(** ** The colour panel *)

Lemma arrow_at_Some l i a :
  arrow_at l i = Some a ↔ 0 ≤ i < Z.of_nat (length l) ∧ l !! Z.to_nat i = Some a.
Proof.
  unfold arrow_at. destruct (Z.ltb_spec i 0).
  - split; [done|]. intros [? _]. lia.
  - split.
    + intros H'. split; [|done]. apply lookup_lt_Some in H'. lia.
    + by intros [_ ?].
Qed.

(** X12: a colour chosen in the panel, by the field or by a preset, becomes
    the colour of the panel; when an arrow of the list is selected it
    becomes the colour of that arrow, whose ends and opacity stay, no other
    arrow and no block changes, and one snapshot is recorded and posted;
    when no arrow is selected, or the selection is not an index of the
    list, nothing else changes and nothing is recorded.  The opacity slider
    does the same with the opacity, and ignores a value that is not a
    number. *)
Theorem panel_edits_selected_arrow (s : State) :
  in_sync s → idle s →
  (∀ value,
     arrow_at (arrows s) (selectedArrowIndex s) = None →
     arrowColorInput value s = Some (set_currentArrowColor value s))
  ∧ (∀ v,
     arrow_at (arrows s) (selectedArrowIndex s) = None →
     arrowAlphaInput (Some v) s = Some (set_currentArrowAlpha v s))
  ∧ arrowAlphaInput None s = Some s
  ∧ (∀ a, arrow_at (arrows s) (selectedArrowIndex s) = Some a →
     (∀ value, ∃ s',
        arrowColorInput value s = Some s'
        ∧ currentArrowColor s' = value
        ∧ arrows s' = <[Z.to_nat (selectedArrowIndex s) := set_color (Some value) a]>
                        (arrows s)
        ∧ (∀ j, j ≠ Z.to_nat (selectedArrowIndex s) → arrows s' !! j = arrows s !! j)
        ∧ length (arrows s') = length (arrows s)
        ∧ dom (st_codeMap s') = dom (st_codeMap s)
        ∧ selectedArrowIndex s' = selectedArrowIndex s
        ∧ recorded s s')
     ∧ (∀ v, ∃ s',
        arrowAlphaInput (Some v) s = Some s'
        ∧ currentArrowAlpha s' = v
        ∧ arrows s' = <[Z.to_nat (selectedArrowIndex s) := set_alpha (Some v) a]>
                        (arrows s)
        ∧ (∀ j, j ≠ Z.to_nat (selectedArrowIndex s) → arrows s' !! j = arrows s !! j)
        ∧ length (arrows s') = length (arrows s)
        ∧ dom (st_codeMap s') = dom (st_codeMap s)
        ∧ selectedArrowIndex s' = selectedArrowIndex s
        ∧ recorded s s')).
Proof.
  intros Hsync Hidle. split_and!.
  - intros value Hnone. unfold arrowColorInput. proj. rewrite Hnone.
    by destruct (negb _).
  - intros v Hnone. unfold arrowAlphaInput. proj. rewrite Hnone.
    by destruct (negb _).
  - done.
  - intros a Ha. pose proof Ha as [Hi Hl]%arrow_at_Some. split.
    + intros value. unfold arrowColorInput. proj. rewrite Ha.
      destruct (Z.eqb_spec (selectedArrowIndex s) (-1)) as [E|_]; [lia|]. simpl.
      rewrite recordAndSave_spec; [|done|done].
      eexists. split; [done|]. unfold recorded, snapshot_of. proj.
      split_and!; try done.
      * intros j Hj. by rewrite list_lookup_insert_ne.
      * by rewrite length_insert.
      * by rewrite dom_read_back_all.
    + intros v. unfold arrowAlphaInput. proj. rewrite Ha.
      destruct (Z.eqb_spec (selectedArrowIndex s) (-1)) as [E|_]; [lia|]. simpl.
      rewrite recordAndSave_spec; [|done|done].
      eexists. split; [done|]. unfold recorded, snapshot_of. proj.
      split_and!; try done.
      * intros j Hj. by rewrite list_lookup_insert_ne.
      * by rewrite length_insert.
      * by rewrite dom_read_back_all.
Qed.

Lemma panel_edits_selected_arrow_witness :
  ∃ s', arrowColorInput "#ff0000" (selectArrow 1 (init layers_doc)) = Some s'
        ∧ arrows s' =
            [ {| a_from := mkAnchor "1" 5 10; a_to := mkAnchor "2" 3 4;
                 a_color := Some "#007acc"%string; a_alpha := None |};
              {| a_from := mkAnchor "2" 0 0; a_to := mkAnchor "5" 8 9;
                 a_color := Some "#ff0000"%string; a_alpha := None |} ]
        ∧ recorded (selectArrow 1 (init layers_doc)) s'.
Proof.
  destruct (panel_edits_selected_arrow (selectArrow 1 (init layers_doc)))
    as (_ & _ & _ & H).
  - unfold in_sync. vm_compute. intros x. exact (λ H, H).
  - split; [reflexivity|]. vm_compute. split; easy.
  - destruct (H {| a_from := mkAnchor "2" 0 0; a_to := mkAnchor "5" 8 9;
                   a_color := Some "#007acc"%string; a_alpha := None |} eq_refl)
      as [Hc _].
    destruct (Hc "#ff0000"%string) as (s' & Hin & _ & Har & _ & _ & _ & _ & Hrec).
    exists s'. split; [exact Hin|]. split; [exact Har|exact Hrec].
Defined.

(** ** The Delete key *)

Lemma deleteBlock_spec (s : State) (B : string) (blk : CodeBlock) :
  st_codeMap s !! B = Some blk → idle s →
  ∃ s', deleteBlock B s = Some s'
        ∧ st_codeMap s' !! B = None
        ∧ arrows s' = filter (λ a, keeps B a = true) (arrows s)
        ∧ (∀ k, k ≠ B → st_codeMap s' !! k = settle k <$> st_codeMap s !! k)
        ∧ selectedBlockName s'
          = selectedBlockName (loadCodeBlocks (set_codeMap (delete B (st_codeMap s)) s))
        ∧ selectedArrowIndex s' = selectedArrowIndex s
        ∧ editingArrowEndpoint s' = editingArrowEndpoint s
        ∧ recorded s s'.
Proof.
  intros HB Hidle. unfold deleteBlock. rewrite HB.
  set (s2 := set_arrows _ _).
  pose proof (loadCodeBlocks_frame s2) as (Hp & Har & Hh & Hhi & Hap & _ & _ & Hsv).
  rewrite recordAndSave_spec; [|apply loadCodeBlocks_in_sync|].
  2:{ destruct Hidle as [??]. split; [by rewrite Hap|by rewrite Hhi, Hh]. }
  eexists. split; [done|]. unfold recorded, snapshot_of. proj.
  rewrite loadCodeBlocks_codeMap, loadCodeBlocks_codeBlocks, Hp, Har, Hh, Hhi, Hsv.
  subst s2. proj. split_and!; try done.
  - by rewrite lookup_load_save, lookup_delete_eq.
  - intros k Hk. by rewrite lookup_load_save, lookup_delete_ne.
  - unfold loadCodeBlocks. proj. repeat case_match; by proj.
  - unfold loadCodeBlocks. proj. repeat case_match; by proj.
  - unfold loadCodeBlocks. proj. repeat case_match; by proj.
Qed.

(** X13: the Delete key removes the selected arrow, and only it: the arrow
    at the selected index leaves the list, the arrows after it move up by
    one, the selection and the endpoint editing are cleared, no block is
    deleted even when one is selected too, and one snapshot is recorded.
    With a selection that is not an index of the list the key deletes
    nothing, the selected block included.  With no arrow selected it
    deletes the selected block and the arrows that touch it, and clears the
    block selection.  With nothing selected it only leaves endpoint
    editing. *)
Theorem deleteKey_priority (s : State) :
  in_sync s → idle s →
  let s1 := match editingArrowEndpoint s with
            | Some _ => set_editingArrowEndpoint None s
            | None => s
            end in
  (0 ≤ selectedArrowIndex s < Z.of_nat (length (arrows s)) →
   ∃ s', deleteKey s = Some s'
         ∧ arrows s' = take (Z.to_nat (selectedArrowIndex s)) (arrows s)
                       ++ drop (S (Z.to_nat (selectedArrowIndex s))) (arrows s)
         ∧ S (length (arrows s')) = length (arrows s)
         ∧ selectedArrowIndex s' = -1
         ∧ editingArrowEndpoint s' = None
         ∧ dom (st_codeMap s') = dom (st_codeMap s)
         ∧ selectedBlockName s' = selectedBlockName s
         ∧ recorded s s')
  ∧ (selectedArrowIndex s ≠ -1 →
     ¬ (0 ≤ selectedArrowIndex s < Z.of_nat (length (arrows s))) →
     deleteKey s = Some s1)
  ∧ (selectedArrowIndex s = -1 →
     ∀ bn blk, selectedBlockName s = Some bn → bn ≠ ""%string →
       st_codeMap s !! bn = Some blk →
       ∃ s', deleteKey s = Some s'
             ∧ st_codeMap s' !! bn = None
             ∧ (∀ k, k ≠ bn → st_codeMap s' !! k = settle k <$> st_codeMap s !! k)
             ∧ arrows s' = filter (λ a, keeps bn a = true) (arrows s)
             ∧ selectedBlockName s' = None
             ∧ editingArrowEndpoint s' = None
             ∧ recorded s s')
  ∧ (selectedArrowIndex s = -1 → selectedBlockName s = None →
     deleteKey s = Some s1).
Proof.
  intros Hsync Hidle s1.
  assert (idle s1 ∧ in_sync s1 ∧ selectedArrowIndex s1 = selectedArrowIndex s
          ∧ arrows s1 = arrows s ∧ st_codeMap s1 = st_codeMap s
          ∧ selectedBlockName s1 = selectedBlockName s
          ∧ history s1 = history s ∧ historyIndex s1 = historyIndex s
          ∧ saved s1 = saved s ∧ st_page_name s1 = st_page_name s)
    as (Hidle1 & Hsync1 & Hsel1 & Har1 & Hcm1 & Hbn1 & Hh1 & Hhi1 & Hsv1 & Hp1).
  { subst s1. destruct (editingArrowEndpoint s); by split_and!. }
  split_and!.
  - intros Hi. unfold deleteKey. fold s1. rewrite Hsel1.
    destruct (Z.eqb_spec (selectedArrowIndex s) (-1)) as [E|_]; [lia|]. simpl.
    unfold deleteSelectedArrow, in_range. rewrite Hsel1, Har1.
    destruct (Z.ltb_spec (selectedArrowIndex s) 0); [lia|].
    destruct (Z.leb_spec (Z.of_nat (length (arrows s))) (selectedArrowIndex s)); [lia|].
    simpl.
    rewrite recordAndSave_spec.
    2:{ unfold in_sync, clearArrowSelection. by proj. }
    2:{ unfold clearArrowSelection. destruct Hidle1. split; by proj. }
    eexists. split; [done|].
    unfold recorded, snapshot_of, clearArrowSelection. proj.
    rewrite Hcm1, Hh1, Hhi1, Hsv1, Hp1, Hbn1.
    assert (Z.to_nat (selectedArrowIndex s) < length (arrows s))%nat as Hlt by lia.
    split_and!; try done.
    + by rewrite delete_take_drop.
    + rewrite length_delete; [lia|]. by apply lookup_lt_is_Some_2.
    + by rewrite dom_read_back_all.
  - intros Hne Hout. unfold deleteKey. fold s1. rewrite Hsel1.
    destruct (Z.eqb_spec (selectedArrowIndex s) (-1)) as [E|_]; [done|]. simpl.
    unfold deleteSelectedArrow, in_range. rewrite Hsel1, Har1.
    destruct (Z.ltb_spec (selectedArrowIndex s) 0); [done|].
    destruct (Z.leb_spec (Z.of_nat (length (arrows s))) (selectedArrowIndex s)); [done|].
    lia.
  - intros Hsel bn blk Hbn Hne Hblk. unfold deleteKey. fold s1.
    rewrite Hsel1, Hsel. simpl. rewrite Hbn1, Hbn, truthy_Some by done.
    unfold deleteSelectedBlock. rewrite Hbn1, Hbn, truthy_Some by done.
    destruct (deleteBlock_spec (setSelectedBlock None s1) bn blk)
      as (s' & Hdel & Hgone & Har & Hother & Hsb & _ & Hed & Hrec).
    { unfold setSelectedBlock. proj. by rewrite Hcm1. }
    { unfold setSelectedBlock. simpl. destruct Hidle1. split; by proj. }
    exists s'. split; [done|].
    unfold recorded, setSelectedBlock in *. simpl in *. proj.
    rewrite Hcm1 in Hother. rewrite Har1 in Har. rewrite Hh1, Hhi1, Hsv1 in Hrec.
    destruct Hrec as (Hr1 & Hr2 & Hr3).
    split_and!; try done.
    rewrite Hed. subst s1.
    destruct (editingArrowEndpoint s) eqn:E; [reflexivity|exact E].
  - intros Hsel Hnone. unfold deleteKey. fold s1. rewrite Hsel1, Hsel. simpl.
    by rewrite Hbn1, Hnone.
Qed.

Lemma deleteKey_priority_witness :
  ∃ s', deleteKey (selectArrow 0 (blockClick "2" (init layers_doc))) = Some s'
        ∧ arrows s' = [ {| a_from := mkAnchor "2" 0 0; a_to := mkAnchor "5" 8 9;
                           a_color := Some "#007acc"%string; a_alpha := None |} ]
        ∧ dom (st_codeMap s') = dom (st_codeMap (init layers_doc))
        ∧ selectedBlockName s' = Some "2"%string.
Proof.
  destruct (deleteKey_priority (selectArrow 0 (blockClick "2" (init layers_doc))))
    as (H & _).
  - unfold in_sync. vm_compute. intros x. exact (λ H, H).
  - split; [reflexivity|]. vm_compute. split; easy.
  - destruct H as (s' & Hd & Har & _ & _ & _ & Hdom & Hbn & _).
    + vm_compute. split; easy.
    + exists s'. split; [exact Hd|]. split; [exact Har|].
      split; [exact Hdom|exact Hbn].
Defined.

(** ** Editing an endpoint *)

Lemma in_range_arrow_at i s :
  in_range i s = true ↔ is_Some (arrow_at (arrows s) i).
Proof.
  unfold in_range, arrow_at.
  destruct (Z.ltb_spec i 0); simpl.
  - split; [done|]. by intros [? ?].
  - destruct (Z.leb_spec (Z.of_nat (length (arrows s))) i); simpl.
    + split; [done|]. intros [a Ha]. apply lookup_lt_Some in Ha. lia.
    + split; [|done]. intros _. apply lookup_lt_is_Some_2. lia.
Qed.

(** X14: while an endpoint of an arrow is being edited, a click on a line of
    a block moves that end of that arrow to the clicked anchor and leaves
    its other end, its colour, its opacity and every other arrow as they
    were; the editing ends, the arrow stays selected, and one snapshot is
    recorded.  A click on the empty canvas only ends the editing.  When the
    index being edited is no longer an index of the list, the click ends
    the editing and changes nothing else.  The arrow mode and a pending
    start are not touched: the click is not taken as a point of a new
    arrow. *)
Theorem endpoint_edit_moves_one_end (s : State) (index : Z) (endpoint : Endpoint) :
  in_sync s → idle s →
  editingArrowEndpoint s = Some (index, endpoint) →
  canvasClick None s = Some (set_editingArrowEndpoint None s)
  ∧ (∀ click blockName xOffset yOffset,
       lc_block click = Some blockName → blockName ≠ ""%string →
       getOffsetsFromClick (lc_content click) (lc_clientX click) (lc_clientY click)
       = Some (xOffset, yOffset) →
       (arrow_at (arrows s) index = None →
        canvasClick (Some click) s = Some (set_editingArrowEndpoint None s))
       ∧ (∀ a, arrow_at (arrows s) index = Some a →
          let p := mkAnchor blockName xOffset yOffset in
          ∃ s', canvasClick (Some click) s = Some s'
                ∧ arrows s' = <[Z.to_nat index := set_end endpoint p a]> (arrows s)
                ∧ (∀ j, j ≠ Z.to_nat index → arrows s' !! j = arrows s !! j)
                ∧ (endpoint = EFrom →
                   a_from (set_end endpoint p a) = p
                   ∧ a_to (set_end endpoint p a) = a_to a)
                ∧ (endpoint = ETo →
                   a_to (set_end endpoint p a) = p
                   ∧ a_from (set_end endpoint p a) = a_from a)
                ∧ a_color (set_end endpoint p a) = a_color a
                ∧ a_alpha (set_end endpoint p a) = a_alpha a
                ∧ editingArrowEndpoint s' = None
                ∧ selectedArrowIndex s' = selectedArrowIndex s
                ∧ arrowMode s' = arrowMode s
                ∧ arrowStart s' = arrowStart s
                ∧ dom (st_codeMap s') = dom (st_codeMap s)
                ∧ recorded s s')).
Proof.
  intros Hsync Hidle Hed. split.
  { unfold canvasClick. by rewrite Hed. }
  intros click blockName xOffset yOffset Hb Hne Hoff.
  assert (canvasClick (Some click) s
          = updateArrowEndpointTo index endpoint blockName xOffset yOffset
              (set_editingArrowEndpoint None s)) as ->.
  { unfold canvasClick. by rewrite Hed, Hb, truthy_Some, Hoff by done. }
  split.
  - intros Hnone. unfold updateArrowEndpointTo.
    destruct (in_range index _) eqn:E; [|done].
    apply in_range_arrow_at in E. proj. rewrite Hnone in E. by destruct E.
  - intros a Ha p. unfold updateArrowEndpointTo.
    assert (in_range index (set_editingArrowEndpoint None s) = true) as ->.
    { apply in_range_arrow_at. proj. rewrite Ha. eauto. }
    apply arrow_at_Some in Ha as [Hi Hl]. proj. rewrite Hl.
    rewrite recordAndSave_spec.
    2:{ unfold in_sync. by proj. }
    2:{ destruct Hidle. split; by proj. }
    eexists. split; [done|]. unfold recorded, snapshot_of. proj.
    split_and!; try done.
    + intros j Hj. by rewrite list_lookup_insert_ne.
    + by intros ->.
    + by intros ->.
    + by destruct endpoint.
    + by destruct endpoint.
    + by rewrite dom_read_back_all.
Qed.

Lemma endpoint_edit_moves_one_end_witness :
  ∃ s', canvasClick (Some (click_on "5" 300 200))
          (beginEditArrowEndpoint 0 ETo (init layers_doc)) = Some s'
        ∧ arrows s' =
            [ {| a_from := mkAnchor "1" 5 10; a_to := mkAnchor "5" 262 338;
                 a_color := Some "#007acc"%string; a_alpha := None |};
              {| a_from := mkAnchor "2" 0 0; a_to := mkAnchor "5" 8 9;
                 a_color := Some "#007acc"%string; a_alpha := None |} ]
        ∧ editingArrowEndpoint s' = None
        ∧ selectedArrowIndex s' = 0.
Proof.
  destruct (endpoint_edit_moves_one_end
              (beginEditArrowEndpoint 0 ETo (init layers_doc)) 0 ETo) as [_ H].
  - unfold in_sync. vm_compute. intros x. exact (λ H, H).
  - split; [reflexivity|]. vm_compute. split; easy.
  - reflexivity.
  - destruct (H (click_on "5" 300 200) "5"%string 262 338 eq_refl) as [_ H'];
      [discriminate|reflexivity|].
    destruct (H' {| a_from := mkAnchor "1" 5 10; a_to := mkAnchor "2" 3 4;
                    a_color := Some "#007acc"%string; a_alpha := None |} eq_refl)
      as (s' & Hc & Har & _ & _ & _ & _ & _ & Hed & Hsel & _).
    exists s'. split; [exact Hc|]. split; [exact Har|]. split; [exact Hed|exact Hsel].
Defined.

(** ** Invariants of the controller *)
























(** ** Adding a block from the editor *)

Lemma with_default_names_stable (cm : gmap string CodeBlock) :
  map_Forall (λ _ b, block_ok b) cm →
  map_Forall (λ id b, settle id b = b) (with_default_names cm).
Proof.
  intros Hok id b. rewrite lookup_with_default_names.
  intros (b0 & Hb0 & ->)%fmap_Some. apply settle_ok.
  - unfold with_default_name. destruct (b_name b0) eqn:E; simpl; [by rewrite E|eauto].
  - specialize (Hok id b0 Hb0). simpl in Hok.
    unfold block_ok, with_default_name in *. by destruct (b_name b0).
Qed.

Lemma updateMessage_spec (data : CodeMapData) (s : State) :
  history_inv s →
  map_Forall (λ _ b, block_ok b) (codeMap data) →
  let s1 := updateMessage data s in
  history_inv s1
  ∧ snapshot_of s1
    = mkData (page_name data) (with_default_names (codeMap data)) (d_arrows data)
  ∧ history s1 = take (Z.to_nat (historyIndex s + 1)) (history s) ++ [snapshot_of s1]
  ∧ historyIndex s1 = historyIndex s + 1
  ∧ saved s1 = saved s.
Proof.
  intros (Ha & Hi & Hr & Hst & Hcur) Hok s1. subst s1. unfold updateMessage.
  set (s0 := set_arrows _ _).
  pose proof (loadCodeBlocks_frame s0) as (Hp & Har & Hh & Hhi & Hap & _ & _ & Hsv).
  change (history s0) with (history s) in Hh.
  change (historyIndex s0) with (historyIndex s) in Hhi.
  change (isApplyingHistory s0) with (isApplyingHistory s) in Hap.
  change (saved s0) with (saved s) in Hsv.
  change (st_page_name s0) with (page_name data) in Hp.
  change (arrows s0) with (d_arrows data) in Har.
  pose proof (loadCodeBlocks_rendered s0) as Hrend.
  pose proof (loadCodeBlocks_codeMap s0) as Hcm.
  change (st_codeMap s0) with (codeMap data) in Hcm.
  set (t := loadCodeBlocks s0) in *.
  rewrite recordSnapshot_spec by (rewrite Hhi, Hh; lia).
  rewrite Hh, Hhi.
  assert (snapshot_of t
          = mkData (page_name data) (with_default_names (codeMap data)) (d_arrows data))
    as Hsnap.
  { unfold snapshot_of. by rewrite Hp, Har, Hcm. }
  set (s1 := set_historyIndex _ _).
  assert (snapshot_of s1 = snapshot_of t) as Hs1 by done.
  rewrite Hs1. split_and!; try done.
  unfold history_inv. rewrite Hs1. subst s1. proj. rewrite Hap.
  split_and!; try done; try lia;
    try (rewrite length_app, length_take; simpl; lia);
    try (eapply rendered_ext; [| |exact Hrend]; done);
    try (apply Forall_app; split; [by apply Forall_take|];
         apply Forall_singleton; rewrite Hsnap; unfold stable_doc; simpl;
         by apply with_default_names_stable).
  rewrite lookup_app_r; rewrite length_take; [|lia].
  replace (Z.to_nat (historyIndex s + 1) - _)%nat with 0%nat by lia. done.
Qed.

Lemma undo_then_redo (s1 : State) (d d1 : CodeMapData) :
  0 < historyIndex s1 < Z.of_nat (length (history s1)) →
  history s1 !! Z.to_nat (historyIndex s1 - 1) = Some d →
  stable_doc d →
  history s1 !! Z.to_nat (historyIndex s1) = Some d1 →
  stable_doc d1 →
  ∃ s2, undo s1 = Some s2
        ∧ snapshot_of s2 = d
        ∧ saved s2 = saved s1 ++ [d]
        ∧ historyIndex s2 = historyIndex s1 - 1
        ∧ ∃ s3, redo s2 = Some s3 ∧ snapshot_of s3 = d1.
Proof.
  intros Hi Hd Hst Hd1 Hst1.
  destruct (applySnapshot_spec d (set_historyIndex (historyIndex s1 - 1) s1) Hst)
    as (s2 & Happ2 & Hsnap2 & _ & Ha2 & Hh2 & Hhi2 & Hsv2).
  revert Hh2 Hhi2 Hsv2. proj. intros Hh2 Hhi2 Hsv2.
  exists s2. split.
  { unfold undo, canUndo. destruct (Z.ltb_spec 0 (historyIndex s1)); [|lia].
    cbv zeta. rewrite history_at_lookup by (proj; lia). proj.
    rewrite Hd. exact Happ2. }
  split; [done|]. split; [done|]. split; [done|].
  destruct (applySnapshot_spec d1 (set_historyIndex (historyIndex s2 + 1) s2) Hst1)
    as (s3 & Happ3 & Hsnap3 & _).
  exists s3. split; [|done].
  unfold redo, canRedo. destruct (Z.leb_spec 0 (historyIndex s2)); [|lia].
  destruct (Z.ltb_spec (historyIndex s2) (Z.of_nat (length (history s2)) - 1)) as [|Hge];
    [|rewrite Hh2, Hhi2 in Hge; lia].
  simpl. rewrite history_at_lookup by lia. proj.
  rewrite Hh2. replace (historyIndex s2 + 1) with (historyIndex s1) in * by lia.
  rewrite Hd1. exact Happ3.
Qed.

(** X16: the add-to-map command and the page together.  When the largest
    numeric id of the file is below [2^53] the command gives the new block
    the id one above it, which no block has, and leaves the other blocks,
    the arrows and the title of the file as they are.  When the page
    receives the new file, the block is on the page under that id, one
    snapshot is recorded after the cursor and nothing is posted back.  An
    undo then restores the document [d] that was at the cursor of the
    history before the message, the last one the page recorded, and posts
    it, so the file is without the added block again when [d] was; a redo
    after it brings the added block back.  The blocks of the file and of
    [d] are at least [MIN_W] by [MIN_H]. *)
Theorem add_to_map_then_undo (s : State) (data : CodeMapData) (filePath : string)
    (startLine endLine : Z) (d : CodeMapData) :
  isApplyingHistory s = false →
  0 ≤ historyIndex s < Z.of_nat (length (history s)) →
  history s !! Z.to_nat (historyIndex s) = Some d →
  stable_doc d →
  map_Forall (λ _ b, block_ok b) (codeMap data) →
  (maxNumeric (codeMap data) < two53)%N →
  ∃ name data' newBlock,
    addToMap data filePath startLine endLine = Some (name, data')
    ∧ name = StringN (maxNumeric (codeMap data) + 1)
    ∧ name = decimal (maxNumeric (codeMap data) + 1)
    ∧ codeMap data !! name = None
    ∧ newBlock = {| b_name := Some name; b_path := filePath;
                    b_start_line := startLine; b_end_line := endLine;
                    b_x := Z.of_nat (size (codeMap data)) * 50 + 50;
                    b_y := Z.of_nat (size (codeMap data)) * 50 + 50;
                    b_w := 400; b_h := 300 |}
    ∧ codeMap data' = <[name := newBlock]> (codeMap data)
    ∧ d_arrows data' = d_arrows data ∧ page_name data' = page_name data
    ∧ let s1 := updateMessage data' s in
      st_codeMap s1 !! name = Some newBlock
      ∧ is_Some (codeBlocks s1 !! name)
      ∧ history s1 = take (Z.to_nat (historyIndex s + 1)) (history s)
                     ++ [snapshot_of s1]
      ∧ historyIndex s1 = historyIndex s + 1
      ∧ saved s1 = saved s
      ∧ ∃ s2, undo s1 = Some s2
              ∧ snapshot_of s2 = d
              ∧ saved s2 = saved s ++ [d]
              ∧ historyIndex s2 = historyIndex s
              ∧ ∃ s3, redo s2 = Some s3
                      ∧ snapshot_of s3 = snapshot_of s1
                      ∧ st_codeMap s3 !! name = Some newBlock.
Proof.
  intros Ha Hi Hd Hst Hok Hsafe. unfold addToMap.
  rewrite addToMap_blockName_eq by done.
  change (Some ?x ≫= ?f) with (f x). cbv beta zeta.
  set (name := StringN (maxNumeric (codeMap data) + 1)).
  set (newBlock := mkBlock (Some name) _ _ _ _ _ _ _).
  set (data' := mkData _ _ _).
  exists name, data', newBlock.
  assert (map_Forall (λ _ b, block_ok b) (codeMap data')) as Hok'.
  { apply map_Forall_insert_2; [|done]. unfold block_ok, MIN_W, MIN_H. simpl. lia. }
  destruct (updateMessage_log data' s Ha ltac:(lia))
    as (Hsnap1 & Hh1 & Hhi1 & Hsv1 & Ha1 & Hr1).
  cbv zeta. set (s1 := updateMessage data' s) in *.
  assert (st_codeMap s1 = with_default_names (codeMap data')) as Hcm1.
  { apply (f_equal codeMap) in Hsnap1. exact Hsnap1. }
  assert (st_codeMap s1 !! name = Some newBlock) as Hnew.
  { rewrite Hcm1. unfold data'. cbn [codeMap].
    by rewrite lookup_with_default_names, lookup_insert_eq. }
  assert (stable_doc (snapshot_of s1)) as Hst1.
  { rewrite Hsnap1. unfold stable_doc. simpl. by apply with_default_names_stable. }
  split; [done|]. split; [done|]. split; [apply StringN_safe; lia|].
  split; [by apply candidate_free|].
  split; [done|]. split; [done|]. split; [done|]. split; [done|].
  split; [done|]. split.
  { destruct Hr1 as [Hdom _]. rewrite <- elem_of_dom, Hdom, elem_of_dom. eauto. }
  split; [done|]. split; [done|]. split; [done|].
  destruct (undo_then_redo s1 d (snapshot_of s1))
    as (s2 & Hundo & Hsnap2 & Hsv2 & Hhi2 & s3 & Hredo & Hsnap3); try done.
  - rewrite Hh1, Hhi1, length_app, length_take. simpl. lia.
  - rewrite Hh1, Hhi1.
    replace (Z.to_nat (historyIndex s + 1 - 1)) with (Z.to_nat (historyIndex s)) by lia.
    rewrite lookup_app_l by (rewrite length_take; lia).
    by rewrite lookup_take_lt by lia.
  - rewrite Hh1 at 1. rewrite Hhi1.
    rewrite lookup_app_r by (rewrite length_take; lia).
    rewrite length_take. by replace (_ - _)%nat with 0%nat by lia.
  - exists s2. split; [done|]. split; [done|]. split; [by rewrite Hsv2, Hsv1|].
    split; [lia|]. exists s3. split; [done|]. split; [done|].
    apply (f_equal codeMap) in Hsnap3. unfold snapshot_of in Hsnap3.
    cbn [codeMap] in Hsnap3. by rewrite Hsnap3.
Qed.

Lemma add_to_map_then_undo_witness :
  ∃ data' s2,
    addToMap layers_doc "new.py" 3 8 = Some ("6"%string, data')
    ∧ st_codeMap (updateMessage data' (init layers_doc)) !! "6"
      = Some {| b_name := Some "6"%string; b_path := "new.py";
                b_start_line := 3; b_end_line := 8;
                b_x := 200; b_y := 200; b_w := 400; b_h := 300 |}
    ∧ undo (updateMessage data' (init layers_doc)) = Some s2
    ∧ snapshot_of s2 = snapshot_of (init layers_doc).
Proof.
  destruct (init_history_inv layers_doc layers_doc_ok) as ((Ha & Hi & _ & Hst & Hcur) & _).
  destruct (add_to_map_then_undo (init layers_doc) layers_doc "new.py" 3 8
              (snapshot_of (init layers_doc)))
    as (name & data' & newBlock & Hadd & -> & _ & _ & -> & _ & _ & _ & Hnew & _ & _ & _ & _
        & s2 & Hundo & Hsnap & _).
  - exact Ha.
  - exact Hi.
  - exact Hcur.
  - eapply Forall_lookup_1; [exact Hst|exact Hcur].
  - apply layers_doc_ok.
  - vm_compute. reflexivity.
  - exists data', s2. split; [exact Hadd|]. split; [exact Hnew|].
    split; [exact Hundo|exact Hsnap].
Defined.

(** ** Moving a block to the bottom *)

Lemma foldl_reverse_shift l acc : foldl shift_up acc (reverse l) = shift_all l acc.
Proof.
  unfold shift_all. induction l as [|id l IH]; [done|].
  rewrite reverse_cons, foldl_app. simpl. by rewrite IH.
Qed.

Lemma shift_all_arrows l cmX ar :
  (shift_all l (cmX, ar)).2 = map_ends (renames l) <$> ar.
Proof.
  induction l as [|id l IH].
  - simpl. rewrite <- (list_fmap_id ar) at 1. apply list_fmap_ext.
    intros _ [f t c al] _. done.
  - change (shift_all (id :: l) (cmX, ar))
      with (shift_up (shift_all l (cmX, ar)) id).
    unfold shift_up. cbn [snd]. rewrite IH.
    rewrite <- list_fmap_compose. apply list_fmap_ext. by intros _ [f t c al] _.
Qed.

Lemma renames_spec (l : list N) (p : Anchor) :
  StronglySorted N.lt l → Forall (λ id, (id < two53)%N) l →
  (∀ id, id ∈ l → block p = StringN id → renames l p = set_block (StringN (id + 1)) p)
  ∧ ((∀ id, id ∈ l → block p ≠ StringN id) → renames l p = p).
Proof.
  induction 1 as [|s rest Hs IH Hall]; intros Hb; simpl.
  - split; [by intros id Hid%elem_of_nil|done].
  - apply Forall_cons in Hb as [Hs53 Hb]. destruct (IH Hb) as [IHa IHb].
    rewrite Forall_forall in Hall, Hb. rewrite addD_safe by lia. split.
    + intros id [->|Hid]%elem_of_cons Hp.
      * rewrite IHb.
        -- unfold rename_end. by rewrite Hp, String.eqb_refl.
        -- intros id Hid. rewrite Hp. specialize (Hall id Hid). specialize (Hb id Hid).
           apply StringN_ne; lia.
      * fold (renames rest p). rewrite (IHa id Hid Hp). unfold rename_end. simpl.
        destruct (String.eqb_spec (StringN (id + 1)) (StringN s)) as [E|_]; [|done].
        specialize (Hall id Hid). specialize (Hb id Hid).
        apply StringN_inj in E; lia.
    + intros Hno. fold (renames rest p). rewrite IHb.
      * unfold rename_end.
        destruct (String.eqb_spec (block p) (StringN s)) as [E|_]; [|done].
        exfalso. apply (Hno s); [by left|done].
      * intros id Hid. apply Hno. by right.
Qed.

Lemma shift_all_lookup (l : list N) (cm1 : gmap string (option CodeBlock))
    (ar : list Arrow) :
  StronglySorted N.lt l → Forall (λ id, (id < two53)%N) l →
  (∀ id, id ∈ l →
     (shift_all l (cm1, ar)).1 !! StringN (id + 1) = Some (read cm1 (StringN id)))
  ∧ (∀ id, id ∈ l → (∀ id', id' ∈ l → id ≠ (id' + 1)%N) →
     (shift_all l (cm1, ar)).1 !! StringN id = None)
  ∧ (∀ k, (∀ id, id ∈ l → k ≠ StringN id ∧ k ≠ StringN (id + 1)) →
     (shift_all l (cm1, ar)).1 !! k = cm1 !! k).
Proof.
  induction 1 as [|s rest Hs IH Hall]; intros Hb.
  - split_and!; [by intros id Hid%elem_of_nil..|done].
  - apply Forall_cons in Hb as [Hs53 Hb].
    destruct (IH Hb) as (IHa & IHb & IHc). rewrite Forall_forall in Hall, Hb.
    change (shift_all (s :: rest) (cm1, ar))
      with (shift_up (shift_all rest (cm1, ar)) s).
    unfold shift_up. cbn [fst]. rewrite addD_safe by lia.
    set (cmR := (shift_all rest (cm1, ar)).1) in *.
    assert (read cmR (StringN s) = read cm1 (StringN s)) as Hread.
    { unfold read. rewrite IHc; [done|]. intros id Hid. specialize (Hall id Hid).
      specialize (Hb id Hid). split; apply StringN_ne; lia. }
    rewrite Hread. split_and!.
    + intros id [->|Hid]%elem_of_cons.
      * rewrite lookup_delete_ne by (apply StringN_ne; lia).
        by rewrite lookup_insert_eq.
      * specialize (Hall id Hid). specialize (Hb id Hid).
        rewrite lookup_delete_ne by (apply StringN_ne; lia).
        rewrite lookup_insert_ne by (apply StringN_ne; lia). by apply IHa.
    + intros id [->|Hid]%elem_of_cons Hnot.
      * by rewrite lookup_delete_eq.
      * specialize (Hall id Hid). specialize (Hb id Hid).
        rewrite lookup_delete_ne by (apply StringN_ne; lia).
        rewrite lookup_insert_ne.
        -- apply IHb; [done|]. intros id' Hid'. apply Hnot. by right.
        -- apply StringN_ne; [lia..|]. intros E. apply (Hnot s); [by left|done].
    + intros k Hk. destruct (Hk s ltac:(by left)) as [Hk1 Hk2].
      rewrite lookup_delete_ne by done. rewrite lookup_insert_ne by done.
      apply IHc. intros id Hid. apply Hk. by right.
Qed.

Section bottom.
Variables (cm : gmap string CodeBlock) (blockId : string) (blk : CodeBlock).
Variables (c minId : N).
Hypothesis Hcan : canonical_ids cm.
Hypothesis Hblk : cm !! blockId = Some blk.
Hypothesis Hnum : numeric_value blockId = Some c.
Hypothesis Hhead : head (getNumericIds cm) = Some minId.
Hypothesis Hlt : (minId < c)%N.
Hypothesis Hc53 : (c ≤ two53)%N.
Hypothesis Ht53 : (minId + 1000 ≤ two53)%N.
Hypothesis Htemp : cm !! StringN (minId + 1000) = None.
Hypothesis H999 : (minId + 999 < c)%N → cm !! StringN (minId + 999) = None.

Let smallerIds := filter (λ id, (id < c)%N) (getNumericIds cm).
Let tempId := StringN (minId + 1000).
Let cm1 : gmap string (option CodeBlock) :=
  delete blockId (<[tempId := Some blk]> (Some <$> cm)).
Let cm3 (ar : list Arrow) : gmap string (option CodeBlock) :=
  delete tempId
    (<[StringN minId := read (shift_all smallerIds (cm1, ar)).1 tempId]>
       (shift_all smallerIds (cm1, ar)).1).

Lemma bottom_blockId : blockId = StringN c.
Proof. symmetry. apply Hcan; [by rewrite Hblk|done]. Qed.

Lemma bottom_ids_strict : StronglySorted N.lt (getNumericIds cm).
Proof. apply sorted_lt; [apply getNumericIds_sorted|by apply getNumericIds_NoDup]. Qed.

Lemma bottom_smaller_sorted : StronglySorted N.lt smallerIds.
Proof. apply sorted_lt_filter, bottom_ids_strict. Qed.

Lemma bottom_smaller_safe : Forall (λ id, (id < two53)%N) smallerIds.
Proof.
  apply Forall_forall. intros id [Hid _]%list_elem_of_filter. simpl in Hid. lia.
Qed.

Lemma bottom_smaller id :
  id ∈ smallerIds ↔ (id < c)%N ∧ is_Some (cm !! StringN id).
Proof.
  unfold smallerIds. rewrite list_elem_of_filter. split.
  - intros [? Hid]. split; [done|]. by apply numeric_key_present.
  - intros [? Hid]. split; [done|]. apply elem_of_getNumericIds.
    exists (StringN id). split; [done|]. apply numeric_value_StringN.
    by apply N.lt_le_incl, (N.lt_le_trans _ c).
Qed.

Lemma bottom_min_least id : id ∈ getNumericIds cm → (minId ≤ id)%N.
Proof.
  intros Hid. destruct (getNumericIds cm) as [|m rest] eqn:E; [done|].
  injection Hhead as ->. rewrite <- E in Hid.
  by apply (sorted_head_min (getNumericIds cm) minId rest bottom_ids_strict).
Qed.

Lemma bottom_min_smaller : minId ∈ smallerIds.
Proof.
  unfold smallerIds. apply list_elem_of_filter. split; [done|].
  destruct (getNumericIds cm) as [|m rest]; [done|].
  injection Hhead as ->. by left.
Qed.

Lemma bottom_temp_fresh id :
  id ∈ smallerIds → tempId ≠ StringN id ∧ tempId ≠ StringN (id + 1).
Proof.
  intros [Hid [b Hb]]%bottom_smaller. unfold tempId. split.
  - intros E. rewrite <- E, Htemp in Hb. done.
  - intros E%StringN_inj; [|lia..]. assert (id = minId + 999)%N as -> by lia.
    rewrite H999 in Hb; done.
Qed.

Lemma bottom_temp_ne : tempId ≠ blockId.
Proof. intros E. rewrite <- E in Hblk. unfold tempId in Hblk. congruence. Qed.

Lemma bottom_cm1_smaller id :
  id ∈ smallerIds → read cm1 (StringN id) = cm !! StringN id.
Proof.
  intros Hid. destruct (bottom_temp_fresh id Hid) as [Hne _].
  apply bottom_smaller in Hid as [Hid _].
  unfold read, cm1. rewrite lookup_delete_ne.
  - rewrite lookup_insert_ne by done. rewrite lookup_fmap.
    by destruct (cm !! StringN id).
  - rewrite bottom_blockId. apply StringN_ne; lia.
Qed.

Lemma bottom_staged ar : (shift_all smallerIds (cm1, ar)).1 !! tempId = Some (Some blk).
Proof.
  destruct (shift_all_lookup smallerIds cm1 ar bottom_smaller_sorted
              bottom_smaller_safe) as (_ & _ & Hc).
  rewrite Hc by apply bottom_temp_fresh.
  unfold cm1. rewrite lookup_delete_ne by (by intros E; apply bottom_temp_ne).
  by rewrite lookup_insert_eq.
Qed.

Lemma bottom_new_min ar : cm3 ar !! StringN minId = Some (Some blk).
Proof.
  unfold cm3. rewrite lookup_delete_ne by (apply StringN_ne; lia).
  rewrite lookup_insert_eq. unfold read. by rewrite bottom_staged.
Qed.

Lemma bottom_shifted ar id :
  id ∈ smallerIds → cm3 ar !! StringN (id + 1) = Some (cm !! StringN id).
Proof.
  intros Hid.
  destruct (shift_all_lookup smallerIds cm1 ar bottom_smaller_sorted
              bottom_smaller_safe) as (Ha & _ & _).
  destruct (bottom_temp_fresh id Hid) as [_ Hne].
  unfold cm3. rewrite lookup_delete_ne by done.
  rewrite lookup_insert_ne.
  - rewrite (Ha id Hid). f_equal. by apply bottom_cm1_smaller.
  - apply bottom_smaller in Hid as [Hid [b Hb]].
    assert (minId ≤ id)%N as Hle.
    { apply bottom_min_least, elem_of_getNumericIds.
      exists (StringN id). split; [by rewrite Hb|apply numeric_value_StringN; lia]. }
    apply StringN_ne; lia.
Qed.

Lemma bottom_unmoved_ne k id :
  unmoved_above c k → id ∈ smallerIds → k ≠ StringN id ∧ k ≠ StringN (id + 1).
Proof.
  intros Hk [Hid _]%bottom_smaller. split; intros ->.
  - specialize (Hk id (numeric_value_StringN id ltac:(lia))). lia.
  - specialize (Hk (id + 1)%N (numeric_value_StringN (id + 1) ltac:(lia))). lia.
Qed.

Lemma bottom_unmoved ar k :
  unmoved_above c k → cm3 ar !! k = Some <$> cm !! k.
Proof.
  intros Hk.
  destruct (shift_all_lookup smallerIds cm1 ar bottom_smaller_sorted
              bottom_smaller_safe) as (_ & _ & Hc).
  unfold cm3. destruct (decide (k = tempId)) as [->|Hne].
  - rewrite lookup_delete_eq. unfold tempId. by rewrite Htemp.
  - rewrite lookup_delete_ne by done. rewrite lookup_insert_ne.
    + rewrite Hc by (intros id Hid; by apply bottom_unmoved_ne).
      unfold cm1. rewrite lookup_delete_ne.
      * rewrite lookup_insert_ne by done. by rewrite lookup_fmap.
      * intros <-. specialize (Hk c Hnum). lia.
    + intros <-. specialize (Hk minId (numeric_value_StringN minId ltac:(lia))). lia.
Qed.

Lemma bottom_dom ar k :
  is_Some (cm3 ar !! k) →
  k = StringN minId
  ∨ (∃ id, id ∈ smallerIds ∧ k = StringN (id + 1))
  ∨ (is_Some (cm !! k) ∧ unmoved_above c k).
Proof.
  intros Hk.
  destruct (decide (k = StringN minId)) as [|Hmin]; [by left|]. right.
  destruct (decide (k ∈ (λ id, StringN (id + 1)) <$> smallerIds)) as [Hin|Hsucc].
  { left. apply list_elem_of_fmap in Hin as (id & -> & Hid). eauto. }
  right.
  assert (∀ id, id ∈ smallerIds → k ≠ StringN (id + 1)) as Hsucc'.
  { intros id Hid ->. apply Hsucc, list_elem_of_fmap. eauto. }
  destruct (shift_all_lookup smallerIds cm1 ar bottom_smaller_sorted
              bottom_smaller_safe) as (_ & Hb & Hc).
  unfold cm3 in Hk. destruct (decide (k = tempId)) as [->|Htmp].
  { rewrite lookup_delete_eq in Hk. by destruct Hk. }
  rewrite lookup_delete_ne in Hk by done. rewrite lookup_insert_ne in Hk by done.
  destruct (decide (k ∈ StringN <$> smallerIds)) as [Hin|Hnot].
  { apply list_elem_of_fmap in Hin as (id & -> & Hid).
    rewrite Hb in Hk; [by destruct Hk|done|].
    intros id' Hid' ->. by apply (Hsucc' id'). }
  assert (∀ id, id ∈ smallerIds → k ≠ StringN id) as Hnot'.
  { intros id Hid ->. apply Hnot, list_elem_of_fmap. eauto. }
  rewrite Hc in Hk by (intros id Hid; split; auto).
  unfold cm1 in Hk. destruct (decide (k = blockId)) as [->|Hbid].
  { rewrite lookup_delete_eq in Hk. by destruct Hk. }
  rewrite lookup_delete_ne in Hk by done. rewrite lookup_insert_ne in Hk by done.
  rewrite lookup_fmap, fmap_is_Some in Hk. split; [done|].
  intros n Hn. pose proof (Hcan k n Hk Hn) as <-.
  destruct (N.lt_trichotomy c n) as [?|[E|Hless]]; [done| |].
  - exfalso. apply Hbid. by rewrite bottom_blockId, E.
  - exfalso. apply (Hnot' n); [|done]. by apply bottom_smaller.
Qed.

Lemma bottom_defined ar : defined_map (cm3 ar) = Some (omap id (cm3 ar)).
Proof.
  unfold defined_map. rewrite bool_decide_eq_true_2; [done|].
  intros k v Hv. destruct (bottom_dom ar k) as [->|[(i & Hi & ->)|[[b Hb] Hun]]].
  - by rewrite Hv.
  - rewrite bottom_new_min in Hv. injection Hv as <-. eauto.
  - rewrite (bottom_shifted ar i Hi) in Hv. injection Hv as <-.
    by apply bottom_smaller in Hi as [_ ?].
  - rewrite (bottom_unmoved ar k Hun), Hb in Hv. injection Hv as <-. eauto.
Qed.

Lemma bottom_end_moved p :
  block p = blockId →
  bottom_end blockId minId smallerIds p = set_block (StringN minId) p.
Proof.
  intros Hp. unfold bottom_end. rewrite (addD_safe minId 1000) by done. fold tempId.
  unfold rename_end at 2. rewrite Hp, String.eqb_refl.
  destruct (renames_spec smallerIds (set_block tempId p) bottom_smaller_sorted
              bottom_smaller_safe)
    as [_ ->].
  - unfold rename_end. simpl. by rewrite String.eqb_refl.
  - intros id Hid. simpl. by apply bottom_temp_fresh.
Qed.

Lemma bottom_end_shifted p id :
  id ∈ smallerIds → block p = StringN id →
  bottom_end blockId minId smallerIds p = set_block (StringN (id + 1)) p.
Proof.
  intros Hid Hp. unfold bottom_end. rewrite (addD_safe minId 1000) by done. fold tempId.
  unfold rename_end at 2.
  destruct (String.eqb_spec (block p) blockId) as [E|_].
  { rewrite Hp, bottom_blockId in E. apply bottom_smaller in Hid as [? _].
    apply StringN_inj in E; lia. }
  destruct (renames_spec smallerIds p bottom_smaller_sorted bottom_smaller_safe) as [Hr _].
  rewrite (Hr id Hid Hp). unfold rename_end. simpl.
  destruct (String.eqb_spec (StringN (id + 1)) tempId) as [E|_]; [|done].
  by destruct (bottom_temp_fresh id Hid) as [_ []].
Qed.

Lemma bottom_end_unmoved p :
  unmoved_above c (block p) → is_Some (cm !! block p) →
  bottom_end blockId minId smallerIds p = p.
Proof.
  intros Hun [b Hb]. unfold bottom_end. rewrite (addD_safe minId 1000) by done. fold tempId.
  unfold rename_end at 2.
  destruct (String.eqb_spec (block p) blockId) as [E|_].
  { rewrite E in Hun. specialize (Hun c Hnum). lia. }
  destruct (renames_spec smallerIds p bottom_smaller_sorted bottom_smaller_safe) as [_ ->].
  - unfold rename_end.
    destruct (String.eqb_spec (block p) tempId) as [E|_]; [|done].
    rewrite E in Hb. unfold tempId in Hb. congruence.
  - intros id Hid. by apply bottom_unmoved_ne.
Qed.

Lemma bottom_eq (s : State) :
  st_codeMap s = cm →
  moveBlockToBottom blockId s
  = recordAndSave
      (loadCodeBlocks
         (set_codeMap (omap id (cm3 (map_ends (rename_end blockId tempId) <$> arrows s)))
            (set_arrows (map_ends (bottom_end blockId minId smallerIds) <$> arrows s) s))).
Proof.
  intros Hcm. unfold moveBlockToBottom.
  destruct (numeric_value_inv _ _ Hnum) as [-> ->]. rewrite Hcm, Hhead.
  destruct (N.leb_spec c minId) as [?|_]; [lia|]. cbv zeta.
  unfold bottom_end. rewrite !(addD_safe minId 1000) by done.
  fold smallerIds. fold tempId.
  assert (read (Some <$> cm) blockId = Some blk) as ->.
  { unfold read. by rewrite lookup_fmap, Hblk. }
  fold cm1. rewrite foldl_reverse_shift.
  pose proof (shift_all_arrows smallerIds cm1
                (map_ends (rename_end blockId tempId) <$> arrows s)) as Har.
  pose proof (bottom_defined (map_ends (rename_end blockId tempId) <$> arrows s)) as Hdef.
  unfold cm3 in Hdef |- *.
  destruct (shift_all smallerIds _) as [cm2 ar2] eqn:E.
  simpl in Har, Hdef |- *. rewrite Hdef. simpl. subst ar2.
  do 3 f_equal. rewrite <- !list_fmap_compose.
  by f_equal.
Qed.

End bottom.

Lemma canonical_ids_2_3_7_9 : canonical_ids (st_codeMap (init ids_2_3_7_9)).
Proof.
  intros k n Hk Hn. apply elem_of_dom in Hk.
  assert (dom (st_codeMap (init ids_2_3_7_9))
          = {["2"%string; "3"%string; "7"%string; "9"%string; "util"%string]})
    as E by (by vm_compute).
  rewrite E in Hk.
  repeat (apply elem_of_union in Hk as [Hk|Hk]);
    apply elem_of_singleton in Hk; subst k;
    vm_compute in Hn; try discriminate Hn; injection Hn as <-; reflexivity.
Qed.

(** X17: on a document with canonical numeric ids, between two handlers,
    take a block whose numeric id is above the least numeric id [minId] and
    at most [2^53].  When the temporary id [minId + 1000] is at most [2^53]
    and not the key of a block, and no smaller id is [minId + 999],
    [moveBlockToBottom] renumbers as its comments say: the moved block gets
    the least numeric id, every block with a smaller numeric id goes one
    up, blocks with a greater numeric id or a non-numeric key stay, there
    is no other key, so every record is kept; the ends of the arrows on
    these blocks follow them, and one snapshot is recorded.  Records are
    compared up to [settle], what reloading and saving do to a record. *)
Theorem moveBlockToBottom_renumbers (s : State) (blockId : string)
    (blk : CodeBlock) (currentId minId : N) :
  idle s →
  canonical_ids (st_codeMap s) →
  st_codeMap s !! blockId = Some blk →
  numeric_value blockId = Some currentId →
  head (getNumericIds (st_codeMap s)) = Some minId →
  (minId < currentId)%N →
  (currentId ≤ two53)%N →
  (minId + 1000 ≤ two53)%N →
  st_codeMap s !! StringN (minId + 1000) = None →
  ((minId + 999 < currentId)%N → st_codeMap s !! StringN (minId + 999) = None) →
  ∃ s' rename,
    rename = bottom_end blockId minId
               (filter (λ id, (id < currentId)%N) (getNumericIds (st_codeMap s)))
    ∧ moveBlockToBottom blockId s = Some s'
    ∧ st_codeMap s' !! StringN minId = Some (settle (StringN minId) blk)
    ∧ (∀ id b, (id < currentId)%N → st_codeMap s !! StringN id = Some b →
         st_codeMap s' !! StringN (id + 1) = Some (settle (StringN (id + 1)) b)
         ∧ ∀ p, block p = StringN id → rename p = set_block (StringN (id + 1)) p)
    ∧ (∀ k, unmoved_above currentId k →
         st_codeMap s' !! k = settle k <$> st_codeMap s !! k
         ∧ (is_Some (st_codeMap s !! k) → ∀ p, block p = k → rename p = p))
    ∧ (∀ k, is_Some (st_codeMap s' !! k) →
         k = StringN minId
         ∨ (∃ id, (id < currentId)%N ∧ is_Some (st_codeMap s !! StringN id)
                  ∧ k = StringN (id + 1))
         ∨ (is_Some (st_codeMap s !! k) ∧ unmoved_above currentId k))
    ∧ (∀ k b, st_codeMap s !! k = Some b →
         ∃ k', st_codeMap s' !! k' = Some (settle k' b))
    ∧ (∀ p, block p = blockId → rename p = set_block (StringN minId) p)
    ∧ arrows s' = map_ends rename <$> arrows s
    ∧ history s' = take (Z.to_nat (historyIndex s + 1)) (history s)
                   ++ [snapshot_of s']
    ∧ historyIndex s' = historyIndex s + 1.
Proof.
  intros Hidle Hcan Hblk Hnum Hhead Hlt Hc53 Ht53 Htemp H999.
  set (smallerIds := filter (λ id, (id < currentId)%N) _).
  set (ar1 := map_ends (rename_end blockId (StringN (minId + 1000))) <$> arrows s).
  pose proof (bottom_eq _ _ _ _ _ Hcan Hblk Hnum Hhead Hlt Hc53 Ht53 Htemp H999 s eq_refl)
    as Heq.
  pose proof (bottom_new_min _ _ _ _ _ Hcan Hblk Hlt Hc53 Ht53 Htemp H999 ar1) as Hmin.
  pose proof (bottom_shifted _ _ _ _ _ Hcan Hblk Hnum Hhead Hlt Hc53 Ht53 Htemp H999 ar1)
    as Hshift.
  pose proof (bottom_unmoved _ _ blk _ _ Hcan Hnum Hlt Hc53 Ht53 Htemp H999 ar1) as Hun.
  pose proof (bottom_dom _ _ blk _ minId Hcan Hblk Hnum Hlt Hc53 Ht53 H999 ar1) as Hdom.
  pose proof (bottom_smaller _ currentId Hcan Hc53) as Hsm.
  cbv beta zeta in Heq, Hmin, Hshift, Hun, Hdom, Hsm.
  fold smallerIds ar1 in Heq, Hmin, Hshift, Hun, Hdom, Hsm.
  match type of Hmin with ?m !! _ = _ => set (cm3 := m) in * end.
  pose (s3 := set_codeMap (omap id cm3)
                (set_arrows (map_ends (bottom_end blockId minId smallerIds) <$> arrows s) s)).
  fold s3 in Heq.
  pose proof (loadCodeBlocks_frame s3) as (Hp & Har & Hh & Hhi & Hap & _ & _ & Hsv).
  change (st_page_name s3) with (st_page_name s) in Hp.
  change (arrows s3)
    with (map_ends (bottom_end blockId minId smallerIds) <$> arrows s) in Har.
  change (history s3) with (history s) in Hh.
  change (historyIndex s3) with (historyIndex s) in Hhi.
  change (isApplyingHistory s3) with (isApplyingHistory s) in Hap.
  assert (idle (loadCodeBlocks s3)) as Hidle3.
  { destruct Hidle as [Hidle1 Hidle2]. split; [congruence|]. by rewrite Hhi, Hh. }
  pose proof (recordAndSave_spec (loadCodeBlocks s3)
                (loadCodeBlocks_in_sync s3) Hidle3) as Hrec.
  cbv zeta in Hrec. rewrite <- Heq in Hrec.
  eexists. exists (bottom_end blockId minId smallerIds).
  split; [done|]. split; [exact Hrec|].
  unfold snapshot_of. proj.
  rewrite loadCodeBlocks_codeMap, loadCodeBlocks_codeBlocks, Hp, Har, Hh, Hhi.
  subst s3. proj.
  assert (∀ k, read_back_all (box_of <$> with_default_names (omap id cm3))
                 (with_default_names (omap id cm3)) !! k
               = settle k <$> (cm3 !! k ≫= id)) as Hfinal.
  { intros k. by rewrite lookup_load_save, lookup_omap. }
  assert (∀ i b, (i < currentId)%N → st_codeMap s !! StringN i = Some b →
            read_back_all (box_of <$> with_default_names (omap id cm3))
              (with_default_names (omap id cm3)) !! StringN (i + 1)
            = Some (settle (StringN (i + 1)) b)) as Hup.
  { intros i b Hi Hb. rewrite Hfinal, Hshift by (apply Hsm; rewrite Hb; eauto).
    by rewrite Hb. }
  assert (∀ k, unmoved_above currentId k →
            read_back_all (box_of <$> with_default_names (omap id cm3))
              (with_default_names (omap id cm3)) !! k
            = settle k <$> st_codeMap s !! k) as Hstay.
  { intros k Hk. rewrite Hfinal, Hun by done. by destruct (st_codeMap s !! k). }
  split_and!; try done.
  - by rewrite Hfinal, Hmin.
  - intros i b Hi Hb. split; [by apply Hup|].
    intros p Hp'.
    apply (bottom_end_shifted _ _ _ _ _ Hcan Hblk Hnum Hlt Hc53 Ht53 Htemp H999);
      [|done]. apply Hsm. rewrite Hb. eauto.
  - intros k Hk. split; [by apply Hstay|].
    intros Hsome p <-.
    by apply (bottom_end_unmoved _ _ _ _ Hcan Hnum Hlt Hc53 Ht53 Htemp H999).
  - intros k Hk. rewrite Hfinal, fmap_is_Some in Hk.
    destruct (cm3 !! k) as [v|] eqn:E; [|by destruct Hk].
    destruct (Hdom k) as [?|[(i & Hi & ->)|?]]; [by rewrite E|auto..].
    right. left. exists i. apply Hsm in Hi as [? ?]. done.
  - intros k b Hb. destruct (numeric_value k) as [n|] eqn:Hn.
    + pose proof (Hcan k n ltac:(by rewrite Hb) Hn) as <-.
      destruct (N.lt_trichotomy n currentId) as [?|[->|?]].
      * exists (StringN (n + 1)). by apply Hup.
      * exists (StringN minId). rewrite Hfinal, Hmin. simpl.
        assert (blockId = StringN currentId) as E
            by (symmetry; apply Hcan; [by rewrite Hblk|done]).
        rewrite E in Hblk. congruence.
      * exists (StringN n). rewrite Hstay, Hb; [done|].
        intros n'. rewrite Hn. intros [= <-]. done.
    + exists k. rewrite Hstay, Hb; [done|]. intros n'. by rewrite Hn.
  - intros p Hp'.
    by apply (bottom_end_moved _ _ _ _ Hcan Hlt Hc53 Ht53 Htemp H999).
Qed.

Lemma moveBlockToBottom_renumbers_witness :
  ∃ s', moveBlockToBottom "7" (init ids_2_3_7_9) = Some s'
        ∧ b_path <$> st_codeMap s' !! "2" = Some "seven.py"%string
        ∧ b_path <$> st_codeMap s' !! "3" = Some "two.py"%string
        ∧ b_path <$> st_codeMap s' !! "4" = Some "three.py"%string
        ∧ b_path <$> st_codeMap s' !! "9" = Some "nine.py"%string
        ∧ b_path <$> st_codeMap s' !! "util" = Some "util.py"%string
        ∧ dom (st_codeMap s')
          = {["2"%string; "3"%string; "4"%string; "9"%string; "util"%string]}
        ∧ arrows s' =
            [ {| a_from := mkAnchor "2" 5 10; a_to := mkAnchor "4" 3 4;
                 a_color := None; a_alpha := None |};
              {| a_from := mkAnchor "3" 0 0; a_to := mkAnchor "9" 8 9;
                 a_color := None; a_alpha := None |};
              {| a_from := mkAnchor "util" 1 1; a_to := mkAnchor "2" 2 2;
                 a_color := None; a_alpha := None |} ].
Proof.
  destruct (moveBlockToBottom_renumbers (init ids_2_3_7_9) "7"
              (with_default_name "7" (named_block "7" "seven.py" 30 30)) 7 2)
    as (s' & rename & Hren & Hrun & H2 & Hup & Hun & _ & _ & _ & Har & _).
  - split; [reflexivity|]. vm_compute. split; easy.
  - apply canonical_ids_2_3_7_9.
  - reflexivity.
  - reflexivity.
  - reflexivity.
  - reflexivity.
  - unfold two53. lia.
  - unfold two53. lia.
  - reflexivity.
  - intros H. vm_compute in H. discriminate H.
  - exists s'. split; [exact Hrun|].
    destruct (Hup 2%N _ eq_refl eq_refl) as [H3 _].
    destruct (Hup 3%N _ eq_refl eq_refl) as [H4 _].
    destruct (Hun "9"%string) as [H9 _].
    { intros n Hn. vm_compute in Hn. injection Hn as <-. reflexivity. }
    destruct (Hun "util"%string) as [Hu _].
    { intros n Hn. vm_compute in Hn. discriminate Hn. }
    change (StringN 2) with "2"%string in H2.
    change (StringN (2 + 1)) with "3"%string in H3.
    change (StringN (3 + 1)) with "4"%string in H4.
    rewrite H2, H3, H4, H9, Hu, Har, Hren.
    split; [reflexivity|]. split; [reflexivity|]. split; [reflexivity|].
    split; [reflexivity|]. split; [reflexivity|]. split; [|reflexivity].
    clear -Hrun. vm_compute in Hrun. injection Hrun as <-. reflexivity.
Defined.

(** ** The allocator of the earlier iteration *)

Lemma per_path_upper (m : gmap string CodeBlock) (filePath k : string)
    (b : CodeBlock) (n : N) :
  m !! k = Some b → b_path b = filePath → numeric_value k = Some n →
  (n ≤ PerPath.maxNumeric m filePath)%N.
Proof.
  unfold PerPath.maxNumeric. revert k b n.
  apply (map_fold_weak_ind
           (λ r m, ∀ k b n, m !! k = Some b → b_path b = filePath →
                            numeric_value k = Some n → (n ≤ r)%N)).
  - intros k b n H. by rewrite lookup_empty in H.
  - intros i blk m' r Hi IH k b n Hk Hp Hn. unfold PerPath.scan.
    rewrite scan_numeric_value.
    destruct (decide (i = k)) as [->|Hne].
    + rewrite lookup_insert_eq in Hk. injection Hk as ->.
      rewrite Hp, String.eqb_refl, Hn. destruct (N.ltb_spec r n); lia.
    + rewrite lookup_insert_ne in Hk by done.
      specialize (IH k b n Hk Hp Hn).
      destruct (String.eqb (b_path blk) filePath); [|done].
      destruct (numeric_value i) as [ni|]; [|done].
      destruct (N.ltb_spec r ni); lia.
Qed.

Lemma per_path_attained (m : gmap string CodeBlock) (filePath : string) :
  PerPath.maxNumeric m filePath = 0%N
  ∨ ∃ k b, m !! k = Some b ∧ b_path b = filePath
           ∧ numeric_value k = Some (PerPath.maxNumeric m filePath).
Proof.
  unfold PerPath.maxNumeric.
  apply (map_fold_weak_ind
           (λ r m, r = 0%N ∨ ∃ k b, m !! k = Some b ∧ b_path b = filePath
                                    ∧ numeric_value k = Some r)).
  - by left.
  - intros i blk m' r Hi IH. unfold PerPath.scan. rewrite scan_numeric_value.
    assert (r = 0%N ∨ ∃ k b, <[i:=blk]> m' !! k = Some b ∧ b_path b = filePath
                             ∧ numeric_value k = Some r) as IH'.
    { destruct IH as [->|(k & b & Hk & Hp & Hv)]; [by left|].
      right. exists k, b. split; [|done].
      rewrite lookup_insert_ne; [done|]. intros ->. congruence. }
    destruct (String.eqb_spec (b_path blk) filePath) as [Hp|_]; [|done].
    destruct (numeric_value i) as [ni|] eqn:Hni; [|done].
    destruct (N.ltb_spec r ni); [|done].
    right. exists i, blk. by rewrite lookup_insert_eq.
Qed.

Lemma per_path_below (m : gmap string CodeBlock) (filePath : string) :
  (PerPath.maxNumeric m filePath ≤ maxNumeric m)%N.
Proof.
  destruct (per_path_attained m filePath) as [->|(k & b & Hk & _ & Hv)]; [lia|].
  apply (maxNumeric_upper m k); [by rewrite Hk|done].
Qed.

(** X18: the allocator of the earlier iteration scans the numeric titles
    of one file only, and its [while] loop makes up for it.  When every
    numeric title of the document is below [2^53], the title it returns is
    the decimal numeral of a number [n] that is free among all blocks, is
    above every numeric title of that file, and is the first free number
    after the greatest of them.  The [addToMap] command computes the same
    title, and a title that is numeric and belongs to another file may
    well be greater. *)
Theorem per_path_allocation (m : gmap string CodeBlock) (filePath : string) :
  (maxNumeric m < two53)%N →
  ∃ n : N,
    PerPath.getNextNumericNameForPath m filePath = Some (StringN n)
    ∧ (∀ pageName ars,
         PerPath.addToMap_blockName (mkData pageName m ars) filePath
         = Some (StringN n))
    ∧ StringN n = decimal n
    ∧ m !! StringN n = None
    ∧ (PerPath.maxNumeric m filePath < n)%N
    ∧ (∀ k b v, m !! k = Some b → b_path b = filePath →
                numeric_value k = Some v → (v < n)%N)
    ∧ (∀ n', (PerPath.maxNumeric m filePath < n')%N → (n' < n)%N →
             is_Some (m !! StringN n'))
    ∧ (PerPath.maxNumeric m filePath = 0%N
       ∨ ∃ k b, m !! k = Some b ∧ b_path b = filePath
                ∧ numeric_value k = Some (PerPath.maxNumeric m filePath)).
Proof.
  intros Hsafe. pose proof (per_path_below m filePath) as Hle.
  destruct (probe_total m (PerPath.maxNumeric m filePath + 1) (maxNumeric m + 1))
    as (j & Hb & Hj & Hfree & Hocc); [lia|lia|by apply candidate_free|].
  assert (addD (PerPath.maxNumeric m filePath) 1 = PerPath.maxNumeric m filePath + 1)%N
    as Hadd by (apply addD_safe; lia).
  exists (PerPath.maxNumeric m filePath + 1 + j)%N. split_and!.
  - unfold PerPath.getNextNumericNameForPath. by rewrite Hadd.
  - intros pageName ars. unfold PerPath.addToMap_blockName. simpl. by rewrite Hadd.
  - apply StringN_safe. lia.
  - exact Hfree.
  - lia.
  - intros k b v Hk Hp Hv.
    pose proof (per_path_upper m filePath k b v Hk Hp Hv). lia.
  - intros n' Hlo Hhi.
    replace n' with (PerPath.maxNumeric m filePath + 1
                     + (n' - (PerPath.maxNumeric m filePath + 1)))%N by lia.
    apply Hocc. lia.
  - apply per_path_attained.
Qed.

Lemma per_path_allocation_witness :
  ∃ n : N,
    PerPath.getNextNumericNameForPath two_files "a.py" = Some (StringN n)
    ∧ two_files !! StringN n = None
    ∧ (PerPath.maxNumeric two_files "a.py" < n)%N.
Proof.
  destruct (per_path_allocation two_files "a.py")
    as (n & Hn & _ & _ & Hfree & Hlt & _).
  - vm_compute. reflexivity.
  - exists n. split; [exact Hn|]. split; [exact Hfree|exact Hlt].
Defined.

(** With blocks ["1"], ["2"] of [a.py] and ["3"], ["7"] of [b.py] the next
    title for [a.py] is ["4"]: ["3"] is taken by the other file, and
    ["4"] is below a title of that file. *)
Lemma two_files_next_titles :
  PerPath.getNextNumericNameForPath two_files "a.py" = Some "4"%string
  ∧ PerPath.getNextNumericNameForPath two_files "b.py" = Some "8"%string
  ∧ Alloc.getNextNumericNameForPath two_files "a.py" = Some "8"%string.
Proof. by vm_compute. Qed.
